(** * TINT: phase correlation and the scan-sequence loop

    A shallow embedding of [tint/phase_correlation.py], of
    [Cell_tracks.get_tracks] from [tint/tracks.py] and of the class [Tracer]
    from [tint/visualization.py].

    Conventions.
    - A 2-D [ndarray] is a list of rows.  Field samples (reflectivity, labels)
      are integers: the code inspects them only through [np.max], comparison
      with [0] and [30], and [!= 0].
    - Python exceptions are values of [exn]; console output, the debugger and
      calls to collaborators are recorded as [event]s.  A computation is a pair
      of the events it emitted and its outcome.
    - The values of the covariance surface are exact rationals; the FFT and the
      Gaussian filter themselves are parameters of the development, and so is
      the floating-point arithmetic at the head of [get_ambient_flow].
    - [pdb.set_trace()] stops at a prompt; what is typed there belongs to the
      session in which the code runs, and is a parameter too. *)

From Stdlib Require Import ZArith QArith Qround Qabs List Bool Lia Lqa Arith.
From Stdlib Require Import Permutation.
From Stdlib Require String.
Import ListNotations.

Local Open Scope Z_scope.

(* ================================================================== *)
(** ** Python run-time: exceptions, events, computations               *)
(* ================================================================== *)

Module Py.

Inductive exn : Type :=
| TypeError
| ValueError
| KeyError
| IndexError
| UnboundLocalError
| AttributeError
| StopIteration
| ZeroDivisionError
| BdbQuit         (* bdb.BdbQuit: the debugger was quit *)
| OutOfFuel.      (* no Python exception: the bound of a modelled [while] loop *)

(** Messages written with [print]. *)
Inductive message : Type :=
| MsgSkipping                     (* 'Skipping erroneous grid.' *)
| MsgTimeDiscontinuity (t : option Z)  (* 'Time discontinuity at {}.' *)
| MsgNoObjects (scan : Z)         (* 'No objects found in scan N.' *)
| MsgTimeElapsed.

(** Collaborators whose calls are recorded. *)
Inductive callee : Type :=
| CGlobalShift | CGetPairs | CInitObjects | CUpdateObjects
| CObjectProp | CWriteTracks | CToNetcdf | CPostTracks | CSystemTracks.

Inductive event : Type :=
| EvPrint (m : message)
| EvPdbSetTrace                   (* pdb.set_trace() *)
| EvCall (c : callee).

Inductive result (A : Type) : Type :=
| Ok (a : A)
| Raise (e : exn).
Arguments Ok {A} a.
Arguments Raise {A} e.

Definition M (A : Type) : Type := (list event * result A)%type.

Definition ret {A} (a : A) : M A := ([], Ok a).

Definition raise {A} (e : exn) : M A := ([], Raise e).

Definition emit (e : event) : M unit := ([e], Ok tt).

Definition bind {A B} (m : M A) (f : A -> M B) : M B :=
  match m with
  | (t, Ok a) => let (t', r) := f a in (t ++ t', r)
  | (t, Raise e) => (t, Raise e)
  end.

Definition lift {A} (r : result A) : M A := ([], r).

Definition trace {A} (m : M A) : list event := fst m.
Definition outcome {A} (m : M A) : result A := snd m.

End Py.
Import Py.

Declare Scope py_scope.
Delimit Scope py_scope with py.
Notation "x <- c ;; k" := (bind c (fun x => k))
  (at level 61, c at next level, right associativity) : py_scope.
Notation "' pat <- c ;; k" := (bind c (fun x => match x with pat => k end))
  (at level 61, pat pattern, c at next level, right associativity) : py_scope.
Notation "c ;; k" := (bind c (fun _ => k))
  (at level 61, right associativity) : py_scope.
Local Open Scope py_scope.

(* ================================================================== *)
(** ** numpy arrays as lists                                           *)
(* ================================================================== *)

Module Np.

Definition matrix (A : Type) : Type := list (list A).

Definition nrows {A} (m : matrix A) : nat := length m.
Definition ncols {A} (m : matrix A) : nat :=
  match m with [] => 0%nat | r :: _ => length r end.

(** [m.shape] *)
Definition shape {A} (m : matrix A) : nat * nat := (nrows m, ncols m).

(** [m] is a genuine [R] x [C] array. *)
Definition rect {A} (R C : nat) (m : matrix A) : Prop :=
  length m = R /\ Forall (fun r => length r = C) m.

(** [m[i, j]] for in-range, non-negative indices. *)
Definition at2 {A} (m : matrix A) (i j : nat) : option A :=
  match nth_error m i with
  | Some r => nth_error r j
  | None => None
  end.

(** [np.max(m)]: a zero-size array has no maximum. *)
Definition np_max (m : matrix Z) : result Z :=
  match concat m with
  | [] => Raise ValueError
  | x :: xs => Ok (fold_left Z.max xs x)
  end.

(** One bound of a Python slice on a sequence of length [n]. *)
Definition slice_bound (n : nat) (x : Z) : nat :=
  if x <? 0 then Z.to_nat (Z.max (x + Z.of_nat n) 0)
  else Nat.min (Z.to_nat x) n.

(** [l[a:b]] *)
Definition py_slice {A} (a b : Z) (l : list A) : list A :=
  let lo := slice_bound (length l) a in
  let hi := slice_bound (length l) b in
  firstn (hi - lo) (skipn lo l).

(** [m[a:b, c:d]] *)
Definition slice2 {A} (a b c d : Z) (m : matrix A) : matrix A :=
  map (py_slice c d) (py_slice a b m).

(** [np.concatenate((a, b), axis=0)] *)
Definition concatenate_axis0 {A} (a b : matrix A) : matrix A := a ++ b.

(** [np.concatenate((a, b), axis=1)] for arrays with the same number of rows. *)
Definition concatenate_axis1 {A} (a b : matrix A) : matrix A :=
  map (fun ab : list A * list A => fst ab ++ snd ab) (combine a b).

(** Rotating a list to the left by [k]: [np.concatenate((l[k:], l[:k]))]. *)
Definition rot {A} (k : nat) (l : list A) : list A := skipn k l ++ firstn k l.

(** [np.zeros_like(m)] *)
Definition zeros_like (m : matrix Z) : matrix Z := map (map (fun _ => 0)) m.

(** [np.int(x)] on a float: truncation towards zero. *)
Definition np_int (x : Q) : Z :=
  if Qle_bool 0 x then Qfloor x else Qceiling x.

(** [np.ceil(n / 2).astype('int')] *)
Definition ceil_half (n : nat) : nat := Nat.div (n + 1) 2.

(** Every sample is zero. *)
Definition all_zero (m : matrix Z) : Prop := Forall (Forall (fun x => x = 0)) m.

(** Samples are 0 or 1. *)
Definition binary (m : matrix Z) : Prop :=
  Forall (Forall (fun x => x = 0 \/ x = 1)) m.

(** Maximum of a rational array, and the first position (row-major) that
    satisfies a test: [np.argwhere(test)[0]]. *)
Definition Qmax (a b : Q) : Q := if Qle_bool a b then b else a.

Definition np_max_Q (m : matrix Q) : result Q :=
  match concat m with
  | [] => Raise ValueError
  | x :: xs => Ok (fold_left Qmax xs x)
  end.

Fixpoint find_index {A} (p : A -> bool) (l : list A) : option nat :=
  match l with
  | [] => None
  | x :: xs => if p x then Some 0%nat
               else option_map S (find_index p xs)
  end.

Fixpoint argwhere_from {A} (p : A -> bool) (i : nat) (m : matrix A)
  : option (nat * nat) :=
  match m with
  | [] => None
  | r :: rs => match find_index p r with
               | Some j => Some (i, j)
               | None => argwhere_from p (S i) rs
               end
  end.

Definition argwhere_first {A} (p : A -> bool) (m : matrix A)
  : result (nat * nat) :=
  match argwhere_from p 0%nat m with
  | Some ij => Ok ij
  | None => Raise IndexError
  end.

End Np.
Import Np.

(* ================================================================== *)
(** ** tint/phase_correlation.py                                       *)
(* ================================================================== *)

(** The [params] dictionary built by [Cell_tracks.__init__], with the
    defaults of [tint/tracks.py]. *)
Module Config.

Record Params : Type := {
  FIELD_THRESH : list Z;
  MIN_SIZE : list Z;
  SEARCH_MARGIN : Q;
  FLOW_MARGIN : Q;
  MAX_FLOW_MAG : Q;
  MAX_DISPARITY : Q;
  MAX_SHIFT_DISP : Q;
  ISO_THRESH : list Z;
  ISO_SMOOTH : Z;
  GS_ALT : Q;
  LEVELS : list (Q * Q);
  TRACK_INTERVAL : nat;
  BOUNDARY_GRID_CELLS : list (Z * Z);
  UPDRAFT_THRESH : Q;
  UPDRAFT_START : Q
}.

Definition default_params : Params := {|
  FIELD_THRESH := [32];
  MIN_SIZE := [8];
  SEARCH_MARGIN := 5000;
  FLOW_MARGIN := 20000;
  MAX_FLOW_MAG := 60;
  MAX_DISPARITY := 999;
  MAX_SHIFT_DISP := 60;
  ISO_THRESH := [8];
  ISO_SMOOTH := 3;
  GS_ALT := 1500;
  LEVELS := [(500%Q, 20000%Q)];
  TRACK_INTERVAL := 0;
  BOUNDARY_GRID_CELLS := [];
  UPDRAFT_THRESH := 25;
  UPDRAFT_START := 500
|}.

End Config.
Import Config.

Module PhaseCorrelation.

(** The dictionaries read by [get_ambient_flow]. *)
Record ObjExtent : Type := {
  obj_center : Q * Q;       (* obj_extent['obj_center'] : (row, col) *)
  obj_radius : Q            (* obj_extent['obj_radius'] *)
}.

(** [grid_size]: z, y and x mesh size in metres. *)
Record GridSize : Type := { gs_z : Q; gs_y : Q; gs_x : Q }.

(** An object that lies inside an [R] x [C] field, with a non-negative
    radius and margin and a positive mesh size. *)
Definition valid_extent (e : ObjExtent) (R C : nat) (params : Params)
  (grid_size : GridSize) : Prop :=
  (0 <= fst (obj_center e))%Q /\
  (fst (obj_center e) < inject_Z (Z.of_nat R))%Q /\
  (0 <= snd (obj_center e))%Q /\
  (snd (obj_center e) < inject_Z (Z.of_nat C))%Q /\
  (0 <= obj_radius e)%Q /\
  (0 <= FLOW_MARGIN params)%Q /\
  (0 < gs_y grid_size)%Q /\
  (0 < gs_x grid_size)%Q.

(** The four corners of the flow window, lines 18-34 of [get_ambient_flow]:
    [(row_lb, row_ub, col_lb, col_ub)] after clipping against [dims], in
    exact arithmetic and for a mesh size that is not zero. *)
Definition flow_window (obj_extent : ObjExtent) (dims : nat * nat)
  (params : Params) (grid_size : GridSize) : Z * Z * Z * Z :=
  let margin_r := (FLOW_MARGIN params / gs_y grid_size)%Q in
  let margin_c := (FLOW_MARGIN params / gs_x grid_size)%Q in
  let row_lb := (fst (obj_center obj_extent) - obj_radius obj_extent - margin_r)%Q in
  let row_ub := (fst (obj_center obj_extent) + obj_radius obj_extent + margin_r)%Q in
  let col_lb := (snd (obj_center obj_extent) - obj_radius obj_extent - margin_c)%Q in
  let col_ub := (snd (obj_center obj_extent) + obj_radius obj_extent + margin_c)%Q in
  let row_lb := np_int row_lb in
  let row_ub := np_int row_ub in
  let col_lb := np_int col_lb in
  let col_ub := np_int col_ub in
  let row_lb := Z.max row_lb 0 in
  let row_ub := Z.min row_ub (Z.of_nat (fst dims)) in
  let col_lb := Z.max col_lb 0 in
  let col_ub := Z.max col_ub (Z.of_nat (snd dims)) in
  (row_lb, row_ub, col_lb, col_ub).

(** Lines 18-27 of [get_ambient_flow] in exact arithmetic: the bounds they
    compute when no operation rounds or overflows.  A zero mesh size has no
    quotient. *)
Definition exact_window_bounds (obj_extent : ObjExtent) (params : Params)
  (grid_size : GridSize) : result (Z * Z * Z * Z) :=
  if Qeq_bool (gs_y grid_size) 0 || Qeq_bool (gs_x grid_size) 0
  then Raise ZeroDivisionError
  else
    let margin_r := (FLOW_MARGIN params / gs_y grid_size)%Q in
    let margin_c := (FLOW_MARGIN params / gs_x grid_size)%Q in
    let row_lb := (fst (obj_center obj_extent) - obj_radius obj_extent - margin_r)%Q in
    let row_ub := (fst (obj_center obj_extent) + obj_radius obj_extent + margin_r)%Q in
    let col_lb := (snd (obj_center obj_extent) - obj_radius obj_extent - margin_c)%Q in
    let col_ub := (snd (obj_center obj_extent) + obj_radius obj_extent + margin_c)%Q in
    Ok (np_int row_lb, np_int row_ub, np_int col_lb, np_int col_ub).

(** Lines 31-34: the four bounds are set against [dims]. *)
Definition clip_window (bounds : Z * Z * Z * Z) (dims : nat * nat)
  : Z * Z * Z * Z :=
  let '(row_lb, row_ub, col_lb, col_ub) := bounds in
  let row_lb := Z.max row_lb 0 in
  let row_ub := Z.min row_ub (Z.of_nat (fst dims)) in
  let col_lb := Z.max col_lb 0 in
  let col_ub := Z.max col_ub (Z.of_nat (snd dims)) in
  (row_lb, row_ub, col_lb, col_ub).

(** Bounds, before clipping, that enclose a cell of an [R] x [C] field: the
    bounds around an object of the field enclose the cell of its centre. *)
Definition encloses_cell (bounds : Z * Z * Z * Z) (R C : nat) : Prop :=
  let '(row_lb, row_ub, col_lb, col_ub) := bounds in
  (exists i, 0 <= i < Z.of_nat R /\ row_lb <= i <= row_ub) /\
  (exists j, 0 <= j < Z.of_nat C /\ col_lb <= j <= col_ub).

(** [region[region != 0] = 1] *)
Definition binarize (region : matrix Z) : matrix Z :=
  map (map (fun x => if x =? 0 then 0 else 1)) region.

(** Lines 36-40 for one image: the copy of the window, with every sample
    that is not zero set to one. *)
Definition flow_region (window : Z * Z * Z * Z) (img : matrix Z) : matrix Z :=
  let '(row_lb, row_ub, col_lb, col_ub) := window in
  binarize (slice2 row_lb (row_ub + 1) col_lb (col_ub + 1) img).

(** What is typed at the [(Pdb)] prompt. *)
Inductive pdb_command : Type :=
| PdbContinue       (* c, cont, continue: the program resumes *)
| PdbQuit.          (* q, quit, exit, or the end of the input *)

(** The session in which the code runs: it answers the prompt. *)
Class Debugger : Type := at_prompt : pdb_command.

(** [pdb.set_trace()]: the debugger takes over; the program resumes, or is
    aborted with [BdbQuit]. *)
Definition set_trace {D : Debugger} : M unit :=
  emit EvPdbSetTrace ;;
  match at_prompt with
  | PdbContinue => ret tt
  | PdbQuit => raise BdbQuit
  end.

(** [fft_shift], for an [ndarray] argument (the only kind it is called with;
    on anything else the source prints a notice and returns [None]). *)
Definition fft_shift {A} (fft_mat : matrix A) (rd cd : nat) : matrix A :=
  let quad1 := map (firstn cd) (firstn rd fft_mat) in
  let quad2 := map (skipn cd) (firstn rd fft_mat) in
  let quad3 := map (skipn cd) (skipn rd fft_mat) in
  let quad4 := map (firstn cd) (skipn rd fft_mat) in
  let centered_t := concatenate_axis0 quad4 quad1 in
  let centered_b := concatenate_axis0 quad3 quad2 in
  let centered := concatenate_axis1 centered_b centered_t in
  centered.

Section Kernels.

(** Lines 67-73 of [fft_crosscov]: the real part of the inverse transform of
    the normalised cross-power spectrum, before the quadrant swap. *)
Variable cross_power_surface : matrix Z -> matrix Z -> matrix Q.

(** [ndimage.filters.gaussian_filter] *)
Variable gaussian_filter : matrix Q -> Q -> matrix Q.

Definition fft_crosscov (im1 im2 : matrix Z) (rd cd : nat) : matrix Q :=
  let crosscov := cross_power_surface im1 im2 in
  fft_shift crosscov rd cd.

(** The no-signal gate on line 46:
    [not global_shift and (np.max(im1) == 0 or np.max(im2) == 0)]. *)
Definition no_signal_gate (im1 im2 : matrix Z) (global_shift : bool) : M bool :=
  if negb global_shift then
    m1 <- lift (np_max im1) ;;
    if m1 =? 0 then ret true
    else m2 <- lift (np_max im2) ;; ret (m2 =? 0)
  else ret false.

Context {D : Debugger}.

Definition fft_flowvectors (im1 im2 : matrix Z) (global_shift : bool)
  : M (option (Z * Z)) :=
  gate <- no_signal_gate im1 im2 global_shift ;;
  if gate then ret None
  else
    set_trace ;;
    let dims := shape im1 in
    let rd := ceil_half (fst dims) in
    let cd := ceil_half (snd dims) in
    let crosscov := fft_crosscov im1 im2 rd cd in
    let sigma := ((1 # 8) * inject_Z (Z.of_nat
                   (Nat.min (fst (shape crosscov)) (snd (shape crosscov)))))%Q in
    let cov_smooth := gaussian_filter crosscov sigma in
    top <- lift (np_max_Q cov_smooth) ;;
    pshift <- lift (argwhere_first (fun v => Qeq_bool v top) cov_smooth) ;;
    let pshift :=
      (Z.of_nat (fst pshift) - (Z.of_nat (fst dims) - Z.of_nat rd),
       Z.of_nat (snd pshift) - (Z.of_nat (snd dims) - Z.of_nat cd)) in
    ret (Some pshift).

(** Lines 18-27 of [get_ambient_flow] as the interpreter runs them, in
    binary64 arithmetic: the four bounds that [np.int] returns, or the
    exception of a division by zero or of a bound that is not finite. *)
Variable window_bounds :
  ObjExtent -> Params -> GridSize -> result (Z * Z * Z * Z).

Definition get_ambient_flow (obj_extent : ObjExtent) (img1 img2 : matrix Z)
  (params : Params) (grid_size : GridSize) : M (option (Z * Z)) :=
  bounds <- lift (window_bounds obj_extent params grid_size) ;;
  let dims := shape img1 in
  let window := clip_window bounds dims in
  let flow_region1 := flow_region window img1 in
  let flow_region2 := flow_region window img2 in
  fft_flowvectors flow_region1 flow_region2 false.

(** [get_global_shift(im1, im2)]; [im2] may be [None]. *)
Definition get_global_shift (im1 : matrix Z) (im2 : option (matrix Z))
  : M (option (Z * Z)) :=
  match im2 with
  | None => ret None
  | Some im2 =>
      shift <- fft_flowvectors im1 im2 true ;;
      ret shift
  end.

End Kernels.

End PhaseCorrelation.
Import PhaseCorrelation.

(** The surface that [fft_flowvectors] searches for its peak. *)
Module Surface.

Section Kernels.

Variable cross_power_surface : matrix Z -> matrix Z -> matrix Q.
Variable gaussian_filter : matrix Q -> Q -> matrix Q.

(** [cov_smooth], lines 52-56 of [fft_flowvectors]. *)
Definition cov_smooth (im1 im2 : matrix Z) : matrix Q :=
  let dims := shape im1 in
  let rd := ceil_half (fst dims) in
  let cd := ceil_half (snd dims) in
  let crosscov := fft_crosscov cross_power_surface im1 im2 rd cd in
  let sigma := ((1 # 8) * inject_Z (Z.of_nat
                 (Nat.min (fst (shape crosscov)) (snd (shape crosscov)))))%Q in
  gaussian_filter crosscov sigma.

End Kernels.

(** A surface without a peak: all its samples are equal. *)
Definition flat (m : matrix Q) : Prop :=
  forall i j i' j' v v',
    at2 m i j = Some v -> at2 m i' j' = Some v' -> (v == v')%Q.

End Surface.
Import Surface.

(** The two kernels on 2 x 2 arrays, where they can be written down in
    exact arithmetic.  Arrays of another shape are left as they are. *)
Module TwoByTwo.

(** [np.fft.fft2] of a real 2 x 2 array: the two-point transform has the
    coefficients 1 and -1, so the spectrum is real. *)
Definition np_fft2 (m : matrix Q) : matrix Q :=
  match m with
  | [[a; b]; [c; d]] =>
      [[a + b + c + d; a - b + c - d]; [a + b - c - d; a - b - c + d]]%Q
  | _ => m
  end.

(** [np.fft.ifft2] of a real 2 x 2 array. *)
Definition np_ifft2 (m : matrix Q) : matrix Q :=
  match m with
  | [[_; _]; [_; _]] => map (map (fun v => v / 4)%Q) (np_fft2 m)
  | _ => m
  end.

(** An operation applied sample by sample to two arrays of one shape. *)
Definition pointwise (f : Q -> Q -> Q) (a b : matrix Q) : matrix Q :=
  map (fun rows : list Q * list Q =>
         map (fun v : Q * Q => f (fst v) (snd v))
             (combine (fst rows) (snd rows)))
      (combine a b).

(** Lines 67-73 of [fft_crosscov]. *)
Definition cross_power_surface (im1 im2 : matrix Z) : matrix Q :=
  let fft1_conj := np_fft2 (map (map inject_Z) im1) in  (* real: its own conjugate *)
  let fft2 := np_fft2 (map (map inject_Z) im2) in
  let normalize := map (map Qabs) (pointwise Qmult fft2 fft1_conj) in
  let normalize :=
    map (map (fun v => if Qeq_bool v 0 then 1%Q else v)) normalize in
  let cross_power_spectrum :=
    pointwise Qdiv (pointwise Qmult fft2 fft1_conj) normalize in
  let crosscov := np_ifft2 cross_power_spectrum in
  crosscov.

(** The kernel of [gaussian_filter] for [sigma = 1/4], the value of line 55
    on a 2 x 2 surface: its radius is [int(4 * sigma + 0.5) = 1] and its
    weights are [exp(-8)], [1], [exp(-8)] divided by their sum.  [edge] is
    the outer weight to eight decimals. *)
Definition edge : Q := 33524 # 100000000.
Definition centre : Q := 1 - 2 * edge.

(** One axis of two samples in mode 'reflect': the neighbour beyond an end
    is the sample at that end. *)
Definition correlate1d (a b : Q) : Q * Q :=
  (edge * a + centre * a + edge * b, edge * a + centre * b + edge * b)%Q.

(** [gaussian_filter(m, 1/4)] on a 2 x 2 array: axis 0, then axis 1. *)
Definition gaussian_filter (m : matrix Q) (sigma : Q) : matrix Q :=
  match m with
  | [[a; b]; [c; d]] =>
      let '(a0, c0) := correlate1d a c in
      let '(b0, d0) := correlate1d b d in
      let '(a1, b1) := correlate1d a0 b0 in
      let '(c1, d1) := correlate1d c0 d0 in
      [[a1; b1]; [c1; d1]]
  | _ => m
  end.

End TwoByTwo.

(* ================================================================== *)
(** ** Function objects and positional calls                           *)
(* ================================================================== *)

Module PyCall.

(** The values that flow through the call on line 271 of [tracks.py]. *)
Inductive value : Type :=
| VNone
| VArray (a : matrix Z)
| VParams (p : Params)
| VShift (s : Z * Z).

(** A function defined with [fn_arity] positional parameters and no
    defaults. *)
Record PyFunction : Type := {
  fn_arity : nat;
  fn_body : list value -> M value
}.

(** A positional call [f(a1, ..., an)]: binding fails with [TypeError] unless exactly [fn_arity]
    arguments are given. *)
Definition py_call (f : PyFunction) (args : list value) : M value :=
  if Nat.eqb (length args) (fn_arity f) then fn_body f args
  else raise TypeError.

Definition of_shift (s : option (Z * Z)) : value :=
  match s with Some v => VShift v | None => VNone end.

(** [def get_global_shift(im1, im2)] as a function object. *)
Definition get_global_shift_fn
  (cross_power_surface : matrix Z -> matrix Z -> matrix Q)
  (gaussian_filter : matrix Q -> Q -> matrix Q) {D : Debugger} : PyFunction :=
  {| fn_arity := 2;
     fn_body := fun args =>
       match args with
       | [VArray im1; VArray im2] =>
           s <- get_global_shift cross_power_surface gaussian_filter im1 (Some im2) ;;
           ret (of_shift s)
       | [VArray im1; VNone] =>
           s <- get_global_shift cross_power_surface gaussian_filter im1 None ;;
           ret (of_shift s)
       | _ => raise TypeError
       end |}.

End PyCall.
Import PyCall.

(* ================================================================== *)
(** ** tint/tracks.py: [Cell_tracks]                                   *)
(* ================================================================== *)

Module Tracks.

(** [datetime.timedelta], normalised as Python keeps it:
    [0 <= seconds < 86400] and [0 <= microseconds < 1000000]. *)
Record timedelta : Type := { days : Z; seconds : Z; microseconds : Z }.

(** The difference of two [datetime]s, both in microseconds. *)
Definition timedelta_of_us (us : Z) : timedelta :=
  {| days := us / 86400000000;
     seconds := (us mod 86400000000) / 1000000;
     microseconds := us mod 1000000 |}.

(** [timedelta.total_seconds()] *)
Definition total_seconds (d : timedelta) : Q :=
  (inject_Z ((days d * 86400 + seconds d) * 1000000 + microseconds d)
   / 1000000)%Q.

(** Modelled from the spec: the class [Record] of [tint/helpers.py] is not
    among the sources.  Section 3: it holds the current scan index, the
    current scan's timestamp and the interval to the next scan (null until
    a pair of grids has been seen); the scenario of section 8 numbers the
    first scan 0, so a new record starts at -1. *)
Record Record_ (Uid : Type) : Type := {
  scan : Z;
  time : option Z;
  interval : option timedelta;
  uid : list Uid
}.
Arguments scan {Uid} _.
Arguments time {Uid} _.
Arguments interval {Uid} _.
Arguments uid {Uid} _.

(** One row of the [tracks] data frame, indexed by its scan. *)
Record Row (Uid Props : Type) : Type := {
  row_scan : Z;
  row_time : option Z;
  row_uid : Uid;
  row_props : Props
}.
Arguments row_scan {Uid Props} _.
Arguments row_time {Uid Props} _.
Arguments row_uid {Uid Props} _.
Arguments row_props {Uid Props} _.

(** The collaborators of [get_tracks] that live in other modules of the
    package ([grid_utils], [helpers], [matching], [objects]). *)
Class Externals : Type := {
  Grid : Type;
  RadarInfo : Type;
  Counter : Type;
  Objects : Type;
  Uid : Type;
  Rain : Type;
  Cores : Type;
  Classes : Type;
  Pairs : Type;
  Merge : Type;
  Flow : Type;
  Props : Type;
  AccRain : Type;
  get_grid_size : Grid -> GridSize;
  get_radar_info : Grid -> RadarInfo;
  parse_grid_datetime : Grid -> Z;
  new_Counter : Counter;
  extract_grid_data :
    Grid -> String.string -> option GridSize -> Params -> bool ->
    matrix Z * Rain * list (matrix Z) * Cores * Classes;
  get_pairs :
    matrix Z -> matrix Z -> option (matrix Z) -> option (matrix Z) ->
    value -> option Objects -> Record_ Uid -> Params ->
    Pairs * Merge * Flow * Flow;
  init_current_objects :
    option (matrix Z) -> option (matrix Z) -> Rain -> Rain ->
    matrix Z -> matrix Z -> list (matrix Z) -> list (matrix Z) ->
    Pairs -> option Counter -> Q -> bool -> Objects * Counter;
  update_current_objects :
    option (matrix Z) -> option (matrix Z) -> Rain -> Rain ->
    option (matrix Z) -> matrix Z -> matrix Z ->
    list (matrix Z) -> list (matrix Z) ->
    list AccRain -> list Uid ->
    Pairs -> option Objects -> option Counter -> Merge -> Q -> bool -> bool ->
    Objects * Counter * list AccRain * list Uid;
  get_object_prop :
    list (matrix Z) -> Cores -> Grid -> Flow -> Flow -> Classes ->
    String.string -> Record_ Uid -> Params -> option Objects -> list Props;
  objects_uid : option Objects -> list Uid;
  props_uid : Props -> Uid
}.

Declare Scope st_scope.

Section Orchestrator.

Context {E : Externals}.

Definition DataFrame : Type := list (Row Uid Props).

(** [DataFrame.drop(label)]: a new frame without the rows of that scan;
    [KeyError] when no row carries the label. *)
Definition DataFrame_drop (label : Z) (df : DataFrame) : result DataFrame :=
  if existsb (fun r => row_scan r =? label) df
  then Ok (filter (fun r => negb (row_scan r =? label)) df)
  else Raise KeyError.

(** Modelled from the spec: [write_tracks] of [tint/objects.py] is not among
    the sources.  Section 4.4(i): append one row per (object, level) to the
    table, tagged with scan index, timestamp and uid. *)
Definition write_tracks (tracks : DataFrame) (record : Record_ Uid)
  (current_objects : option Objects) (obj_props : list Props) : DataFrame :=
  tracks ++ map (fun p => {| row_scan := scan record;
                             row_time := time record;
                             row_uid := props_uid p;
                             row_props := p |}) obj_props.

(** [Record(grid_obj)] *)
Definition Record_new (grid_obj : Grid) : Record_ Uid :=
  {| scan := -1; time := None; interval := None; uid := [] |}.

(** [record.update_scan_and_time(grid_obj1, grid_obj2=None)] *)
Definition update_scan_and_time (r : Record_ Uid) (grid_obj1 : Grid)
  (grid_obj2 : option Grid) : Record_ Uid :=
  let time1 := parse_grid_datetime grid_obj1 in
  {| scan := scan r + 1;
     time := Some time1;
     interval := match grid_obj2 with
                 | None => interval r
                 | Some g2 =>
                     Some (timedelta_of_us (parse_grid_datetime g2 - time1))
                 end;
     uid := uid r |}.

(** [record.add_uids(current_objects)] *)
Definition add_uids (r : Record_ Uid) (current_objects : option Objects)
  : Record_ Uid :=
  {| scan := scan r; time := time r; interval := interval r;
     uid := objects_uid current_objects |}.

(** The attributes of a [Cell_tracks] instance.  [__load] rebinds the live
    attributes to the saved objects; the next call deep-copies again in
    [__save] before it loads, so the state keeps plain values. *)
Record Cell_tracks : Type := {
  params : Params;
  field : String.string;
  grid_size : option GridSize;
  radar_info : option RadarInfo;
  last_grid : option Grid;
  counter : option Counter;
  record : option (Record_ Uid);
  current_objects : option Objects;
  tracks : DataFrame;
  saved_record : option (Record_ Uid);
  saved_counter : option Counter;
  saved_objects : option Objects
}.

(** [Cell_tracks.__init__] *)
Definition Cell_tracks_init (field : String.string) : Cell_tracks :=
  {| params := default_params;
     field := field;
     grid_size := None;
     radar_info := None;
     last_grid := None;
     counter := None;
     record := None;
     current_objects := None;
     tracks := [];
     saved_record := None;
     saved_counter := None;
     saved_objects := None |}.

Definition set_record (r : option (Record_ Uid)) (s : Cell_tracks) : Cell_tracks :=
  {| params := params s; field := field s; grid_size := grid_size s;
     radar_info := radar_info s; last_grid := last_grid s;
     counter := counter s; record := r;
     current_objects := current_objects s; tracks := tracks s;
     saved_record := saved_record s; saved_counter := saved_counter s;
     saved_objects := saved_objects s |}.

Definition set_counter (c : option Counter) (s : Cell_tracks) : Cell_tracks :=
  {| params := params s; field := field s; grid_size := grid_size s;
     radar_info := radar_info s; last_grid := last_grid s;
     counter := c; record := record s;
     current_objects := current_objects s; tracks := tracks s;
     saved_record := saved_record s; saved_counter := saved_counter s;
     saved_objects := saved_objects s |}.

Definition set_current_objects (o : option Objects) (s : Cell_tracks)
  : Cell_tracks :=
  {| params := params s; field := field s; grid_size := grid_size s;
     radar_info := radar_info s; last_grid := last_grid s;
     counter := counter s; record := record s;
     current_objects := o; tracks := tracks s;
     saved_record := saved_record s; saved_counter := saved_counter s;
     saved_objects := saved_objects s |}.

Definition set_tracks (t : DataFrame) (s : Cell_tracks) : Cell_tracks :=
  {| params := params s; field := field s; grid_size := grid_size s;
     radar_info := radar_info s; last_grid := last_grid s;
     counter := counter s; record := record s;
     current_objects := current_objects s; tracks := t;
     saved_record := saved_record s; saved_counter := saved_counter s;
     saved_objects := saved_objects s |}.

Definition set_last_grid (g : option Grid) (s : Cell_tracks) : Cell_tracks :=
  {| params := params s; field := field s; grid_size := grid_size s;
     radar_info := radar_info s; last_grid := g;
     counter := counter s; record := record s;
     current_objects := current_objects s; tracks := tracks s;
     saved_record := saved_record s; saved_counter := saved_counter s;
     saved_objects := saved_objects s |}.

Definition set_grid_info (gs : option GridSize) (ri : option RadarInfo)
  (s : Cell_tracks) : Cell_tracks :=
  {| params := params s; field := field s; grid_size := gs;
     radar_info := ri; last_grid := last_grid s;
     counter := counter s; record := record s;
     current_objects := current_objects s; tracks := tracks s;
     saved_record := saved_record s; saved_counter := saved_counter s;
     saved_objects := saved_objects s |}.

(** [Cell_tracks.__save]: deep copies of record, counter, current_objects. *)
Definition save_ (s : Cell_tracks) : Cell_tracks :=
  {| params := params s; field := field s; grid_size := grid_size s;
     radar_info := radar_info s; last_grid := last_grid s;
     counter := counter s; record := record s;
     current_objects := current_objects s; tracks := tracks s;
     saved_record := record s; saved_counter := counter s;
     saved_objects := current_objects s |}.

(** [Cell_tracks.__load] *)
Definition load_ (s : Cell_tracks) : Cell_tracks :=
  {| params := params s; field := field s; grid_size := grid_size s;
     radar_info := radar_info s; last_grid := last_grid s;
     counter := saved_counter s; record := saved_record s;
     current_objects := saved_objects s; tracks := tracks s;
     saved_record := saved_record s; saved_counter := saved_counter s;
     saved_objects := saved_objects s |}.

(** *** Methods: computations over the instance *)

(** A method body: it reads and writes the instance, emits events and
    returns or raises; what it wrote before raising stays written. *)
Definition ST (A : Type) : Type :=
  Cell_tracks -> list event * Cell_tracks * result A.

Definition sret {A} (a : A) : ST A := fun s => ([], s, Ok a).

Definition sraise {A} (e : exn) : ST A := fun s => ([], s, Raise e).

Definition sbind {A B} (m : ST A) (f : A -> ST B) : ST B :=
  fun s =>
    match m s with
    | (t, s', Ok a) =>
        match f a s' with (t', s'', r) => (t ++ t', s'', r) end
    | (t, s', Raise e) => (t, s', Raise e)
    end.

Definition semit (e : event) : ST unit := fun s => ([e], s, Ok tt).

Definition self : ST Cell_tracks := fun s => ([], s, Ok s).

Definition modify (f : Cell_tracks -> Cell_tracks) : ST unit :=
  fun s => ([], f s, Ok tt).

(** Run a computation that does not touch the instance. *)
Definition pure {A} (m : M A) : ST A := fun s => (fst m, s, snd m).

(** The three components of what a method call leaves behind. *)
Definition events_of {A} (x : list event * Cell_tracks * result A)
  : list event := fst (fst x).
Definition instance_of {A} (x : list event * Cell_tracks * result A)
  : Cell_tracks := snd (fst x).
Definition outcome_of {A} (x : list event * Cell_tracks * result A)
  : result A := snd x.

Notation "x <- c ;; k" := (sbind c (fun x => k))
  (at level 61, c at next level, right associativity) : st_scope.
Notation "' pat <- c ;; k" := (sbind c (fun x => match x with pat => k end))
  (at level 61, pat pattern, c at next level, right associativity) : st_scope.
Notation "c ;; k" := (sbind c (fun _ => k))
  (at level 61, right associativity) : st_scope.
Local Open Scope st_scope.

(** Reading a local variable that may not have been assigned yet. *)
Definition read_local {A} (v : option A) : ST A :=
  match v with Some a => sret a | None => sraise UnboundLocalError end.

(** Reading an attribute of something that may be [None]. *)
Definition attr {A} (v : option A) : ST A :=
  match v with Some a => sret a | None => sraise AttributeError end.

(** [np.max(raw)] where [raw] may be [None]. *)
Definition np_max_opt (raw : option (matrix Z)) : M Z :=
  match raw with Some a => lift (np_max a) | None => raise TypeError end.

(** [frames[i]] *)
Definition index {A} (l : list A) (i : nat) : M A :=
  match nth_error l i with Some a => ret a | None => raise IndexError end.

Definition of_array (a : option (matrix Z)) : value :=
  match a with Some m => VArray m | None => VNone end.

(** The local variables of [get_tracks] that live across loop iterations. *)
Record Locals : Type := {
  grid_obj1 : option Grid;            (* unassigned before the loop *)
  grid_obj2 : option Grid;
  newRain : bool;
  raw2 : option (matrix Z);
  raw_rain2 : Rain;
  frames2 : list (matrix Z);
  cores2 : Cores;
  sclasses2 : Classes;
  frame2 : matrix Z;
  frame1 : option (matrix Z);         (* unassigned before the loop *)
  obj_merge : option Merge;           (* unassigned until a scan is matched *)
  acc_rain_list : list AccRain;
  acc_rain_uid_list : list Uid
}.

(** The products of the scan that an iteration works on (lines 207-217). *)
Record Scan1 : Type := {
  frame0 : option (matrix Z);         (* [np.nan] is [None] *)
  raw1 : option (matrix Z);
  raw_rain1 : Rain;
  frame1' : matrix Z;
  frames1 : list (matrix Z);
  cores1 : Cores;
  sclasses1 : Classes
}.

Section Call.

Variable rain : bool.
Variable save_rain : bool.

(** The function bound to the name [get_global_shift] in [tracks.py]. *)
Variable get_global_shift : PyFunction.

(** The two post-processing passes of [tint/objects.py]. *)
Variable post_tracks : Cell_tracks -> Cell_tracks.
Variable get_system_tracks : Cell_tracks -> Cell_tracks.

(** [extract_grid_data(grid, self.field, self.grid_size, self.params, rain)] *)
Definition extract (s : Cell_tracks) (grid : Grid)
  : matrix Z * Rain * list (matrix Z) * Cores * Classes :=
  extract_grid_data grid (field s) (grid_size s) (params s) rain.

(** The condition of the inner [while] on line 226. *)
Definition artificially_zero (raw1 : option (matrix Z)) (raw : matrix Z)
  : M bool :=
  (m1 <- np_max_opt raw1 ;;
   if 30 <? m1 then m <- lift (np_max raw) ;; ret (m =? 0)
   else ret false)%py.

(** Lines 226-231, entered with the grid just pulled: skip grids that are
    artificially zero.  Running out of grids is the [StopIteration] caught
    on line 232. *)
Fixpoint skip_erroneous (s : Cell_tracks) (raw1 : option (matrix Z))
  (grid_obj2 : Grid) (grids : list Grid) : M (option Grid * list Grid) :=
  (let '(raw, _, _, _, _) := extract s grid_obj2 in
   skip <- artificially_zero raw1 raw ;;
   if skip then
     match grids with
     | [] => ret (None, [])
     | g :: rest =>
         emit (EvPrint MsgSkipping) ;;
         skip_erroneous s raw1 g rest
     end
   else ret (Some grid_obj2, grids))%py.

(** The [try] block, lines 219-233. *)
Definition pull_next (s : Cell_tracks) (raw1 : option (matrix Z))
  (grids : list Grid) : M (option Grid * list Grid) :=
  match grids with
  | [] => ret (None, [])
  | g :: rest => skip_erroneous s raw1 g rest
  end.

(** Lines 207-261: shift the current scan into the "1" variables, pull the
    next one, and either update the record and check for a time gap or set
    up the final scan. *)
Definition advance (g1 : Grid) (l : Locals) (grids : list Grid)
  : ST (Scan1 * Locals * list Grid) :=
  frame0 <- (if negb (newRain l)
             then f <- read_local (frame1 l) ;; sret (Some f)
             else sret None) ;;
  let sc := {| frame0 := frame0; raw1 := raw2 l; raw_rain1 := raw_rain2 l;
               frame1' := frame2 l; frames1 := frames2 l;
               cores1 := cores2 l; sclasses1 := sclasses2 l |} in
  s <- self ;;
  ' (nxt, grids) <- pure (pull_next s (raw1 sc) grids) ;;
  match nxt with
  | Some g2 =>
      let '(raw, raw_rain, frames, cores, sclasses) := extract s g2 in
      frame2 <- pure (index frames (TRACK_INTERVAL (params s))) ;;
      r <- attr (record s) ;;
      let r := update_scan_and_time r g1 (Some g2) in
      modify (set_record (Some r)) ;;
      gap <- match interval r with
             | Some iv =>
                 if 1700 <? seconds iv then
                   semit (EvPrint (MsgTimeDiscontinuity (time r))) ;;
                   modify (set_current_objects None) ;;
                   sret true
                 else sret false
             | None => sret false
             end ;;
      sret (sc,
            {| grid_obj1 := Some g1; grid_obj2 := Some g2;
               newRain := if gap then true else newRain l;
               raw2 := Some raw; raw_rain2 := raw_rain; frames2 := frames;
               cores2 := cores; sclasses2 := sclasses; frame2 := frame2;
               frame1 := Some (frame1' sc); obj_merge := obj_merge l;
               acc_rain_list := acc_rain_list l;
               acc_rain_uid_list := acc_rain_uid_list l |},
            grids)
  | None =>
      modify save_ ;;
      modify (set_last_grid (Some g1)) ;;
      r <- attr (record s) ;;
      modify (set_record (Some (update_scan_and_time r g1 None))) ;;
      sret (sc,
            {| grid_obj1 := Some g1; grid_obj2 := None;
               newRain := newRain l;
               raw2 := None; raw_rain2 := raw_rain2 l;
               frames2 := map zeros_like (frames1 sc);
               cores2 := cores2 l; sclasses2 := sclasses2 l;
               frame2 := zeros_like (frame1' sc);
               frame1 := Some (frame1' sc); obj_merge := obj_merge l;
               acc_rain_list := acc_rain_list l;
               acc_rain_uid_list := acc_rain_uid_list l |},
            grids)
  end.

Definition with_newRain (b : bool) (l : Locals) : Locals :=
  {| grid_obj1 := grid_obj1 l; grid_obj2 := grid_obj2 l; newRain := b;
     raw2 := raw2 l; raw_rain2 := raw_rain2 l; frames2 := frames2 l;
     cores2 := cores2 l; sclasses2 := sclasses2 l; frame2 := frame2 l;
     frame1 := frame1 l; obj_merge := obj_merge l;
     acc_rain_list := acc_rain_list l;
     acc_rain_uid_list := acc_rain_uid_list l |}.

(** Lines 263-302: the empty-frame skip, then flow estimation, matching,
    the registry update and the new rows. *)
Definition process (g1 : Grid) (sc : Scan1) (l : Locals) : ST Locals :=
  top <- pure (lift (np_max (frame1' sc))) ;;
  if top =? 0 then
    s <- self ;;
    r <- attr (record s) ;;
    semit (EvPrint (MsgNoObjects (scan r))) ;;
    modify (set_current_objects None) ;;
    sret (with_newRain true l)                                (* continue *)
  else
    s <- self ;;
    semit (EvCall CGlobalShift) ;;
    global_shift <- pure (py_call get_global_shift
                            [of_array (raw1 sc); of_array (raw2 l);
                             VParams (params s)]) ;;
    r <- attr (record s) ;;
    semit (EvCall CGetPairs) ;;
    let '(pairs, obj_merge_new, u_shift, v_shift) :=
      get_pairs (frame1' sc) (frame2 l) (raw1 sc) (raw2 l) global_shift
                (current_objects s) r (params s) in
    ' (newRain, acc_rain_list, acc_rain_uid_list) <-
      (if newRain l then
         iv <- attr (interval r) ;;
         semit (EvCall CInitObjects) ;;
         let '(objs, cnt) :=
           init_current_objects (raw1 sc) (raw2 l) (raw_rain1 sc) (raw_rain2 l)
             (frame1' sc) (frame2 l) (frames1 sc) (frames2 l) pairs
             (counter s) (total_seconds iv) rain in
         modify (set_current_objects (Some objs)) ;;
         modify (set_counter (Some cnt)) ;;
         sret (false, acc_rain_list l, acc_rain_uid_list l)
       else
         merge <- read_local (obj_merge l) ;;
         iv <- attr (interval r) ;;
         semit (EvCall CUpdateObjects) ;;
         let '(objs, cnt, acc, acc_uid) :=
           update_current_objects (raw1 sc) (raw2 l) (raw_rain1 sc)
             (raw_rain2 l) (frame0 sc) (frame1' sc) (frame2 l)
             (frames1 sc) (frames2 l) (acc_rain_list l) (acc_rain_uid_list l)
             pairs (current_objects s) (counter s) merge
             (total_seconds iv) rain save_rain in
         modify (set_current_objects (Some objs)) ;;
         modify (set_counter (Some cnt)) ;;
         sret (newRain l, acc, acc_uid)) ;;
    s <- self ;;
    semit (EvCall CObjectProp) ;;
    let obj_props :=
      get_object_prop (frames1 sc) (cores1 sc) g1 u_shift v_shift
        (sclasses1 sc) (field s) r (params s) (current_objects s) in
    let r := add_uids r (current_objects s) in
    modify (set_record (Some r)) ;;
    semit (EvCall CWriteTracks) ;;
    modify (set_tracks (write_tracks (tracks s) r (current_objects s) obj_props)) ;;
    sret {| grid_obj1 := grid_obj1 l; grid_obj2 := grid_obj2 l;
            newRain := newRain;
            raw2 := raw2 l; raw_rain2 := raw_rain2 l; frames2 := frames2 l;
            cores2 := cores2 l; sclasses2 := sclasses2 l; frame2 := frame2 l;
            frame1 := frame1 l; obj_merge := Some obj_merge_new;
            acc_rain_list := acc_rain_list;
            acc_rain_uid_list := acc_rain_uid_list |}.


(** Lines 184-204: initialise a new tracks object or resume an old one.
    A collaborator handed [None] in place of a grid fails on its first
    attribute access. *)
Definition start (grids : list Grid) : ST (Locals * list Grid) :=
  s <- self ;;
  ' (grid_obj2, grids) <-
    match record s with
    | None =>
        match grids with
        | [] => sraise StopIteration                    (* next(grids) *)
        | g :: rest =>
            modify (set_grid_info (Some (get_grid_size g))
                                  (Some (get_radar_info g))) ;;
            modify (set_counter (Some new_Counter)) ;;
            modify (set_record (Some (Record_new g))) ;;
            sret (Some g, rest)
        end
    | Some r =>
        (* self.tracks.drop(self.record.scan + 1): the frame that [drop]
           returns is not bound to anything *)
        _ <- pure (lift (DataFrame_drop (scan r + 1) (tracks s))) ;;
        sret (last_grid s, grids)
    end ;;
  s <- self ;;
  let newRain := match current_objects s with
                 | None => true
                 | Some _ => false
                 end in
  g <- attr grid_obj2 ;;
  let '(raw2, raw_rain2, frames2, cores2, sclasses2) := extract s g in
  frame2 <- pure (index frames2 (TRACK_INTERVAL (params s))) ;;
  sret ({| grid_obj1 := None; grid_obj2 := grid_obj2; newRain := newRain;
           raw2 := Some raw2; raw_rain2 := raw_rain2; frames2 := frames2;
           cores2 := cores2; sclasses2 := sclasses2; frame2 := frame2;
           frame1 := None; obj_merge := None;
           acc_rain_list := []; acc_rain_uid_list := [] |},
        grids).

(** Lines 206-303: [while grid_obj2 is not None].  Every iteration but the
    last pulls at least one grid, so [fuel] bounds the number of
    iterations. *)
Fixpoint scan_loop (fuel : nat) (l : Locals) (grids : list Grid)
  : ST Locals :=
  match grid_obj2 l with
  | None => sret l
  | Some g1 =>
      match fuel with
      | O => sraise OutOfFuel
      | S fuel =>
          ' (sc, l, grids) <- advance g1 l grids ;;
          l <- process g1 sc l ;;
          scan_loop fuel l grids
      end
  end.

(** Lines 305-334: the accumulated-rain file, the post-processing passes
    and [__load]. *)
Definition finish (l : Locals) : ST unit :=
  (if save_rain then
     match acc_rain_list l with
     | [] => sraise ValueError                          (* np.stack([]) *)
     | _ :: _ => sret tt
     end ;;
     _ <- read_local (grid_obj1 l) ;;
     semit (EvCall CToNetcdf)
   else sret tt) ;;
  _ <- read_local (grid_obj1 l) ;;                      (* del grid_obj1 *)
  semit (EvCall CPostTracks) ;;
  modify post_tracks ;;
  semit (EvCall CSystemTracks) ;;
  modify get_system_tracks ;;
  modify load_ ;;
  semit (EvPrint MsgTimeElapsed).

(** The part of a call in which rows are appended: up to the end of the
    main loop. *)
Definition scan_phase (grids : list Grid) : ST Locals :=
  ' (l, grids) <- start grids ;;
  scan_loop (S (length grids)) l grids.

(** [Cell_tracks.get_tracks(grids, rain, save_rain)], with the callee of
    line 271 left open. *)
Definition get_tracks_calling (grids : list Grid) : ST unit :=
  l <- scan_phase grids ;;
  finish l.

End Call.

(** [Cell_tracks.get_tracks]: the name [get_global_shift] is bound by
    [from .phase_correlation import get_global_shift]. *)
Definition get_tracks
  (cross_power_surface : matrix Z -> matrix Z -> matrix Q)
  (gaussian_filter : matrix Q -> Q -> matrix Q) {D : Debugger}
  (post_tracks get_system_tracks : Cell_tracks -> Cell_tracks)
  (grids : list Grid) (rain save_rain : bool) : ST unit :=
  get_tracks_calling rain save_rain
    (get_global_shift_fn cross_power_surface gaussian_filter)
    post_tracks get_system_tracks grids.

(** *** Vocabulary for statements about a call *)

Section Observations.

Variable rain : bool.

(** What stays fixed during a call: [self.field], [self.grid_size] and
    [self.params]. *)
Definition Session : Type := (String.string * option GridSize * Params)%type.

Definition cfg (s : Cell_tracks) : Session := (field s, grid_size s, params s).

(** An instance on which [get_tracks] has not been called yet. *)
Definition uninitialized (s : Cell_tracks) : Prop :=
  record s = None /\ current_objects s = None /\ tracks s = [].

(** The session of a first call: the mesh size comes from the first grid. *)
Definition first_session (s : Cell_tracks) (grids : list Grid) : Session :=
  (field s, option_map get_grid_size (hd_error grids), params s).

Definition session_extract (c : Session) (grid : Grid)
  : matrix Z * Rain * list (matrix Z) * Cores * Classes :=
  extract_grid_data grid (fst (fst c)) (snd (fst c)) (snd c) rain.

Definition raw_of (x : matrix Z * Rain * list (matrix Z) * Cores * Classes)
  : matrix Z := let '(raw, _, _, _, _) := x in raw.

Definition frames_of (x : matrix Z * Rain * list (matrix Z) * Cores * Classes)
  : list (matrix Z) := let '(_, _, frames, _, _) := x in frames.

(** The detection frame of a scan: [frames[TRACK_INTERVAL]]. *)
Definition scan_frame (c : Session) (grid : Grid) : option (matrix Z) :=
  nth_error (frames_of (session_extract c grid)) (TRACK_INTERVAL (snd c)).

(** The scan index held by the record. *)
Definition scan_of (s : Cell_tracks) : option Z := option_map scan (record s).

(** The decision of line 226, for arrays on which [np.max] is defined. *)
Definition skipped (raw1 : option (matrix Z)) (raw : matrix Z) : bool :=
  match outcome (artificially_zero raw1 raw) with
  | Ok b => b
  | Raise _ => false
  end.

(** The grids that become the current scan of an iteration, in order: the
    ones that the anomalous-zero skip does not discard. *)
Fixpoint processed_from (c : Session) (raw1 : option (matrix Z))
  (grids : list Grid) : list Grid :=
  match grids with
  | [] => []
  | g :: rest =>
      if skipped raw1 (raw_of (session_extract c g))
      then processed_from c raw1 rest
      else g :: processed_from c (Some (raw_of (session_extract c g))) rest
  end.

Definition processed (c : Session) (grids : list Grid) : list Grid :=
  match grids with
  | [] => []
  | g :: rest => g :: processed_from c (Some (raw_of (session_extract c g))) rest
  end.

(** The scan has a detection frame with a nonzero cell. *)
Definition has_objects (c : Session) (grid : Grid) : Prop :=
  exists f, scan_frame c grid = Some f /\ ~ all_zero f.

(** A well-formed scan: its raw field and its detection frame have at least
    one sample, and the frame holds labels (no negative sample). *)
Definition wf_scan (c : Session) (grid : Grid) : Prop :=
  concat (raw_of (session_extract c grid)) <> [] /\
  exists f, scan_frame c grid = Some f /\ concat f <> [] /\
            Forall (Forall (fun x => 0 <= x)) f.

(** What a call works with: its session, the scans it processes in order
    (a first call starts from the first grid, a later call from
    [last_grid]), and the index of the first of them. *)
Definition call_session (s : Cell_tracks) (grids : list Grid) : Session :=
  match record s with
  | None => first_session s grids
  | Some _ => cfg s
  end.

Definition call_scans (s : Cell_tracks) (grids : list Grid) : list Grid :=
  match record s with
  | None => processed (first_session s grids) grids
  | Some _ =>
      match last_grid s with
      | Some g =>
          g :: processed_from (cfg s)
                 (Some (raw_of (session_extract (cfg s) g))) grids
      | None => []
      end
  end.

Definition call_base (s : Cell_tracks) : Z :=
  match record s with
  | None => 0
  | Some r => scan r + 1
  end.

(** Every row of [table] was in [old] already, or belongs to a processed
    scan that has objects: its scan index, counted from [base], is the
    position of such a scan in [scans]. *)
Definition rows_have_objects (c : Session) (base : Z) (scans : list Grid)
  (old table : DataFrame) : Prop :=
  forall row, In row table ->
    In row old \/
    (base <= row_scan row /\
     exists g, nth_error scans (Z.to_nat (row_scan row - base)) = Some g /\
               has_objects c g).

(** The events of an iteration whose registry step is
    [init_current_objects]: after the flow-estimation call and whatever the
    callee emits, matching, a fresh registry, the properties and the rows. *)
Definition mints_fresh_objects (t : list event) : Prop :=
  exists callee_events,
    t = EvCall CGlobalShift :: callee_events ++
        [EvCall CGetPairs; EvCall CInitObjects;
         EvCall CObjectProp; EvCall CWriteTracks].

End Observations.

End Orchestrator.

End Tracks.
Import Tracks.

(* ================================================================== *)
(** ** tint/visualization.py: [Tracer]                                 *)
(* ================================================================== *)

Module Visualization.

(** The colour names of [Tracer.colors]. *)
Inductive color : Type :=
| m_        (* 'm' *)
| r_        (* 'r' *)
| lime
| darkorange
| k_        (* 'k' *)
| b_        (* 'b' *)
| darkgreen
| yellow.

(** The list literal in the class body, before [colors.reverse()]. *)
Definition colors_literal : list color :=
  [m_; r_; lime; darkorange; k_; b_; darkgreen; yellow].

(** [Tracer.colors], the class attribute once the class body has run. *)
Definition colors : list color := rev colors_literal.

(** [l * n] on Python lists. *)
Fixpoint times {A} (l : list A) (n : nat) : list A :=
  match n with
  | O => []
  | S n => l ++ times l n
  end.

(** [l.pop()]: the last item and the list without it. *)
Definition pop {A} (l : list A) : result (A * list A) :=
  match rev l with
  | [] => Raise IndexError
  | x :: r => Ok (x, rev r)
  end.

(** The stack continues the colour cycle at position [j]: popping it yields
    [colors_literal[j]], [colors_literal[j+1]], ... up to the end of a round,
    then whole rounds. *)
Definition in_cycle (j : nat) (stack : list color) : Prop :=
  (j < 8)%nat /\
  exists rounds, rev stack = skipn j (times colors_literal rounds) /\
                 (j <> 0%nat -> (1 <= rounds)%nat).

(** Labels of a pandas index: values that can be compared. *)
Class Label (A : Type) : Type :=
  label_eq_dec : forall a b : A, {a = b} + {a <> b}.

Section Tracer.

Context {Uid : Type} {Uid_label : Label Uid}.

(** The index of [tobj.tracks] as the tracer reads it: the scan and the uid
    of every row. *)
Definition TrackIndex : Type := list (Z * Uid).

(** The keys of [history.groupby(level='uid')], in the order in which pandas
    yields the groups. *)
Variable groupby_uid : TrackIndex -> list Uid.

(** A [pd.Series] of colours keyed by uid, in insertion order. *)
Definition Series : Type := list (Uid * color).

Definition keys (c : Series) : list Uid := map fst c.

Definition mem (uid : Uid) (l : list Uid) : bool :=
  if in_dec label_eq_dec uid l then true else false.

(** [series[uid]] *)
Definition Series_get (uid : Uid) (c : Series) : result color :=
  match find (fun kv => if label_eq_dec uid (fst kv) then true else false) c with
  | Some kv => Ok (snd kv)
  | None => Raise KeyError
  end.

(** [series[uid] = v]: overwrite, or enlarge the series at its end. *)
Definition Series_set (uid : Uid) (v : color) (c : Series) : Series :=
  if mem uid (keys c)
  then map (fun kv => if label_eq_dec uid (fst kv) then (fst kv, v) else kv) c
  else c ++ [(uid, v)].

(** [series[labels]] for a list of labels: the values, label by label. *)
Definition Series_take (labels : list Uid) (c : Series) : list color :=
  flat_map (fun k => map snd
              (filter (fun kv => if label_eq_dec k (fst kv) then true else false) c))
           labels.

(** [series.drop(labels, inplace=True)] *)
Definition Series_drop (labels : list Uid) (c : Series) : Series :=
  filter (fun kv => negb (mem (fst kv) labels)) c.

Record Tracer : Type := {
  tobj_tracks : TrackIndex;            (* self.tobj.tracks *)
  persist : bool;
  color_stack : list color;
  cell_color : Series;
  history : option TrackIndex;
  current : option (list Uid)          (* the uids of the rows of self.current *)
}.

(** [Tracer.__init__] *)
Definition Tracer_init (tobj_tracks : TrackIndex) (persist : bool) : Tracer :=
  {| tobj_tracks := tobj_tracks;
     persist := persist;
     color_stack := times colors 10;
     cell_color := [];
     history := None;
     current := None |}.

Definition set_colors (stack : list color) (c : Series) (t : Tracer) : Tracer :=
  {| tobj_tracks := tobj_tracks t; persist := persist t;
     color_stack := stack; cell_color := c;
     history := history t; current := current t |}.

Definition set_history (h : option TrackIndex) (t : Tracer) : Tracer :=
  {| tobj_tracks := tobj_tracks t; persist := persist t;
     color_stack := color_stack t; cell_color := cell_color t;
     history := h; current := current t |}.

Definition set_current (cur : option (list Uid)) (t : Tracer) : Tracer :=
  {| tobj_tracks := tobj_tracks t; persist := persist t;
     color_stack := color_stack t; cell_color := cell_color t;
     history := history t; current := cur |}.

(** [tracks.loc[:nframe]] on the scan level of a sorted index. *)
Definition loc_upto (nframe : Z) (tracks : TrackIndex) : TrackIndex :=
  filter (fun row => fst row <=? nframe) tracks.

(** [tracks.loc[nframe]]: the rows of that scan, here their uids;
    [KeyError] when the scan has no row. *)
Definition loc (nframe : Z) (tracks : TrackIndex) : result (list Uid) :=
  match filter (fun row => fst row =? nframe) tracks with
  | [] => Raise KeyError
  | rows => Ok (map snd rows)
  end.

(** [Tracer.update] *)
Definition update (nframe : Z) (t : Tracer) : Tracer * result unit :=
  let t := set_history (Some (loc_upto nframe (tobj_tracks t))) t in
  match loc nframe (tobj_tracks t) with
  | Raise e => (t, Raise e)
  | Ok cur =>
      let t := set_current (Some cur) t in
      if negb (persist t) then
        let dead_cells :=
          filter (fun key => negb (mem key cur)) (keys (cell_color t)) in
        let stack := color_stack t ++ Series_take dead_cells (cell_color t) in
        (set_colors stack (Series_drop dead_cells (cell_color t)) t, Ok tt)
      else (t, Ok tt)
  end.

(** [Tracer._check_uid] *)
Definition _check_uid (uid : Uid) (t : Tracer) : Tracer * result unit :=
  if negb (mem uid (keys (cell_color t))) then
    match pop (color_stack t) with
    | Ok (c, stack) =>
        (set_colors stack (Series_set uid c (cell_color t)) t, Ok tt)
    | Raise IndexError =>
        let stack := color_stack t ++ times colors 5 in
        match pop stack with
        | Ok (c, stack) =>
            (set_colors stack (Series_set uid c (cell_color t)) t, Ok tt)
        | Raise e => (set_colors stack (cell_color t) t, Raise e)
        end
    | Raise e => (t, Raise e)
    end
  else (t, Ok tt).

(** The body of the loop of [Tracer.plot] for one group: the line that
    [ax.plot] draws, if any, with its colour. *)
Definition plot_group (uid : Uid) (t : Tracer)
  : Tracer * result (list (Uid * color)) :=
  match _check_uid uid t with
  | (t, Raise e) => (t, Raise e)
  | (t, Ok _) =>
      let shown :=
        if persist t then Ok true
        else match current t with
             | Some cur => Ok (mem uid cur)
             | None => Raise AttributeError
             end in
      match shown with
      | Raise e => (t, Raise e)
      | Ok false => (t, Ok [])
      | Ok true =>
          match Series_get uid (cell_color t) with
          | Ok c => (t, Ok [(uid, c)])
          | Raise e => (t, Raise e)
          end
      end
  end.

Fixpoint plot_groups (groups : list Uid) (t : Tracer)
  : Tracer * result (list (Uid * color)) :=
  match groups with
  | [] => (t, Ok [])
  | uid :: rest =>
      match plot_group uid t with
      | (t, Raise e) => (t, Raise e)
      | (t, Ok line) =>
          match plot_groups rest t with
          | (t, Ok lines) => (t, Ok (line ++ lines))
          | (t, Raise e) => (t, Raise e)
          end
      end
  end.

(** [Tracer.plot]: the lines drawn, each with its colour. *)
Definition plot (t : Tracer) : Tracer * result (list (Uid * color)) :=
  match history t with
  | None => (t, Raise AttributeError)
  | Some h => plot_groups (groupby_uid h) t
  end.

End Tracer.

Arguments TrackIndex : clear implicits.
Arguments Series : clear implicits.

End Visualization.

(* ================================================================== *)
(** ** A small concrete world, used to run the definitions             *)
(* ================================================================== *)

Module Scenario.

Import String.

(** A grid is its timestamp (microseconds), its raw field and its detection
    frame. *)
Record grid : Type := { g_time : Z; g_raw : matrix Z; g_frame : matrix Z }.

#[export] Instance world : Externals := {|
  Grid := grid;
  RadarInfo := unit;
  Counter := nat;
  Objects := list nat;
  Uid := nat;
  Rain := unit;
  Cores := unit;
  Classes := unit;
  Pairs := unit;
  Merge := unit;
  Flow := unit;
  Props := nat;
  AccRain := unit;
  get_grid_size := fun _ => {| gs_z := 500; gs_y := 2500; gs_x := 2500 |};
  get_radar_info := fun _ => tt;
  parse_grid_datetime := g_time;
  new_Counter := 0%nat;
  extract_grid_data := fun g _ _ _ _ => (g_raw g, tt, [g_frame g], tt, tt);
  get_pairs := fun _ _ _ _ _ _ _ _ => (tt, tt, tt, tt);
  init_current_objects := fun _ _ _ _ _ _ _ _ _ c _ _ =>
    let n := match c with Some n => n | None => 0%nat end in ([n], S n);
  update_current_objects := fun _ _ _ _ _ _ _ _ _ acc acc_uid _ o c _ _ _ _ =>
    (match o with Some l => l | None => [] end,
     match c with Some n => n | None => 0%nat end, acc, acc_uid);
  get_object_prop := fun _ _ _ _ _ _ _ _ _ o =>
    match o with Some l => l | None => [] end;
  objects_uid := fun o => match o with Some l => l | None => [] end;
  props_uid := fun p => p
|}.

(** Shape-preserving stand-ins for the FFT surface and the Gaussian filter. *)
Definition surface (im1 im2 : matrix Z) : matrix Q := map (map inject_Z) im2.
Definition smooth (m : matrix Q) (sigma : Q) : matrix Q := m.

(** The runs of this world are continued at the debugger's prompt. *)
#[export] Instance continued : Debugger := PdbContinue.

Definition minute : Z := 60000000.

Definition blob : matrix Z := [[0; 50]; [50; 50]].
Definition clear : matrix Z := [[0; 0]; [0; 0]].

Definition scan_at (t : Z) (raw frame : matrix Z) : grid :=
  {| g_time := t; g_raw := raw; g_frame := frame |}.

Definition cell : matrix Z := [[0; 1]; [1; 1]].

(** Three scans with one object, ten minutes apart, and an empty one. *)
Definition S1 : grid := scan_at 0 blob cell.
Definition S2 : grid := scan_at (10 * minute) blob cell.
Definition S3 : grid := scan_at (20 * minute) blob cell.
Definition S_empty : grid := scan_at (20 * minute) [[0; 5]; [0; 0]] clear.

(** Two scans without any object, ten minutes apart. *)
Definition S_quiet1 : grid := scan_at 0 [[0; 5]; [0; 0]] clear.
Definition S_quiet2 : grid := scan_at (10 * minute) [[0; 5]; [0; 0]] clear.

(** Scans that follow [S2] after exactly one day, and after 1701 seconds. *)
Definition S_next_day : grid := scan_at (10 * minute + 86400000000) blob cell.
Definition S_late : grid := scan_at (10 * minute + 1701000000) blob cell.

(** An object in the middle of a 10 x 10 field on the CPOL grid
    (2500 m mesh, so the 20000 m margin is 8 cells). *)
Definition ext55 : ObjExtent :=
  {| obj_center := (5%Q, 5%Q); obj_radius := 2%Q |}.
Definition cpol : GridSize := {| gs_z := 500; gs_y := 2500; gs_x := 2500 |}.

(** A 3 x 3 surface whose samples are all different, and a 3 x 3 field. *)
Definition surface33 : matrix Q :=
  [[1%Q; 2%Q; 3%Q]; [4%Q; 5%Q; 6%Q]; [7%Q; 8%Q; 9%Q]].
Definition field33 : matrix Z := [[0; 1; 0]; [1; 1; 0]; [0; 0; 0]].
Definition zero33 : matrix Z := [[0; 0; 0]; [0; 0; 0]; [0; 0; 0]].

Definition reflectivity : String.string := "reflectivity"%string.

Definition fresh : Cell_tracks := Cell_tracks_init reflectivity.

Definition run (grids : list grid) (s : Cell_tracks) :=
  get_tracks surface smooth (fun s => s) (fun s => s) grids true true s.

(** The same call with [save_rain=False]. *)
Definition run_quiet (grids : list grid) (s : Cell_tracks) :=
  get_tracks surface smooth (fun s => s) (fun s => s) grids true false s.

(** An instance in the middle of a call: the object with uid 0 was found in
    [S1] and [S2] is the current scan. *)
Definition tracking : Cell_tracks :=
  {| params := default_params;
     field := reflectivity;
     grid_size := Some cpol;
     radar_info := Some tt;
     last_grid := None;
     counter := Some 1%nat;
     record := Some {| scan := 0; time := Some 0;
                       interval := Some (timedelta_of_us (10 * minute));
                       uid := [0%nat] |};
     current_objects := Some [0%nat];
     tracks := [{| row_scan := 0; row_time := Some 0;
                   row_uid := 0%nat; row_props := 0%nat |}];
     saved_record := None;
     saved_counter := None;
     saved_objects := None |}.

Definition tracking_locals : Locals :=
  {| grid_obj1 := Some S1; grid_obj2 := Some S2; newRain := false;
     raw2 := Some blob; raw_rain2 := tt; frames2 := [cell];
     cores2 := tt; sclasses2 := tt; frame2 := cell;
     frame1 := Some cell; obj_merge := Some tt;
     acc_rain_list := []; acc_rain_uid_list := [] |}.

(** An instance that holds the tracks of [S1] and [S2]: what a completed
    call on these two scans leaves, the row of scan 1 being the one written
    for the final scan. *)
Definition holding_tracks : Cell_tracks :=
  {| params := default_params;
     field := reflectivity;
     grid_size := Some cpol;
     radar_info := Some tt;
     last_grid := Some S2;
     counter := Some 1%nat;
     record := Some {| scan := 0; time := Some 0;
                       interval := Some (timedelta_of_us (10 * minute));
                       uid := [0%nat] |};
     current_objects := Some [0%nat];
     tracks := [{| row_scan := 0; row_time := Some 0;
                   row_uid := 0%nat; row_props := 0%nat |};
                {| row_scan := 1; row_time := Some (10 * minute);
                   row_uid := 0%nat; row_props := 0%nat |}];
     saved_record := Some {| scan := 0; time := Some 0;
                             interval := Some (timedelta_of_us (10 * minute));
                             uid := [0%nat] |};
     saved_counter := Some 1%nat;
     saved_objects := Some [0%nat] |}.

(** A callee that accepts the three arguments of line 271. *)
Definition three_args : PyFunction :=
  {| fn_arity := 3; fn_body := fun _ => ret (VShift (0, 0)) |}.

Definition run3 (save_rain : bool) (grids : list grid) (s : Cell_tracks) :=
  get_tracks_calling true save_rain three_args (fun s => s) (fun s => s) grids s.

End Scenario.

Import Scenario.

(** More concrete inputs: grids without any echo, an instance to resume,
    and a table for the tracer. *)
Module Cases.

Import Visualization.

(** An object in the middle of a 3 x 3 field. *)
Definition ext_mid : ObjExtent :=
  {| obj_center := (1%Q, 1%Q); obj_radius := 1%Q |}.

(** Two scans whose raw field is entirely zero. *)
Definition S_zero1 : grid := scan_at (10 * minute) clear clear.
Definition S_zero2 : grid := scan_at (20 * minute) clear clear.

(** A scan with echoes and no object, and the next scan, whose detection
    frame holds an object while its raw field is entirely zero. *)
Definition S_echo : grid := scan_at 0 blob clear.
Definition S_blank : grid := scan_at (10 * minute) clear cell.

(** A constant 2 x 2 field, and one echo in a corner of a 2 x 2 field. *)
Definition flat50 : matrix Z := [[50; 50]; [50; 50]].
Definition corner50 : matrix Z := [[50; 0]; [0; 0]].

(** A session that is quit at the debugger's prompt. *)
Definition quit : Debugger := PdbQuit.

(** An object centred twenty rows above the first row of the field. *)
Definition ext_above : ObjExtent :=
  {| obj_center := (-20 # 1, 1%Q); obj_radius := 0%Q |}.

(** The instance after a completed call on one scan without objects. *)
Definition after_quiet : Cell_tracks :=
  instance_of (run_quiet [S_quiet1] fresh).

(** uids written as numbers. *)
#[export] Instance nat_label : Label nat := Nat.eq_dec.

(** Scan and uid of the rows of a table: cells 1 and 2 in scan 0, cells 2
    and 3 in scan 1. *)
Definition cells : TrackIndex nat :=
  [(0, 1%nat); (0, 2%nat); (1, 2%nat); (1, 3%nat)].

(** Group keys in order of first appearance; the uids of [cells] first
    appear in increasing order. *)
Definition group_keys (h : TrackIndex nat) : list nat :=
  nodup Nat.eq_dec (map snd h).

(** A tracer that has plotted scan 0 of [cells]. *)
Definition plotted0 : Tracer :=
  fst (plot group_keys (fst (update 0 (Tracer_init cells false)))).

End Cases.

Import Cases.

(* ================================================================== *)
(** * Properties                                                       *)
(* ================================================================== *)

(** ** Facts about arrays *)

Module NpFacts.

Lemma fold_max_ge_init (xs : list Z) (x : Z) : x <= fold_left Z.max xs x.
Proof.
  revert x; induction xs as [|y ys IH]; intro x; simpl; [lia|].
  specialize (IH (Z.max x y)); lia.
Qed.

Lemma fold_max_ge_elem (xs : list Z) (x y : Z) :
  In y xs -> y <= fold_left Z.max xs x.
Proof.
  revert x; induction xs as [|z zs IH]; intros x Hin; simpl in *; [easy|].
  destruct Hin as [->|Hin].
  - pose proof (fold_max_ge_init zs (Z.max x y)); lia.
  - now apply IH.
Qed.

Lemma fold_max_in (xs : list Z) (x : Z) : In (fold_left Z.max xs x) (x :: xs).
Proof.
  revert x; induction xs as [|y ys IH]; intro x; simpl; [now left|].
  destruct (IH (Z.max x y)) as [H|H].
  - destruct (Z.max_spec x y) as [[_ E]|[_ E]]; rewrite E in *.
    + right; now left.
    + now left.
  - right; now right.
Qed.

Lemma np_max_ok (m : matrix Z) :
  concat m <> [] -> exists v, np_max m = Ok v /\ In v (concat m) /\
                              Forall (fun x => x <= v) (concat m).
Proof.
  unfold np_max; intro H.
  destruct (concat m) as [|x xs]; [easy|].
  eexists; split; [reflexivity|split].
  - apply fold_max_in.
  - apply Forall_forall; intros y [<-|Hy].
    + apply fold_max_ge_init.
    + now apply fold_max_ge_elem.
Qed.

Lemma np_max_inv (m : matrix Z) (v : Z) :
  np_max m = Ok v ->
  concat m <> [] /\ In v (concat m) /\ Forall (fun x => x <= v) (concat m).
Proof.
  intro H.
  assert (Hne : concat m <> []).
  { unfold np_max in H; destruct (concat m); [discriminate|easy]. }
  destruct (np_max_ok m Hne) as (w & Hw & Hin & Hall).
  rewrite H in Hw; injection Hw as <-; auto.
Qed.

Lemma all_zero_concat (m : matrix Z) :
  all_zero m <-> Forall (fun x => x = 0) (concat m).
Proof. unfold all_zero; symmetry; apply Forall_concat. Qed.

(** On an array with at least one sample, all of them zero, the maximum
    is zero. *)
Lemma np_max_all_zero (m : matrix Z) :
  concat m <> [] -> all_zero m -> np_max m = Ok 0.
Proof.
  intros Hne Hz.
  destruct (np_max_ok m Hne) as (v & Hv & Hin & _).
  apply all_zero_concat in Hz.
  rewrite Forall_forall in Hz.
  now rewrite Hv, (Hz v Hin).
Qed.

(** A maximum that differs from zero witnesses a nonzero sample. *)
Lemma np_max_nonzero (m : matrix Z) (v : Z) :
  np_max m = Ok v -> v <> 0 -> ~ all_zero m.
Proof.
  intros Hv Hnz Hz.
  destruct (np_max_inv m v Hv) as (Hne & _ & _).
  rewrite (np_max_all_zero m Hne Hz) in Hv.
  injection Hv as <-; easy.
Qed.

(** For samples that are never negative, a zero maximum means that every
    sample is zero. *)
Lemma np_max_zero_nonneg (m : matrix Z) :
  Forall (Forall (fun x => 0 <= x)) m -> np_max m = Ok 0 -> all_zero m.
Proof.
  intros Hpos H0.
  destruct (np_max_inv m 0 H0) as (_ & _ & Hle).
  apply all_zero_concat.
  apply Forall_concat in Hpos.
  rewrite Forall_forall in *.
  intros x Hx; specialize (Hpos x Hx); specialize (Hle x Hx); lia.
Qed.

End NpFacts.

(** ** The quadrant swap *)

Module QuadrantSwap.

Lemma concatenate_axis1_map {A B} (f g : B -> list A) (l : list B) :
  concatenate_axis1 (map f l) (map g l) = map (fun r => f r ++ g r) l.
Proof.
  unfold concatenate_axis1.
  induction l as [|x xs IH]; simpl; [reflexivity|].
  now rewrite IH.
Qed.

(** [fft_shift] rotates the rows by [rd] and every row by [cd]. *)
Lemma fft_shift_rot {A} (m : matrix A) (rd cd : nat) :
  fft_shift m rd cd = map (rot cd) (rot rd m).
Proof.
  unfold fft_shift, concatenate_axis0, rot.
  rewrite <- !map_app.
  apply concatenate_axis1_map.
Qed.

Lemma rot_length {A} (k : nat) (l : list A) : length (rot k l) = length l.
Proof.
  unfold rot; rewrite length_app, length_skipn, length_firstn; lia.
Qed.

Lemma rot_Forall {A} (P : A -> Prop) (k : nat) (l : list A) :
  Forall P l -> Forall P (rot k l).
Proof.
  intro H; unfold rot.
  rewrite <- (firstn_skipn k l) in H.
  apply Forall_app in H as [H1 H2].
  apply Forall_app; auto.
Qed.

(** The head of the list lands at index [length l - k]. *)
Lemma rot_head {A} (k : nat) (l : list A) :
  (0 < k <= length l)%nat ->
  nth_error (rot k l) (length l - k) = nth_error l 0.
Proof.
  intros [Hk Hle]; unfold rot.
  rewrite nth_error_app2 by (rewrite length_skipn; lia).
  rewrite length_skipn, Nat.sub_diag.
  destruct k; [lia|]; now destruct l.
Qed.

Lemma fft_shift_rect {A} (R C rd cd : nat) (m : matrix A) :
  rect R C m -> rect R C (fft_shift m rd cd).
Proof.
  intros [HR HC]; rewrite fft_shift_rot; split.
  - now rewrite length_map, rot_length.
  - apply Forall_map, rot_Forall.
    eapply Forall_impl; [|exact HC].
    intros r Hr; cbn beta; now rewrite rot_length.
Qed.

Lemma fft_shift_origin {A} (R C rd cd : nat) (m : matrix A) :
  rect R C m -> (0 < rd <= R)%nat -> (0 < cd <= C)%nat ->
  at2 (fft_shift m rd cd) (R - rd) (C - cd) = at2 m 0 0.
Proof.
  intros [HR HC] Hrd Hcd; rewrite fft_shift_rot; unfold at2.
  rewrite nth_error_map.
  rewrite <- HR, rot_head by lia.
  destruct m as [|row rows]; [reflexivity|]; simpl.
  apply Forall_inv in HC.
  rewrite <- HC; apply rot_head; lia.
Qed.

Lemma ceil_half_bounds (n : nat) :
  (0 < n)%nat -> (0 < ceil_half n <= n)%nat.
Proof.
  intro H; unfold ceil_half.
  pose proof (Nat.div_mod_eq (n + 1) 2) as E.
  pose proof (Nat.mod_upper_bound (n + 1) 2 ltac:(lia)).
  lia.
Qed.

(** [ceil(n/2)] and [n - ceil(n/2)] agree exactly on even [n]. *)
Lemma ceil_half_floor (n : nat) :
  (n - ceil_half n)%nat = Nat.div n 2.
Proof.
  unfold ceil_half.
  pose proof (Nat.div_mod_eq (n + 1) 2).
  pose proof (Nat.mod_upper_bound (n + 1) 2 ltac:(lia)).
  pose proof (Nat.div_mod_eq n 2).
  pose proof (Nat.mod_upper_bound n 2 ltac:(lia)).
  lia.
Qed.

End QuadrantSwap.

(** ** Slices and truncation *)

Module SliceFacts.

Lemma Forall_skipn {A} (P : A -> Prop) (k : nat) (l : list A) :
  Forall P l -> Forall P (skipn k l).
Proof.
  intro H; rewrite <- (firstn_skipn k l) in H.
  now apply Forall_app in H.
Qed.

Lemma Forall_firstn {A} (P : A -> Prop) (k : nat) (l : list A) :
  Forall P l -> Forall P (firstn k l).
Proof.
  intro H; rewrite <- (firstn_skipn k l) in H.
  now apply Forall_app in H.
Qed.

Lemma py_slice_Forall {A} (P : A -> Prop) (a b : Z) (l : list A) :
  Forall P l -> Forall P (py_slice a b l).
Proof. intro H; unfold py_slice; now apply Forall_firstn, Forall_skipn. Qed.

Lemma slice_bound_le (n : nat) (x : Z) : (slice_bound n x <= n)%nat.
Proof. unfold slice_bound; destruct (x <? 0) eqn:E; lia. Qed.

Lemma slice_bound_nonneg (n : nat) (x : Z) :
  0 <= x -> slice_bound n x = Nat.min (Z.to_nat x) n.
Proof. intro H; unfold slice_bound; destruct (x <? 0) eqn:E; lia. Qed.

Lemma py_slice_length {A} (a b : Z) (l : list A) :
  length (py_slice a b l)
  = (slice_bound (length l) b - slice_bound (length l) a)%nat.
Proof.
  unfold py_slice; rewrite length_firstn, length_skipn.
  pose proof (slice_bound_le (length l) b); lia.
Qed.

(** A slice [l[a:b]] with [0 <= a < len(l)] and [a < b] is not empty. *)
Lemma py_slice_nonempty {A} (a b : Z) (l : list A) :
  0 <= a < Z.of_nat (length l) -> a < b -> py_slice a b l <> [].
Proof.
  intros Ha Hab E.
  apply (f_equal (@length A)) in E.
  rewrite py_slice_length, !slice_bound_nonneg in E by lia.
  simpl in E; lia.
Qed.

Lemma concat_nonempty {A} (rows : list (list A)) :
  rows <> [] -> Forall (fun r => r <> []) rows -> concat rows <> [].
Proof.
  destruct rows as [|r rs]; [easy|]; intros _ H.
  apply Forall_inv in H; simpl.
  destruct r; [easy|discriminate].
Qed.

Lemma slice2_nonempty {A} (R C : nat) (a b c d : Z) (m : matrix A) :
  rect R C m -> 0 <= a < Z.of_nat R -> a < b -> 0 <= c < Z.of_nat C -> c < d ->
  concat (slice2 a b c d m) <> [].
Proof.
  intros [HR HC] Ha Hab Hc Hcd; unfold slice2.
  apply concat_nonempty.
  - intro E; apply map_eq_nil in E; revert E.
    apply py_slice_nonempty; [now rewrite HR|easy].
  - apply Forall_map, py_slice_Forall.
    eapply Forall_impl; [|exact HC].
    intros r Hr; cbn beta.
    apply py_slice_nonempty; [now rewrite Hr|easy].
Qed.

Lemma slice2_all_zero (a b c d : Z) (m : matrix Z) :
  all_zero m -> all_zero (slice2 a b c d m).
Proof.
  unfold all_zero, slice2; intro H.
  apply Forall_map, py_slice_Forall.
  eapply Forall_impl; [|exact H].
  intros r Hr; cbn beta; now apply py_slice_Forall.
Qed.

Lemma binarize_concat (m : matrix Z) :
  concat (binarize m) = map (fun x => if x =? 0 then 0 else 1) (concat m).
Proof. unfold binarize; now rewrite concat_map. Qed.

Lemma binarize_nonempty (m : matrix Z) :
  concat m <> [] -> concat (binarize m) <> [].
Proof.
  rewrite binarize_concat; intros H E; now apply map_eq_nil in E.
Qed.

Lemma binarize_all_zero (m : matrix Z) : all_zero m -> all_zero (binarize m).
Proof.
  rewrite !NpFacts.all_zero_concat, binarize_concat, !Forall_forall.
  intros H y Hy; apply in_map_iff in Hy as (x & <- & Hx).
  now rewrite (H x Hx).
Qed.

Lemma binarize_binary (m : matrix Z) : binary (binarize m).
Proof.
  unfold binary, binarize.
  apply Forall_map, Forall_forall; intros r _.
  apply Forall_map, Forall_forall; intros x _.
  destruct (x =? 0); auto.
Qed.

(** [np.int] is monotone and keeps the sign. *)
Lemma np_int_nonneg (x : Q) : (0 <= x)%Q -> 0 <= np_int x.
Proof.
  intro H; unfold np_int.
  apply Qle_bool_iff in H as Hb; rewrite Hb.
  apply Qfloor_resp_le in H; exact H.
Qed.

Lemma np_int_neg (x : Q) : Qle_bool 0 x = false -> np_int x <= 0.
Proof.
  intro Hb; unfold np_int; rewrite Hb.
  assert (H : (x <= 0)%Q).
  { destruct (Qlt_le_dec x 0) as [L|L]; [now apply Qlt_le_weak|].
    apply Qle_bool_iff in L; congruence. }
  apply Qceiling_resp_le in H; exact H.
Qed.

Lemma np_int_mono (x y : Q) : (x <= y)%Q -> np_int x <= np_int y.
Proof.
  intro H.
  destruct (Qle_bool 0 x) eqn:Ex, (Qle_bool 0 y) eqn:Ey.
  - unfold np_int; rewrite Ex, Ey; now apply Qfloor_resp_le.
  - apply Qle_bool_iff in Ex.
    assert (Hy : (0 <= y)%Q) by (eapply Qle_trans; eauto).
    apply Qle_bool_iff in Hy; congruence.
  - apply Qle_bool_iff in Ey.
    pose proof (np_int_neg x Ex); pose proof (np_int_nonneg y Ey); lia.
  - unfold np_int; rewrite Ex, Ey; now apply Qceiling_resp_le.
Qed.

(** Truncating a value below an integer bound stays below it. *)
Lemma np_int_lt (x : Q) (k : Z) : 0 < k -> (x < inject_Z k)%Q -> np_int x < k.
Proof.
  intros Hk H.
  destruct (Qle_bool 0 x) eqn:Ex.
  - unfold np_int; rewrite Ex.
    pose proof (Qfloor_le x) as Hf.
    assert (Hlt : (inject_Z (Qfloor x) < inject_Z k)%Q)
      by (eapply Qle_lt_trans; eauto).
    now rewrite <- Zlt_Qlt in Hlt.
  - pose proof (np_int_neg x Ex); lia.
Qed.

End SliceFacts.

(** ** Phase correlation: windows, gates and the debugger *)

Module PhaseCorrelationProps.

Import NpFacts QuadrantSwap SliceFacts.

Lemma margin_nonneg (fm g : Q) : (0 <= fm)%Q -> (0 < g)%Q -> (0 <= fm / g)%Q.
Proof.
  intros Hf Hg; unfold Qdiv.
  apply Qmult_le_0_compat; [exact Hf|].
  apply Qinv_le_0_compat; now apply Qlt_le_weak.
Qed.

(** One axis of the window: the clipped lower bound lies inside the field
    and does not exceed the unclipped upper bound. *)
Lemma axis_bounds (c r mg : Q) (n : nat) :
  (0 <= c)%Q -> (c < inject_Z (Z.of_nat n))%Q -> (0 <= r)%Q -> (0 <= mg)%Q ->
  0 <= Z.max (np_int (c - r - mg)) 0 < Z.of_nat n /\
  Z.max (np_int (c - r - mg)) 0 <= np_int (c + r + mg).
Proof.
  intros Hc Hn Hr Hm.
  assert (Hpos : 0 < Z.of_nat n).
  { rewrite Zlt_Qlt; apply (Qle_lt_trans _ c); [exact Hc|exact Hn]. }
  assert (Hlo : (c - r - mg <= c)%Q) by lra.
  assert (Hhi : (c <= c + r + mg)%Q) by lra.
  assert (H1 : np_int (c - r - mg) < Z.of_nat n).
  { apply np_int_lt; [exact Hpos|]. apply (Qle_lt_trans _ c); assumption. }
  assert (H2 : np_int (c - r - mg) <= np_int (c + r + mg)).
  { apply np_int_mono; apply (Qle_trans _ c); assumption. }
  assert (H3 : 0 <= np_int (c + r + mg)).
  { apply np_int_nonneg; apply (Qle_trans _ c); assumption. }
  lia.
Qed.

(** For a valid extent the window is a non-empty range of rows and of
    columns of the field. *)
Lemma flow_window_valid (e : ObjExtent) (R C : nat) (params : Params)
  (grid_size : GridSize) :
  valid_extent e R C params grid_size ->
  let '(row_lb, row_ub, col_lb, col_ub) :=
    flow_window e (R, C) params grid_size in
  0 <= row_lb < Z.of_nat R /\ row_lb < row_ub + 1 /\
  0 <= col_lb < Z.of_nat C /\ col_lb < col_ub + 1.
Proof.
  intros (Hr0 & Hr1 & Hc0 & Hc1 & Hrad & Hfm & Hgy & Hgx).
  unfold flow_window; cbv zeta; simpl fst; simpl snd.
  pose proof (margin_nonneg _ _ Hfm Hgy) as Hmr.
  pose proof (margin_nonneg _ _ Hfm Hgx) as Hmc.
  destruct (axis_bounds _ _ _ R Hr0 Hr1 Hrad Hmr) as [Ha Hb].
  destruct (axis_bounds _ _ _ C Hc0 Hc1 Hrad Hmc) as [Hc Hd].
  lia.
Qed.

Lemma rect_nonempty {A} (R C : nat) (m : matrix A) :
  rect R C m -> (0 < R)%nat -> (0 < C)%nat -> concat m <> [].
Proof.
  intros [HR HC] HR0 HC0.
  apply concat_nonempty.
  - destruct m; [simpl in HR; lia|discriminate].
  - eapply Forall_impl; [|exact HC].
    intros r Hr; cbn beta; destruct r; [simpl in Hr; lia|discriminate].
Qed.

(** *** The peak of a rational surface *)

Lemma fold_Qmax_in (xs : list Q) (x : Q) : In (fold_left Qmax xs x) (x :: xs).
Proof.
  revert x; induction xs as [|y ys IH]; intro x; simpl; [now left|].
  destruct (IH (Qmax x y)) as [H|H]; [|right; now right].
  unfold Qmax in H at 1.
  destruct (Qle_bool x y); [right|]; now left.
Qed.

Lemma find_index_some {A} (p : A -> bool) (l : list A) (x : A) :
  In x l -> p x = true -> exists j, find_index p l = Some j.
Proof.
  induction l as [|y ys IH]; intros Hin Hp; [easy|]; simpl.
  destruct (p y) eqn:Ey; [eauto|].
  destruct Hin as [->|Hin]; [congruence|].
  destruct (IH Hin Hp) as [j ->]; simpl; eauto.
Qed.

Lemma argwhere_from_some {A} (p : A -> bool) (m : matrix A) (i : nat) (x : A) :
  In x (concat m) -> p x = true -> exists ij, argwhere_from p i m = Some ij.
Proof.
  revert i; induction m as [|r rs IH]; intros i Hin Hp; [easy|]; simpl in *.
  apply in_app_or in Hin as [Hin|Hin].
  - destruct (find_index_some p r x Hin Hp) as [j ->]; eauto.
  - destruct (find_index p r); eauto.
Qed.

(** On a surface with at least one sample, the maximum exists and
    [np.argwhere(cov == np.max(cov))[0]] finds it. *)
Lemma peak_exists (cov : matrix Q) :
  concat cov <> [] ->
  exists top ij, np_max_Q cov = Ok top /\
                 argwhere_first (fun v => Qeq_bool v top) cov = Ok ij.
Proof.
  intro Hne; unfold np_max_Q, argwhere_first.
  destruct (concat cov) as [|x xs] eqn:E; [easy|].
  pose proof (fold_Qmax_in xs x) as Hin; rewrite <- E in Hin.
  destruct (argwhere_from_some (fun v => Qeq_bool v (fold_left Qmax xs x))
              cov 0%nat _ Hin (Qeq_bool_refl _)) as [ij Hij].
  exists (fold_left Qmax xs x), ij; now rewrite Hij.
Qed.

(** *** The column bound of the flow window *)

(** The upper column bound is the larger of the unclipped bound and the
    field width, so it is never below the width. *)
Lemma flow_window_col_ub_ge (e : ObjExtent) (dims : nat * nat)
  (params : Params) (grid_size : GridSize) :
  let '(_, _, _, col_ub) := flow_window e dims params grid_size in
  Z.of_nat (snd dims) <= col_ub.
Proof. unfold flow_window; cbv zeta; lia. Qed.

(** C1 (the claim fails on the code).  The object [ext55] is a valid extent
    for a 10 x 10 field with the default margin, and [get_ambient_flow]
    computes the window [(row_lb, row_ub, col_lb, col_ub) = (0, 10, 0, 15)]
    for it: the row bound is clipped to the field, the column bound 15 lies
    beyond the 10 columns. *)
Theorem flow_window_column_bound_escapes :
  valid_extent ext55 10 10 default_params cpol /\
  flow_window ext55 (10%nat, 10%nat) default_params cpol = (0, 10, 0, 15) /\
  Z.of_nat 10 < 15.
Proof.
  split; [|split; [vm_compute; reflexivity|lia]].
  unfold valid_extent; simpl; repeat split; lra.
Qed.

(** *** The position of zero lag after the swap *)

Section ZeroLag.

Variable cross_power_surface : matrix Z -> matrix Z -> matrix Q.

Hypothesis cross_power_surface_shape :
  forall R C a b, rect R C a -> rect R C b -> rect R C (cross_power_surface a b).

(** C8, amended.  For equal-shaped [R] x [C] fields and the pivot
    [(rd, cd) = (ceil(R/2), ceil(C/2))], the surface returned by
    [fft_crosscov] has the shape of the inputs, and the zero-lag sample, at
    [(0, 0)] before the swap, is at [(R - rd, C - cd)] after it, that is at
    [(floor(R/2), floor(C/2))]. *)
Theorem fft_crosscov_zero_lag (R C : nat) (im1 im2 : matrix Z) :
  (0 < R)%nat -> (0 < C)%nat -> rect R C im1 -> rect R C im2 ->
  let rd := ceil_half R in
  let cd := ceil_half C in
  rect R C (fft_crosscov cross_power_surface im1 im2 rd cd) /\
  at2 (fft_crosscov cross_power_surface im1 im2 rd cd) (R - rd) (C - cd)
  = at2 (cross_power_surface im1 im2) 0 0 /\
  (R - rd = Nat.div R 2 /\ C - cd = Nat.div C 2)%nat.
Proof.
  intros HR HC H1 H2 rd cd; unfold fft_crosscov.
  pose proof (cross_power_surface_shape R C im1 im2 H1 H2) as Hs.
  split; [|split; [|split]].
  - now apply fft_shift_rect.
  - apply (fft_shift_origin R C); [exact Hs| |]; now apply ceil_half_bounds.
  - apply ceil_half_floor.
  - apply ceil_half_floor.
Qed.

End ZeroLag.

Lemma surface_shape (R C : nat) (a b : matrix Z) :
  rect R C a -> rect R C b -> rect R C (surface a b).
Proof.
  intros _ [HR HC]; unfold surface; split.
  - now rewrite length_map.
  - apply Forall_map; eapply Forall_impl; [|exact HC].
    intros r Hr; cbn beta; now rewrite length_map.
Qed.

Lemma smooth_shape (R C : nat) (m : matrix Q) (sigma : Q) :
  rect R C m -> rect R C (smooth m sigma).
Proof. easy. Qed.

Lemma rect33 : rect 3 3 field33.
Proof. split; [reflexivity|repeat constructor]. Qed.

Lemma rect33_zero : rect 3 3 zero33.
Proof. split; [reflexivity|repeat constructor]. Qed.

Lemma fft_crosscov_zero_lag_witness :
  rect 3 3 (fft_crosscov surface field33 field33 2 2) /\
  at2 (fft_crosscov surface field33 field33 2 2) 1 1
  = at2 (surface field33 field33) 0 0 /\
  (3 - 2 = Nat.div 3 2 /\ 3 - 2 = Nat.div 3 2)%nat.
Proof.
  exact (fft_crosscov_zero_lag surface surface_shape 3 3 field33 field33
           ltac:(lia) ltac:(lia) rect33 rect33).
Defined.

(** C8 as stated fails on a 3 x 3 surface: the pivot is [(2, 2)], where the
    swap puts the sample that was at [(1, 1)]; the sample that was at
    [(0, 0)] is at [(1, 1)]. *)
Lemma fft_shift_pivot_counterexample :
  let rd := ceil_half 3 in
  let cd := ceil_half 3 in
  rect 3 3 surface33 /\
  at2 (fft_shift surface33 rd cd) rd cd <> at2 surface33 0 0.
Proof.
  split; [split; [reflexivity|repeat constructor]|].
  vm_compute; discriminate.
Qed.

(** *** The no-signal gate and the breakpoint *)

Section Gates.

Variable cross_power_surface : matrix Z -> matrix Z -> matrix Q.
Variable gaussian_filter : matrix Q -> Q -> matrix Q.
Context {D : Debugger}.

Lemma gate_trace (im1 im2 : matrix Z) (gs : bool) :
  trace (no_signal_gate im1 im2 gs) = [].
Proof.
  unfold no_signal_gate, trace, bind, lift, ret.
  destruct gs; simpl; [reflexivity|].
  destruct (np_max im1) as [m1|e]; [|reflexivity].
  destruct (m1 =? 0); [reflexivity|].
  destruct (np_max im2); reflexivity.
Qed.

(** The gate lets the inputs through exactly in global mode, or when both
    inputs have a maximum and neither maximum is zero. *)
Lemma gate_passes_iff (im1 im2 : matrix Z) (gs : bool) :
  outcome (no_signal_gate im1 im2 gs) = Ok false <->
  gs = true \/
  exists m1 m2, np_max im1 = Ok m1 /\ m1 <> 0 /\ np_max im2 = Ok m2 /\ m2 <> 0.
Proof.
  unfold no_signal_gate, outcome, bind, lift, ret.
  destruct gs; simpl.
  - split; auto.
  - destruct (np_max im1) as [m1|e1]; simpl.
    + destruct (m1 =? 0) eqn:E1; simpl.
      * split; [discriminate|].
        intros [H|(a & b & Ha & Hna & _)]; [discriminate|].
        injection Ha as <-; lia.
      * destruct (np_max im2) as [m2|e2]; simpl.
        -- destruct (m2 =? 0) eqn:E2; split.
           ++ discriminate.
           ++ intros [H|(a & b & _ & _ & Hb & Hnb)]; [discriminate|].
              injection Hb as <-; lia.
           ++ intros _; right; exists m1, m2; repeat split; auto; lia.
           ++ reflexivity.
        -- split; [discriminate|].
           intros [H|(a & b & _ & _ & Hb & _)]; discriminate.
    + split; [discriminate|].
      intros [H|(a & b & Ha & _)]; discriminate.
Qed.

Lemma result_eq_dec_gate (im1 im2 : matrix Z) (gs : bool) :
  {outcome (no_signal_gate im1 im2 gs) = Ok false} +
  {outcome (no_signal_gate im1 im2 gs) <> Ok false}.
Proof.
  destruct (outcome (no_signal_gate im1 im2 gs)) as [[|]|e];
    [right|left|right]; easy.
Qed.

Lemma set_trace_eq :
  set_trace = ([EvPdbSetTrace],
               match at_prompt with
               | PdbContinue => Ok tt
               | PdbQuit => Raise BdbQuit
               end).
Proof. unfold set_trace; destruct at_prompt; reflexivity. Qed.

(** Past the gate the breakpoint is the one thing recorded, and the
    function returns a shift or raises: it does not return [None]. *)
Lemma past_the_gate (im1 im2 : matrix Z) (gs : bool) :
  outcome (no_signal_gate im1 im2 gs) = Ok false ->
  trace (fft_flowvectors cross_power_surface gaussian_filter im1 im2 gs)
  = [EvPdbSetTrace] /\
  outcome (fft_flowvectors cross_power_surface gaussian_filter im1 im2 gs)
  <> Ok None.
Proof.
  intro Hg; pose proof (gate_trace im1 im2 gs) as Ht.
  unfold fft_flowvectors.
  destruct (no_signal_gate im1 im2 gs) as [t r]; simpl in Hg, Ht; subst.
  cbn [bind app]; rewrite set_trace_eq.
  destruct at_prompt; [|split; [reflexivity|discriminate]].
  cbv zeta; unfold bind, lift, ret.
  destruct (np_max_Q _) as [top|e]; [|split; [reflexivity|discriminate]].
  destruct (argwhere_first _ _) as [ij|e]; split;
    try reflexivity; discriminate.
Qed.

(** Stopped by the gate: [None], or the exception of [np.max], and no
    breakpoint. *)
Lemma stopped_at_the_gate (im1 im2 : matrix Z) (gs : bool) :
  outcome (no_signal_gate im1 im2 gs) <> Ok false ->
  trace (fft_flowvectors cross_power_surface gaussian_filter im1 im2 gs) = [] /\
  forall shift,
    outcome (fft_flowvectors cross_power_surface gaussian_filter im1 im2 gs)
    <> Ok (Some shift).
Proof.
  intro Hg; pose proof (gate_trace im1 im2 gs) as Ht.
  unfold fft_flowvectors.
  destruct (no_signal_gate im1 im2 gs) as [t r]; simpl in Hg, Ht; subst.
  destruct r as [[|]|e]; cbn; easy.
Qed.

(** C10.  Whenever the inputs pass the no-signal gate (global mode, or both
    inputs have a nonzero maximum), [fft_flowvectors] runs
    [pdb.set_trace()], and it is the first thing it does after the gate; and
    whenever [fft_flowvectors] returns a shift, the debugger was entered. *)
Theorem fft_flowvectors_enters_debugger (im1 im2 : matrix Z) (gs : bool) :
  ((gs = true \/
    exists m1 m2,
      np_max im1 = Ok m1 /\ m1 <> 0 /\ np_max im2 = Ok m2 /\ m2 <> 0) ->
   trace (fft_flowvectors cross_power_surface gaussian_filter im1 im2 gs)
   = [EvPdbSetTrace]) /\
  (forall shift,
     outcome (fft_flowvectors cross_power_surface gaussian_filter im1 im2 gs)
     = Ok (Some shift) ->
     In EvPdbSetTrace
        (trace (fft_flowvectors cross_power_surface gaussian_filter im1 im2 gs))).
Proof.
  split.
  - intro Hpass; apply gate_passes_iff in Hpass.
    now apply past_the_gate.
  - intros shift Hret.
    destruct (result_eq_dec_gate im1 im2 gs) as [Hg|Hg].
    + destruct (past_the_gate im1 im2 gs Hg) as [-> _]; now left.
    + destruct (stopped_at_the_gate im1 im2 gs Hg) as [_ Hno].
      now destruct (Hno shift).
Qed.

End Gates.

(** *** The window of the local estimator *)

Lemma bind_lift_ok {A B} (a : A) (f : A -> M B) : bind (lift (Ok a)) f = f a.
Proof. unfold bind, lift; now destruct (f a). Qed.

(** In exact arithmetic the clipped bounds are the corners of
    [flow_window]. *)
Lemma exact_window_bounds_clip (e : ObjExtent) (dims : nat * nat)
  (params : Params) (grid_size : GridSize) (bounds : Z * Z * Z * Z) :
  exact_window_bounds e params grid_size = Ok bounds ->
  clip_window bounds dims = flow_window e dims params grid_size.
Proof.
  unfold exact_window_bounds.
  destruct (Qeq_bool _ 0 || Qeq_bool _ 0)%bool; [discriminate|].
  intro H; injection H as <-; reflexivity.
Qed.

(** In exact arithmetic the bounds around an object of the field enclose
    the cell of its centre. *)
Lemma exact_window_bounds_enclose (e : ObjExtent) (R C : nat) (params : Params)
  (grid_size : GridSize) :
  valid_extent e R C params grid_size ->
  exists bounds,
    exact_window_bounds e params grid_size = Ok bounds /\
    encloses_cell bounds R C.
Proof.
  intros (Hr0 & Hr1 & Hc0 & Hc1 & Hrad & Hfm & Hgy & Hgx).
  unfold exact_window_bounds.
  assert (Ey : Qeq_bool (gs_y grid_size) 0 = false).
  { destruct (Qeq_bool (gs_y grid_size) 0) eqn:E; [|reflexivity].
    apply Qeq_bool_iff in E; rewrite E in Hgy; now apply Qlt_irrefl in Hgy. }
  assert (Ex : Qeq_bool (gs_x grid_size) 0 = false).
  { destruct (Qeq_bool (gs_x grid_size) 0) eqn:E; [|reflexivity].
    apply Qeq_bool_iff in E; rewrite E in Hgx; now apply Qlt_irrefl in Hgx. }
  rewrite Ey, Ex; cbn [orb]; cbv zeta.
  eexists; split; [reflexivity|].
  pose proof (margin_nonneg _ _ Hfm Hgy) as Hmr.
  pose proof (margin_nonneg _ _ Hfm Hgx) as Hmc.
  destruct (obj_center e) as [cr cc]; cbn [fst snd] in *.
  assert (HR : 0 < Z.of_nat R).
  { rewrite Zlt_Qlt; apply (Qle_lt_trans _ cr); assumption. }
  assert (HC : 0 < Z.of_nat C).
  { rewrite Zlt_Qlt; apply (Qle_lt_trans _ cc); assumption. }
  split.
  - exists (np_int cr); split; [|split].
    + split; [now apply np_int_nonneg|now apply np_int_lt].
    + apply np_int_mono; lra.
    + apply np_int_mono; lra.
  - exists (np_int cc); split; [|split].
    + split; [now apply np_int_nonneg|now apply np_int_lt].
    + apply np_int_mono; lra.
    + apply np_int_mono; lra.
Qed.

(** Bounds that enclose a cell leave, after clipping, at least one row and
    one column of the field. *)
Lemma clip_window_encloses (bounds : Z * Z * Z * Z) (R C : nat) :
  encloses_cell bounds R C ->
  let '(row_lb, row_ub, col_lb, col_ub) := clip_window bounds (R, C) in
  0 <= row_lb < Z.of_nat R /\ row_lb < row_ub + 1 /\
  0 <= col_lb < Z.of_nat C /\ col_lb < col_ub + 1.
Proof.
  destruct bounds as [[[rl ru] cl] cu].
  intros [(i & Hi & Hri) (j & Hj & Hcj)].
  unfold clip_window; cbn [fst snd]; lia.
Qed.

Lemma flow_region_nonempty (bounds : Z * Z * Z * Z) (R C : nat)
  (img : matrix Z) :
  rect R C img -> encloses_cell bounds R C ->
  concat (flow_region (clip_window bounds (R, C)) img) <> [].
Proof.
  intros Hr He; pose proof (clip_window_encloses bounds R C He) as Hw.
  destruct (clip_window bounds (R, C)) as [[[rl ru] cl] cu].
  destruct Hw as (Hrl & Hru & Hcl & Hcu); unfold flow_region.
  apply binarize_nonempty, (slice2_nonempty R C); assumption.
Qed.

Lemma flow_region_all_zero (window : Z * Z * Z * Z) (img : matrix Z) :
  all_zero img -> all_zero (flow_region window img).
Proof.
  destruct window as [[[rl ru] cl] cu]; intro Hz; unfold flow_region.
  now apply binarize_all_zero, slice2_all_zero.
Qed.

Lemma flow_region_nonneg (window : Z * Z * Z * Z) (img : matrix Z) :
  Forall (Forall (fun x => 0 <= x)) (flow_region window img).
Proof.
  destruct window as [[[rl ru] cl] cu]; unfold flow_region.
  pose proof (binarize_binary (slice2 rl (ru + 1) cl (cu + 1) img)) as H.
  eapply Forall_impl; [|exact H]; intros r Hr; cbn beta.
  eapply Forall_impl; [|exact Hr]; intros x Hx; cbn beta in *; lia.
Qed.

Lemma shape_rect {A} (R C : nat) (m : matrix A) :
  rect R C m -> (0 < R)%nat -> shape m = (R, C).
Proof.
  intros [HR HC] H0; unfold shape, nrows, ncols.
  destruct m as [|r rs]; [simpl in HR; lia|].
  apply Forall_inv in HC; now rewrite HR, HC.
Qed.

Lemma encloses_cell_rows (bounds : Z * Z * Z * Z) (R C : nat) :
  encloses_cell bounds R C -> (0 < R)%nat /\ (0 < C)%nat.
Proof.
  destruct bounds as [[[rl ru] cl] cu].
  intros [(i & Hi & _) (j & Hj & _)]; lia.
Qed.

(** *** Fields without signal *)

Section NoSignal.

Variable cross_power_surface : matrix Z -> matrix Z -> matrix Q.
Variable gaussian_filter : matrix Q -> Q -> matrix Q.
Context {D : Debugger}.
Variable window_bounds :
  ObjExtent -> Params -> GridSize -> result (Z * Z * Z * Z).

(** The transforms and the filter return arrays of the shape they are
    given. *)
Hypothesis cross_power_surface_shape :
  forall R C a b, rect R C a -> rect R C b -> rect R C (cross_power_surface a b).
Hypothesis gaussian_filter_shape :
  forall R C m sigma, rect R C m -> rect R C (gaussian_filter m sigma).

(** Past the gate, in a session that is continued, the estimator returns a
    shift for any pair of equal-shaped inputs with at least one sample. *)
Lemma continued_returns (R C : nat) (im1 im2 : matrix Z) (gs : bool) :
  at_prompt = PdbContinue ->
  (0 < R)%nat -> (0 < C)%nat -> rect R C im1 -> rect R C im2 ->
  no_signal_gate im1 im2 gs = ([], Ok false) ->
  exists shift,
    fft_flowvectors cross_power_surface gaussian_filter im1 im2 gs
    = ([EvPdbSetTrace], Ok (Some shift)).
Proof.
  intros Hc HR HC H1 H2 Hgate.
  unfold fft_flowvectors; rewrite Hgate.
  cbn [bind app]; rewrite set_trace_eq, Hc; cbv zeta.
  rewrite (shape_rect R C im1 H1 HR); cbn [fst snd].
  set (cov := gaussian_filter _ _).
  assert (Hcov : rect R C cov).
  { apply gaussian_filter_shape; unfold fft_crosscov.
    apply fft_shift_rect; now apply cross_power_surface_shape. }
  destruct (peak_exists cov (rect_nonempty R C cov Hcov HR HC))
    as (top & ij & Htop & Hij).
  unfold bind, lift, ret; rewrite Htop, Hij; cbn.
  eexists; reflexivity.
Qed.

(** In global mode the estimator returns a shift for any pair of
    equal-shaped fields with at least one sample, once the session is
    continued. *)
Lemma global_shift_returns (R C : nat) (im1 im2 : matrix Z) :
  at_prompt = PdbContinue ->
  (0 < R)%nat -> (0 < C)%nat -> rect R C im1 -> rect R C im2 ->
  exists shift,
    get_global_shift cross_power_surface gaussian_filter im1 (Some im2)
    = ([EvPdbSetTrace], Ok (Some shift)).
Proof.
  intros Hc HR HC H1 H2.
  destruct (continued_returns R C im1 im2 true Hc HR HC H1 H2 eq_refl)
    as [shift Hs].
  exists shift; unfold get_global_shift; rewrite Hs; reflexivity.
Qed.

(** In local mode the result is [None] exactly when one of the two windows
    is entirely zero (windows with at least one sample, none negative). *)
Lemma local_flow_none_iff (w1 w2 : matrix Z) :
  concat w1 <> [] -> concat w2 <> [] ->
  Forall (Forall (fun x => 0 <= x)) w1 ->
  Forall (Forall (fun x => 0 <= x)) w2 ->
  outcome (fft_flowvectors cross_power_surface gaussian_filter w1 w2 false)
  = Ok None <-> all_zero w1 \/ all_zero w2.
Proof.
  intros Hn1 Hn2 Hp1 Hp2.
  destruct (np_max_ok w1 Hn1) as (m1 & Hm1 & _).
  destruct (np_max_ok w2 Hn2) as (m2 & Hm2 & _).
  destruct (result_eq_dec_gate w1 w2 false) as [Hg|Hg].
  - destruct (past_the_gate cross_power_surface gaussian_filter _ _ _ Hg)
      as [_ Hnot].
    split; [now intros H|].
    apply gate_passes_iff in Hg as [Hg|(a & b & Ha & Hna & Hb & Hnb)];
      [discriminate|].
    intros [Hz|Hz].
    + rewrite (np_max_all_zero w1 Hn1 Hz) in Ha; injection Ha as <-; lia.
    + rewrite (np_max_all_zero w2 Hn2 Hz) in Hb; injection Hb as <-; lia.
  - assert (Hgate : no_signal_gate w1 w2 false = ([], Ok true)).
    { revert Hg; unfold no_signal_gate, outcome, bind, lift, ret; simpl.
      rewrite Hm1; simpl.
      destruct (m1 =? 0); [reflexivity|].
      rewrite Hm2; simpl.
      destruct (m2 =? 0); [reflexivity|]; intro H; now destruct H. }
    unfold fft_flowvectors; rewrite Hgate; cbn.
    split; [intros _|reflexivity].
    revert Hgate; unfold no_signal_gate, bind, lift, ret; simpl.
    rewrite Hm1; simpl.
    destruct (m1 =? 0) eqn:E1.
    + intros _; left; apply np_max_zero_nonneg; [exact Hp1|].
      rewrite Hm1; f_equal; lia.
    + rewrite Hm2; simpl.
      destruct (m2 =? 0) eqn:E2; [|discriminate].
      intros _; right; apply np_max_zero_nonneg; [exact Hp2|].
      rewrite Hm2; f_equal; lia.
Qed.

(** [get_ambient_flow] hands the two binarized windows to
    [fft_flowvectors]; what the arithmetic of its first lines raises, it
    raises. *)
Lemma ambient_flow_windows (R C : nat) (e : ObjExtent) (img1 img2 : matrix Z)
  (params : Params) (grid_size : GridSize) :
  (0 < R)%nat -> rect R C img1 ->
  get_ambient_flow cross_power_surface gaussian_filter window_bounds
    e img1 img2 params grid_size
  = match window_bounds e params grid_size with
    | Ok bounds =>
        fft_flowvectors cross_power_surface gaussian_filter
          (flow_region (clip_window bounds (R, C)) img1)
          (flow_region (clip_window bounds (R, C)) img2) false
    | Raise x => ([], Raise x)
    end.
Proof.
  intros HR H1; unfold get_ambient_flow.
  destruct (window_bounds e params grid_size) as [bounds|x]; [|reflexivity].
  now rewrite bind_lift_ok, (shape_rect R C img1 H1 HR).
Qed.

(** The local estimator returns [None] exactly when one of its windows is
    entirely zero. *)
Lemma ambient_flow_none_iff (R C : nat) (e : ObjExtent) (img1 img2 : matrix Z)
  (params : Params) (grid_size : GridSize) (bounds : Z * Z * Z * Z) :
  rect R C img1 -> rect R C img2 ->
  window_bounds e params grid_size = Ok bounds -> encloses_cell bounds R C ->
  outcome (get_ambient_flow cross_power_surface gaussian_filter window_bounds
             e img1 img2 params grid_size) = Ok None
  <-> all_zero (flow_region (clip_window bounds (R, C)) img1) \/
      all_zero (flow_region (clip_window bounds (R, C)) img2).
Proof.
  intros H1 H2 Hb He.
  destruct (encloses_cell_rows bounds R C He) as [HR _].
  rewrite (ambient_flow_windows R C e img1 img2 params grid_size HR H1), Hb.
  apply local_flow_none_iff;
    auto using flow_region_nonempty, flow_region_nonneg.
Qed.

(** With a window that is entirely zero the gate is not passed: [None] is
    returned before the breakpoint. *)
Lemma ambient_flow_none (R C : nat) (e : ObjExtent) (img1 img2 : matrix Z)
  (params : Params) (grid_size : GridSize) (bounds : Z * Z * Z * Z) :
  rect R C img1 -> rect R C img2 ->
  window_bounds e params grid_size = Ok bounds -> encloses_cell bounds R C ->
  all_zero (flow_region (clip_window bounds (R, C)) img1) \/
  all_zero (flow_region (clip_window bounds (R, C)) img2) ->
  get_ambient_flow cross_power_surface gaussian_filter window_bounds
    e img1 img2 params grid_size = ([], Ok None).
Proof.
  intros H1 H2 Hb He Hz.
  pose proof (proj2 (ambient_flow_none_iff R C e img1 img2 params grid_size
                       bounds H1 H2 Hb He) Hz) as Hout.
  destruct (encloses_cell_rows bounds R C He) as [HR _].
  rewrite (ambient_flow_windows R C e img1 img2 params grid_size HR H1), Hb
    in Hout |- *.
  set (w1 := flow_region _ img1) in *; set (w2 := flow_region _ img2) in *.
  destruct (result_eq_dec_gate w1 w2 false) as [Hg|Hg].
  - destruct (past_the_gate cross_power_surface gaussian_filter _ _ _ Hg)
      as [_ Hnot]; now destruct Hnot.
  - destruct (stopped_at_the_gate cross_power_surface gaussian_filter _ _ _ Hg)
      as [Ht _].
    destruct (fft_flowvectors _ _ w1 w2 false) as [t r];
      simpl in Ht, Hout; now subst.
Qed.


End NoSignal.



Lemma fft_flowvectors_enters_debugger_witness :
  trace (fft_flowvectors surface smooth field33 field33 false)
  = [EvPdbSetTrace].
Proof.
  apply (proj1 (fft_flowvectors_enters_debugger surface smooth
                  field33 field33 false)).
  right; exists 1, 1; repeat split; discriminate.
Defined.

End PhaseCorrelationProps.

(** ** The scan loop *)

Module TracksProps.

Section Loop.

Context {E : Externals}.

Variable rain : bool.
Variable save_rain : bool.
Variable callee : PyFunction.

Lemma extract_session (s : Cell_tracks) :
  extract rain s = session_extract rain (cfg s).
Proof. reflexivity. Qed.

Lemma process_empty_frame (g1 : Grid) (sc : Scan1) (l : Locals)
  (s : Cell_tracks) (r : Record_ Uid) :
  record s = Some r -> np_max (frame1' sc) = Ok 0 ->
  process rain save_rain callee g1 sc l s
  = ([EvPrint (MsgNoObjects (scan r))], set_current_objects None s,
     Ok (with_newRain true l)).
Proof.
  intros Hr Hmax.
  unfold process, sbind, pure, lift, self, attr, semit, modify, sret.
  rewrite Hmax; simpl. rewrite Hr. simpl. reflexivity.
Qed.

Lemma process_flow_TypeError (g1 : Grid) (sc : Scan1) (l : Locals)
  (s : Cell_tracks) (top : Z) :
  np_max (frame1' sc) = Ok top -> top <> 0 -> fn_arity callee = 2%nat ->
  process rain save_rain callee g1 sc l s
  = ([EvCall CGlobalShift], s, Raise TypeError).
Proof.
  intros Hmax Hnz Har.
  unfold process, sbind, pure, lift, self, attr, semit, modify, sret.
  rewrite Hmax; simpl.
  destruct (top =? 0) eqn:E0; [lia|].
  unfold py_call. rewrite Har. simpl. reflexivity.
Qed.

Ltac crunch H :=
  repeat (cbn beta iota zeta in H;
          match type of H with
          | context [match ?x with _ => _ end] =>
              lazymatch x with
              | context [match _ with _ => _ end] => fail
              | _ => destruct x eqn:?
              end
          end).

Ltac unfold_st H :=
  unfold sbind, pure, lift, self, attr, read_local, semit, modify, sret,
    sraise, index, bind, ret, raise, emit in H.

Ltac unfold_st_goal :=
  unfold sbind, pure, lift, self, attr, read_local, semit, modify, sret,
    sraise, index, bind, ret, raise, emit.

Lemma process_effect (g1 : Grid) (sc : Scan1) (l : Locals)
  (s s' : Cell_tracks) (t : list event) (r : result Locals) :
  process rain save_rain callee g1 sc l s = (t, s', r) ->
  cfg s' = cfg s /\
  (tracks s' = tracks s \/
   exists top rec rows,
     np_max (frame1' sc) = Ok top /\ top <> 0 /\ record s = Some rec /\
     Forall (fun row => row_scan row = scan rec) rows /\
     tracks s' = tracks s ++ rows) /\
  (forall l', r = Ok l' ->
     grid_obj2 l' = grid_obj2 l /\ raw2 l' = raw2 l /\ frame2 l' = frame2 l /\
     frame1 l' = frame1 l /\ scan_of s' = scan_of s).
Proof.
  intro H; unfold process in H; unfold_st H.
  crunch H.
  all: simpl in *; injection H as <- <- <-.
  all: split; [reflexivity|split].
  all: try (now left).
  all: try (intros l' Hl; try discriminate; injection Hl as <-;
            unfold scan_of; simpl; now rewrite ?Heqo).
  all: right; exists a, r0; eexists; unfold write_tracks; simpl.
  all: apply Z.eqb_neq in Heqb.
  all: split; [assumption|split; [assumption|split; [reflexivity|split]]].
  all: try reflexivity.
  all: apply Forall_map, Forall_forall; now intros.
Qed.

Lemma artificially_zero_trace (raw1 : option (matrix Z)) (raw : matrix Z) :
  trace (artificially_zero raw1 raw) = [].
Proof.
  unfold artificially_zero, np_max_opt, trace, bind, lift, ret, raise.
  destruct raw1 as [a|]; simpl; [|reflexivity].
  destruct (np_max a) as [m1|e]; simpl; [|reflexivity].
  destruct (30 <? m1); [|reflexivity].
  destruct (np_max raw); reflexivity.
Qed.

Lemma processed_from_cons c raw1 g rest :
  processed_from rain c raw1 (g :: rest)
  = if skipped raw1 (raw_of (session_extract rain c g))
    then processed_from rain c raw1 rest
    else g :: processed_from rain c
                (Some (raw_of (session_extract rain c g))) rest.
Proof. reflexivity. Qed.

Lemma skip_erroneous_eq (s : Cell_tracks) raw1 g grids :
  skip_erroneous rain s raw1 g grids
  = bind (artificially_zero raw1 (raw_of (session_extract rain (cfg s) g)))
      (fun skip =>
         if skip then
           match grids with
           | [] => ret (None, [])
           | g' :: rest =>
               bind (emit (EvPrint MsgSkipping))
                    (fun _ => skip_erroneous rain s raw1 g' rest)
           end
         else ret (Some g, grids)).
Proof.
  change (session_extract rain (cfg s)) with (extract rain s).
  unfold raw_of; destruct grids; simpl;
    now destruct (extract rain s g) as [[[[raw rr] fr] co] cl].
Qed.

(** What a completed pull tells about the scans that are processed. *)
Lemma skip_erroneous_processed (s : Cell_tracks) (raw1 : option (matrix Z))
  (rest : list Grid) :
  forall g tr nxt grids',
  skip_erroneous rain s raw1 g rest = (tr, Ok (nxt, grids')) ->
  match nxt with
  | Some g2 =>
      processed_from rain (cfg s) raw1 (g :: rest)
      = g2 :: processed_from rain (cfg s)
                (Some (raw_of (session_extract rain (cfg s) g2))) grids' /\
      (length grids' <= length rest)%nat /\
      exists pre, g :: rest = pre ++ g2 :: grids'
  | None => processed_from rain (cfg s) raw1 (g :: rest) = [] /\ grids' = []
  end.
Proof.
  induction rest as [|g' rest' IH]; intros g tr nxt grids' H.
  all: rewrite skip_erroneous_eq in H; rewrite processed_from_cons.
  all: unfold skipped.
  all: pose proof (artificially_zero_trace raw1 (raw_of (session_extract rain (cfg s) g))) as Ht.
  all: destruct (artificially_zero raw1 (raw_of (session_extract rain (cfg s) g)))
         as [ta [b|e]];
       unfold outcome, trace, bind in H, Ht |- *; simpl in H, Ht |- *;
       subst ta; [|discriminate].
  all: destruct b; simpl in H.
  - injection H as <- <- <-; auto.
  - injection H as <- <- <-; split; [reflexivity|split; [simpl; lia|now exists []]].
  - destruct (skip_erroneous rain s raw1 g' rest') as [t2 [[n2 g2]|e2]] eqn:Hs;
      [|discriminate].
    injection H as <- <- <-.
    specialize (IH g' t2 n2 g2 Hs).
    rewrite processed_from_cons in IH.
    destruct n2 as [g3|].
    + destruct IH as (Hp & Hl & pre & Hpre).
      split; [exact Hp|split; [simpl; lia|]].
      exists (g :: pre); now rewrite Hpre.
    + exact IH.
  - injection H as <- <- <-; split; [reflexivity|split; [simpl; lia|now exists []]].
Qed.

Lemma pull_next_processed (s : Cell_tracks) (raw1 : option (matrix Z))
  (grids : list Grid) tr nxt grids' :
  pull_next rain s raw1 grids = (tr, Ok (nxt, grids')) ->
  match nxt with
  | Some g2 =>
      processed_from rain (cfg s) raw1 grids
      = g2 :: processed_from rain (cfg s)
                (Some (raw_of (session_extract rain (cfg s) g2))) grids' /\
      (length grids' < length grids)%nat /\
      exists pre, grids = pre ++ g2 :: grids'
  | None => processed_from rain (cfg s) raw1 grids = [] /\ grids' = []
  end.
Proof.
  destruct grids as [|g rest]; simpl pull_next; intro H.
  - injection H as <- <- <-; auto.
  - apply skip_erroneous_processed in H.
    destruct nxt; [|exact H].
    destruct H as (Hp & Hl & Hpre); split; [exact Hp|split; [simpl; lia|exact Hpre]].
Qed.


Lemma advance_effect (g1 : Grid) (l : Locals) (grids : list Grid)
  (s s' : Cell_tracks) (t : list event)
  (r : result (Scan1 * Locals * list Grid)) :
  advance rain g1 l grids s = (t, s', r) ->
  cfg s' = cfg s /\ tracks s' = tracks s /\
  forall sc l' grids', r = Ok (sc, l', grids') ->
    frame1' sc = frame2 l /\ raw1 sc = raw2 l /\
    frame1 l' = Some (frame2 l) /\
    (newRain l = true -> newRain l' = true) /\
    (exists k, scan_of s = Some k /\ scan_of s' = Some (k + 1)) /\
    (exists tr, pull_next rain s (raw2 l) grids
                = (tr, Ok (grid_obj2 l', grids'))) /\
    match grid_obj2 l' with
    | Some g2 =>
        raw2 l' = Some (raw_of (session_extract rain (cfg s) g2)) /\
        nth_error (frames_of (session_extract rain (cfg s) g2)) (TRACK_INTERVAL (params s))
        = Some (frame2 l')
    | None => True
    end.
Proof.
  intro H; unfold advance in H; unfold_st H; simpl in H.
  crunch H.
  all: simpl in H; injection H as <- <- <-.
  all: split; [reflexivity|split; [reflexivity|]].
  all: intros sc l' grids' Hr; try discriminate; injection Hr as <- <- <-.
  all: simpl.
  all: repeat match goal with
         | H : snd ([], Ok _) = Ok _ |- _ => simpl in H; injection H as <-
         end.
  all: split; [reflexivity|split; [reflexivity|split; [reflexivity|]]].
  all: split; [try (intros _; reflexivity); try (now intros ->); auto|].
  all: split; [eexists; unfold scan_of; simpl; rewrite ?Heqo, ?Heqo0, ?Heqo1, ?Heqo2;
               split; reflexivity|].
  all: split; [exists (fst (pull_next rain s (raw2 l) grids));
               destruct (pull_next rain s (raw2 l) grids); simpl in *; congruence|].
  all: try exact I.
  all: change (session_extract rain (cfg s)) with (extract rain s).
  all: unfold raw_of, frames_of; rewrite Heqp0; auto.
Qed.


Lemma skipn_cons_nth {A} (l : list A) (n : nat) (x : A) (rest : list A) :
  skipn n l = x :: rest -> nth_error l n = Some x /\ skipn (S n) l = rest.
Proof.
  revert l; induction n as [|n IH]; intros l H.
  - simpl in H; subst; auto.
  - destruct l as [|y ys]; [discriminate|]; simpl in H.
    destruct (IH ys H) as [H1 H2]; auto.
Qed.

Lemma rows_have_objects_app c base P old rows new :
  rows_have_objects rain c base P old rows ->
  rows_have_objects rain c base P old new ->
  rows_have_objects rain c base P old (rows ++ new).
Proof.
  intros H1 H2 row Hin; apply in_app_or in Hin as [Hin|Hin]; auto.
Qed.

(** The loop invariant behind C6: [k] scans have been processed, the record
    holds index [base + k - 1], and the scan in [grid_obj2] is number [k]. *)
Lemma scan_loop_rows (base : Z) (old : DataFrame) (fuel : nat) :
  forall l grids s t s' r k P,
  scan_loop rain save_rain callee fuel l grids s = (t, s', r) ->
  scan_of s = Some (base + Z.of_nat k - 1) ->
  rows_have_objects rain (cfg s) base P old (tracks s) ->
  (forall g, grid_obj2 l = Some g ->
     skipn k P = g :: processed_from rain (cfg s) (raw2 l) grids /\
     scan_frame rain (cfg s) g = Some (frame2 l)) ->
  rows_have_objects rain (cfg s) base P old (tracks s').
Proof.
  induction fuel as [|fuel IH]; intros l grids s t s' r k P H Hscan Hrows Hcur.
  all: simpl in H; destruct (grid_obj2 l) as [g1|] eqn:Hg.
  all: try (injection H as <- <- <-; exact Hrows).
  unfold sbind in H.
  destruct (advance rain g1 l grids s) as [[ta sa] ra] eqn:Ha.
  apply advance_effect in Ha as (Hcfg & Htr & Hok).
  destruct ra as [[[sc la] ga]|e];
    [|injection H as <- <- <-; now rewrite Htr].
  destruct (Hok sc la ga eq_refl)
    as (Hf1 & Hr1 & _ & _ & (k0 & Hk0 & Hk1) & (tr & Hpull) & Hnext).
  rewrite Hscan in Hk0; injection Hk0 as <-.
  destruct (Hcur g1 eq_refl) as [Hskip Hframe].
  apply skipn_cons_nth in Hskip as [Hnth Hskip].
  destruct (process rain save_rain callee g1 sc la sa) as [[tp sp] rp] eqn:Hp.
  apply process_effect in Hp as (Hcfg2 & Hnew & Hl).
  assert (Hrows' : rows_have_objects rain (cfg s) base P old (tracks sp)).
  { destruct Hnew as [->|(top & rec & rows & Hmax & Hnz & Hrec & Hall & ->)];
      rewrite Htr; [exact Hrows|].
    apply rows_have_objects_app; [exact Hrows|].
    intros row Hin; rewrite Forall_forall in Hall; rewrite (Hall row Hin).
    unfold scan_of in Hk1; rewrite Hrec in Hk1; injection Hk1 as ->.
    replace (base + Z.of_nat k - 1 + 1 - base) with (Z.of_nat k) by lia.
    rewrite Nat2Z.id; right; split; [lia|].
    exists g1; split; [exact Hnth|].
    exists (frame2 l); split; [exact Hframe|].
    rewrite <- Hf1; now apply (NpFacts.np_max_nonzero _ top). }
  destruct rp as [lp|e]; [|injection H as <- <- <-; exact Hrows'].
  destruct (scan_loop rain save_rain callee fuel lp ga sp) as [[tl sl] rl] eqn:Hloop.
  injection H as <- <- <-.
  destruct (Hl lp eq_refl) as (Hg2 & Hraw2 & Hfr2 & _ & Hsc).
  assert (Hc : cfg sp = cfg s) by congruence.
  rewrite <- Hc.
  apply (IH lp ga sp tl sl rl (S k) P Hloop).
  - rewrite Hsc, Hk1; f_equal; lia.
  - now rewrite Hc.
  - intros g2 Hg2'; rewrite Hc, Hg2 in *.
    rewrite Hg2' in Hpull, Hnext.
    apply pull_next_processed in Hpull as (Hp1 & _ & _).
    destruct Hnext as [Hraw Hfr].
    rewrite Hraw2, Hfr2, Hraw, Hskip, <- Hr1.
    split; [now rewrite Hr1|exact Hfr].
Qed.


(** The bound on the loop is never reached: once [fuel] exceeds the number
    of grids left, more fuel changes nothing. *)
Lemma scan_loop_fuel_enough (fuel : nat) :
  forall l grids s k,
  (length grids < fuel)%nat ->
  scan_loop rain save_rain callee fuel l grids s
  = scan_loop rain save_rain callee (fuel + k) l grids s.
Proof.
  induction fuel as [|fuel IH]; intros l grids s k Hlen; [lia|].
  simpl; destruct (grid_obj2 l) as [g1|] eqn:Hg; [|reflexivity].
  unfold sbind.
  destruct (advance rain g1 l grids s) as [[ta sa] ra] eqn:Ha.
  apply advance_effect in Ha as (_ & _ & Hok).
  destruct ra as [[[sc la] ga]|e]; [|reflexivity].
  destruct (Hok sc la ga eq_refl) as (_ & _ & _ & _ & _ & (tr & Hpull) & _).
  apply pull_next_processed in Hpull.
  destruct (process rain save_rain callee g1 sc la sa) as [[tp sp] rp] eqn:Hp.
  apply process_effect in Hp as (_ & _ & Hl).
  destruct rp as [lp|e]; [|reflexivity].
  destruct (Hl lp eq_refl) as (Hg2 & _).
  destruct (grid_obj2 la) as [g2|] eqn:Hgl.
  - destruct Hpull as (_ & Hshort & _).
    now rewrite (IH lp ga sp k) by lia.
  - generalize (fuel + k)%nat; intro n.
    destruct fuel, n; simpl; now rewrite Hg2.
Qed.

(** A first call, up to the loop. *)
Lemma start_fresh (s0 : Cell_tracks) (g0 : Grid) (rest : list Grid)
  (t : list event) (s1 : Cell_tracks) (r : result (Locals * list Grid)) :
  uninitialized s0 ->
  start rain (g0 :: rest) s0 = (t, s1, r) ->
  tracks s1 = [] /\
  forall l gs, r = Ok (l, gs) ->
    gs = rest /\
    cfg s1 = first_session s0 (g0 :: rest) /\
    scan_of s1 = Some (-1) /\
    grid_obj2 l = Some g0 /\
    raw2 l = Some (raw_of (session_extract rain (cfg s1) g0)) /\
    scan_frame rain (cfg s1) g0 = Some (frame2 l) /\
    newRain l = true.
Proof.
  intros (Hrec & Hobj & Htab) H; unfold start in H; unfold_st H.
  rewrite Hrec in H; simpl in H; rewrite Hobj in H.
  crunch H.
  all: simpl in H; injection H as <- <- <-.
  all: split; [exact Htab|]; intros l' gs Hr; try discriminate.
  injection Hr as <- <-; simpl.
  repeat match goal with
         | H : snd ([], Ok _) = Ok _ |- _ => simpl in H; injection H as <-
         end.
  unfold scan_frame, session_extract, cfg, raw_of, frames_of; simpl.
  unfold extract in *; simpl in *.
  repeat split; try reflexivity.
  all: match goal with
       | H : extract_grid_data _ _ _ _ _ = _ |- _ => now rewrite H
       end.
Qed.

(** Any call, up to the loop. *)
Lemma start_effect (grids : list Grid) (s s1 : Cell_tracks)
  (t : list event) (r : result (Locals * list Grid)) :
  start rain grids s = (t, s1, r) ->
  tracks s1 = tracks s /\
  forall l gs, r = Ok (l, gs) ->
    cfg s1 = call_session s grids /\
    scan_of s1 = Some (call_base s - 1) /\
    forall g, grid_obj2 l = Some g ->
      g :: processed_from rain (cfg s1) (raw2 l) gs = call_scans rain s grids /\
      scan_frame rain (cfg s1) g = Some (frame2 l).
Proof.
  intro H; unfold start in H; unfold_st H.
  unfold call_session, call_scans, call_base, scan_of.
  destruct (record s) as [rec|] eqn:Hrec.
  - crunch H.
    all: simpl in H; injection H as <- <- <-.
    all: split; [reflexivity|]; intros l' gs Hr; try discriminate.
    all: injection Hr as <- <-; simpl; rewrite Hrec; simpl.
    all: repeat match goal with
           | H : snd ([], Ok _) = Ok _ |- _ => simpl in H; injection H as <-
           end.
    all: split; [reflexivity|split; [f_equal; lia|]].
    all: intros gg Hg; injection Hg as <-.
    all: unfold scan_frame, raw_of, frames_of.
    all: change (session_extract rain (cfg s)) with (extract rain s).
    all: match goal with H : extract _ _ _ = _ |- _ => rewrite H end.
    all: split; [reflexivity|assumption].
  - destruct grids as [|g0 rest]; simpl in H.
    + injection H as <- <- <-; split; [reflexivity|discriminate].
    + crunch H.
      all: simpl in H; injection H as <- <- <-.
      all: split; [reflexivity|]; intros l' gs Hr; try discriminate.
      all: injection Hr as <- <-; simpl.
      all: repeat match goal with
             | H : snd ([], Ok _) = Ok _ |- _ => simpl in H; injection H as <-
             end.
      all: split; [reflexivity|split; [reflexivity|]].
      all: intros gg Hg; injection Hg as <-.
      all: unfold scan_frame, raw_of, frames_of, session_extract, cfg,
             first_session; simpl.
      all: unfold extract in *; simpl in *.
      all: match goal with
           | H : extract_grid_data _ _ _ _ _ = _ |- _ => rewrite H
           end.
      all: split; [reflexivity|assumption].
Qed.

Lemma rows_of_a_call (grids : list Grid) (s s' : Cell_tracks)
  (t : list event) (r : result Locals) :
  scan_phase rain save_rain callee grids s = (t, s', r) ->
  rows_have_objects rain (call_session s grids) (call_base s)
    (call_scans rain s grids) (tracks s) (tracks s').
Proof.
  intro H; unfold scan_phase, sbind in H.
  destruct (start rain grids s) as [[t1 s1] r1] eqn:Hs.
  apply start_effect in Hs as [Ht Hok].
  destruct r1 as [[l gs]|e];
    [|injection H as <- <- <-; rewrite Ht; intros row Hin; now left].
  destruct (Hok l gs eq_refl) as (Hcfg & Hscan & Hcur).
  destruct (scan_loop _ _ _ _ l gs s1) as [[t2 s2] r2] eqn:Hloop.
  injection H as <- <- <-.
  rewrite <- Hcfg.
  apply (scan_loop_rows (call_base s) (tracks s) _ l gs s1 t2 s2 r2 0%nat _
           Hloop).
  - rewrite Hscan; f_equal; lia.
  - rewrite Ht; intros row Hin; now left.
  - intros g Hg; destruct (Hcur g Hg) as [Hp Hfr].
    split; [simpl; now rewrite Hp|exact Hfr].
Qed.


(** *** Progress on well-formed scans *)

Lemma artificially_zero_ok (r raw : matrix Z) :
  concat r <> [] -> concat raw <> [] ->
  exists b, artificially_zero (Some r) raw = ([], Ok b).
Proof.
  intros Hr Hraw.
  destruct (NpFacts.np_max_ok r Hr) as (m1 & Hm1 & _).
  destruct (NpFacts.np_max_ok raw Hraw) as (m & Hm & _).
  unfold artificially_zero, np_max_opt, bind, lift, ret.
  rewrite Hm1; simpl.
  destruct (30 <? m1); [rewrite Hm; simpl|]; eauto.
Qed.

Lemma skip_erroneous_ok (s : Cell_tracks) (r : matrix Z) (rest : list Grid) :
  concat r <> [] ->
  forall g,
  Forall (wf_scan rain (cfg s)) (g :: rest) ->
  exists tr nxt gs, skip_erroneous rain s (Some r) g rest = (tr, Ok (nxt, gs)).
Proof.
  intro Hr; induction rest as [|g' rest' IH]; intros g Hwf.
  all: rewrite skip_erroneous_eq.
  all: pose proof (Forall_inv Hwf) as [Hraw _].
  all: destruct (artificially_zero_ok r _ Hr Hraw) as [b ->].
  all: unfold bind, ret, emit; destruct b; simpl; eauto.
  destruct (IH g' (Forall_inv_tail Hwf)) as (tr & nxt & gs & ->); eauto.
Qed.

Lemma pull_next_ok (s : Cell_tracks) (r : matrix Z) (grids : list Grid) :
  concat r <> [] -> Forall (wf_scan rain (cfg s)) grids ->
  exists tr nxt gs, pull_next rain s (Some r) grids = (tr, Ok (nxt, gs)).
Proof.
  intros Hr Hwf; destruct grids as [|g rest]; simpl.
  - unfold ret; eauto.
  - now apply skip_erroneous_ok.
Qed.

Lemma advance_ok (g1 : Grid) (l : Locals) (grids : list Grid)
  (s : Cell_tracks) (r : matrix Z) :
  newRain l = true \/ frame1 l <> None ->
  record s <> None ->
  raw2 l = Some r -> concat r <> [] ->
  Forall (wf_scan rain (cfg s)) grids ->
  exists t s' sc l' gs, advance rain g1 l grids s = (t, s', Ok (sc, l', gs)).
Proof.
  intros Hnew Hrec Hraw Hr Hwf.
  destruct (pull_next_ok s r grids Hr Hwf) as (tr & nxt & gs & Hpull).
  assert (Hnxt : forall g2, nxt = Some g2 -> wf_scan rain (cfg s) g2).
  { intros g2 ->; apply pull_next_processed in Hpull as (_ & _ & pre & ->).
    apply Forall_app in Hwf as [_ Hwf]; now apply Forall_inv in Hwf. }
  destruct (advance rain g1 l grids s) as [[t s'] [[[sc l'] gs']|e]] eqn:H;
    [eauto 6|exfalso].
  assert (Hfirst : newRain l = false -> frame1 l = None -> False).
  { intros Hn Hf; destruct Hnew as [Hn'|Hf']; congruence. }
  unfold advance in H; unfold_st H.
  destruct (newRain l) eqn:Hn; destruct (frame1 l) as [f1|] eqn:Hf1;
    try (now apply Hfirst); cbn [negb raw1] in H; cbn beta iota zeta in H.
  all: rewrite Hraw, Hpull in H; cbn [snd fst] in H; cbn beta iota zeta in H.
  all: destruct (record s) as [rec|]; [|now apply Hrec].
  all: destruct nxt as [g2|]; [|crunch H; discriminate].
  all: destruct (Hnxt g2 eq_refl) as (_ & f & Hf & _).
  all: unfold scan_frame, frames_of in Hf.
  all: change (session_extract rain (cfg s) g2) with (extract rain s g2) in Hf.
  all: change (snd (cfg s)) with (params s) in Hf.
  all: destruct (extract rain s g2) as [[[[raw rr] fr] co] cl].
  all: rewrite Hf in H.
  all: crunch H; discriminate.
Qed.


(** A scan without objects: its frame is all zero. *)
Lemma no_objects_zero_max (c : Session) (g : Grid) (f : matrix Z) (top : Z) :
  scan_frame rain c g = Some f -> np_max f = Ok top -> top <> 0 ->
  has_objects rain c g.
Proof.
  intros Hf Hmax Hnz; exists f; split; [exact Hf|].
  now apply (NpFacts.np_max_nonzero f top).
Qed.

Lemma scan_loop_TypeError (Harity : fn_arity callee = 2%nat) (fuel : nat) :
  forall l grids s g,
  grid_obj2 l = Some g ->
  raw2 l = Some (raw_of (session_extract rain (cfg s) g)) ->
  scan_frame rain (cfg s) g = Some (frame2 l) ->
  wf_scan rain (cfg s) g -> Forall (wf_scan rain (cfg s)) grids ->
  record s <> None ->
  newRain l = true \/ frame1 l <> None ->
  (length grids < fuel)%nat ->
  Exists (has_objects rain (cfg s))
         (g :: processed_from rain (cfg s) (raw2 l) grids) ->
  exists t s',
    scan_loop rain save_rain callee fuel l grids s = (t, s', Raise TypeError) /\
    In (EvCall CGlobalShift) t /\ tracks s' = tracks s.
Proof.
  induction fuel as [|fuel IH];
    intros l grids s g Hg Hraw Hfr Hwf Hwfs Hrec Hnew Hlen Hex; [lia|].
  simpl; rewrite Hg; unfold sbind.
  destruct Hwf as (Hraw_ne & f & Hf & Hf_ne & Hf_pos).
  rewrite Hfr in Hf; injection Hf as <-.
  destruct (advance_ok g l grids s _ Hnew Hrec Hraw Hraw_ne Hwfs)
    as (ta & sa & sc & la & ga & Ha).
  rewrite Ha.
  apply advance_effect in Ha as (Hcfg & Htr & Hok).
  destruct (Hok sc la ga eq_refl)
    as (Hf1 & Hr1 & Hfb & Hnr & (k0 & Hk0 & Hk1) & (tr & Hpull) & Hnext).
  destruct (NpFacts.np_max_ok (frame2 l) Hf_ne) as (top & Htop & _).
  rewrite <- Hf1 in Htop.
  destruct (Z.eq_dec top 0) as [->|Hnz].
  - (* no objects in this scan: the loop goes on *)
    assert (Hsa : exists rec, record sa = Some rec).
    { unfold scan_of in Hk1; destruct (record sa); [eauto|discriminate]. }
    destruct Hsa as [rec Hsa].
    rewrite (process_empty_frame g sc la sa rec Hsa Htop).
    assert (Hzero : all_zero (frame2 l)).
    { apply NpFacts.np_max_zero_nonneg; [exact Hf_pos|now rewrite <- Hf1]. }
    apply Exists_cons in Hex as [(f' & Hf' & Hno)|Hex];
      [rewrite Hfr in Hf'; injection Hf' as <-; now destruct Hno|].
    apply pull_next_processed in Hpull.
    destruct (grid_obj2 la) as [g2|] eqn:Hg2;
      [|destruct Hpull as [Hnil _]; rewrite Hnil in Hex; inversion Hex].
    destruct Hpull as (Hp & Hlen' & pre & Hpre).
    destruct Hnext as [Hraw2 Hfr2].
    assert (Hwf2 : Forall (wf_scan rain (cfg s)) (g2 :: ga)).
    { rewrite Hpre in Hwfs; now apply Forall_app in Hwfs. }
    assert (Hc2 : cfg (set_current_objects None sa) = cfg s) by exact Hcfg.
    specialize (IH (with_newRain true la) ga (set_current_objects None sa) g2).
    rewrite Hc2 in IH.
    cbn [with_newRain grid_obj2 raw2 frame2 newRain frame1] in IH.
    destruct IH as (t2 & s2 & Hloop & Hin & Htr2).
    + exact Hg2.
    + exact Hraw2.
    + exact Hfr2.
    + now apply Forall_inv in Hwf2.
    + now apply Forall_inv_tail in Hwf2.
    + simpl; now rewrite Hsa.
    + now left.
    + lia.
    + rewrite Hraw2, <- Hp; exact Hex.
    + rewrite Hloop.
      exists (ta ++ [EvPrint (MsgNoObjects (scan rec))] ++ t2), s2.
      split; [reflexivity|split].
      * apply in_or_app; right; apply in_or_app; now right.
      * rewrite Htr2; simpl; exact Htr.
  - (* objects: flow estimation is called, and raises *)
    rewrite (process_flow_TypeError g sc la sa top Htop Hnz Harity).
    exists (ta ++ [EvCall CGlobalShift]), sa.
    split; [reflexivity|split; [|exact Htr]].
    apply in_or_app; right; now left.
Qed.



(** With a fresh-object set pending, a scan with objects initialises the
    registry anew. *)
Lemma process_pending (g1 : Grid) (sc : Scan1) (l l' : Locals)
  (s s' : Cell_tracks) (t : list event) (top : Z) :
  newRain l = true -> np_max (frame1' sc) = Ok top -> top <> 0 ->
  process rain save_rain callee g1 sc l s = (t, s', Ok l') ->
  mints_fresh_objects t /\ newRain l' = false.
Proof.
  intros Hn Hmax Hnz H; unfold process in H; unfold_st H.
  rewrite Hmax, Hn in H; cbn [snd fst] in H.
  apply Z.eqb_neq in Hnz; rewrite Hnz in H.
  crunch H; try discriminate.
  simpl in H; injection H as <- <- <-.
  split; [|reflexivity].
  unfold mints_fresh_objects; eexists; reflexivity.
Qed.

(** The table is not touched before the loop. *)
Lemma start_tracks (grids : list Grid) (s : Cell_tracks) :
  tracks (instance_of (start rain grids s)) = tracks s.
Proof.
  destruct (start rain grids s) as [[t s'] r] eqn:H; unfold instance_of; simpl.
  unfold start in H; unfold_st H.
  crunch H; simpl in H; injection H as <- <- <-; reflexivity.
Qed.


Lemma start_fresh_ok (s0 : Cell_tracks) (g0 : Grid) (rest : list Grid) :
  uninitialized s0 ->
  wf_scan rain (first_session s0 (g0 :: rest)) g0 ->
  exists t s1 l, start rain (g0 :: rest) s0 = (t, s1, Ok (l, rest)).
Proof.
  intros (Hrec & _ & _) (_ & f & Hf & _).
  unfold scan_frame, frames_of, session_extract, first_session in Hf.
  simpl in Hf.
  unfold start; unfold_st_goal; rewrite Hrec; simpl.
  unfold extract; simpl.
  destruct (extract_grid_data g0 (field s0) (Some (get_grid_size g0))
              (params s0) rain) as [[[[raw rr] fr] co] cl].
  simpl in *; rewrite Hf; simpl; eauto.
Qed.

(** [drop] returns a frame without the rows of the label. *)
Lemma DataFrame_drop_removes (label : Z) (df : DataFrame)
  (row : Row Uid Props) :
  In row df -> row_scan row = label ->
  exists dropped,
    DataFrame_drop label df = Ok dropped /\ ~ In row dropped.
Proof.
  intros Hin Hlabel; unfold DataFrame_drop.
  assert (Hex : existsb (fun r => row_scan r =? label) df = true).
  { apply existsb_exists; exists row; split; [exact Hin|lia]. }
  rewrite Hex; eexists; split; [reflexivity|].
  rewrite filter_In; intros [_ Hkeep].
  apply negb_true_iff, Z.eqb_neq in Hkeep; lia.
Qed.

(** C4 (the claim fails on the code).  On an instance that holds tracks, let
    [row] be a row of scan [record.scan + 1], the terminal scan of the
    previous call.  The frame that [drop] returns on line 194 does not
    contain [row], but the table of the instance is not changed by the
    resume step: [row] is still in it when the new scans are about to be
    processed. *)
Theorem resume_keeps_superseded_rows (grids : list Grid) (s : Cell_tracks)
  (r : Record_ Uid) (row : Row Uid Props) :
  record s = Some r -> In row (tracks s) -> row_scan row = scan r + 1 ->
  (exists dropped,
     DataFrame_drop (scan r + 1) (tracks s) = Ok dropped /\
     ~ In row dropped) /\
  tracks (instance_of (start rain grids s)) = tracks s /\
  In row (tracks (instance_of (start rain grids s))).
Proof.
  intros _ Hin Hscan; split; [now apply DataFrame_drop_removes|].
  rewrite start_tracks; auto.
Qed.

End Loop.

(** *** The call on line 271 *)

Section Line271.

Context {E : Externals} {D : Debugger}.

Variable cross_power_surface : matrix Z -> matrix Z -> matrix Q.
Variable gaussian_filter : matrix Q -> Q -> matrix Q.
Variable post_tracks : Cell_tracks -> Cell_tracks.
Variable get_system_tracks : Cell_tracks -> Cell_tracks.

(** Three arguments for two parameters. *)
Lemma three_arguments_for_two (a b c : value) :
  py_call (get_global_shift_fn cross_power_surface gaussian_filter) [a; b; c]
  = raise TypeError.
Proof. reflexivity. Qed.

(** C2, amended.  [get_tracks] calls [get_global_shift], a function of two
    parameters, with three arguments: the call raises [TypeError] whatever
    the arguments are.  So a first call on well-formed scans, one of which
    is processed (not discarded on line 226) and has a detection frame that
    is not empty, reaches the flow-estimation step and ends there with
    [TypeError]; no row has been written. *)
Theorem get_tracks_flow_estimation_raises (s0 : Cell_tracks)
  (grids : list Grid) (rain save_rain : bool) :
  uninitialized s0 ->
  Forall (wf_scan rain (first_session s0 grids)) grids ->
  Exists (has_objects rain (first_session s0 grids))
         (processed rain (first_session s0 grids) grids) ->
  (forall a b c,
     py_call (get_global_shift_fn cross_power_surface gaussian_filter)
             [a; b; c] = raise TypeError) /\
  outcome_of (get_tracks cross_power_surface gaussian_filter post_tracks
                get_system_tracks grids rain save_rain s0)
  = Raise TypeError /\
  In (EvCall CGlobalShift)
     (events_of (get_tracks cross_power_surface gaussian_filter post_tracks
                   get_system_tracks grids rain save_rain s0)) /\
  tracks (instance_of
            (get_tracks cross_power_surface gaussian_filter post_tracks
               get_system_tracks grids rain save_rain s0))
  = [].
Proof.
  intros Hun Hwf Hex; split; [exact three_arguments_for_two|].
  destruct grids as [|g0 rest]; [inversion Hex|].
  destruct (start_fresh_ok rain s0 g0 rest Hun (Forall_inv Hwf))
    as (t1 & s1 & l & Hstart).
  pose proof Hstart as Hs.
  apply (start_fresh rain s0 g0 rest t1 s1 _ Hun) in Hs as [Htr Hok].
  destruct (Hok l rest eq_refl) as (_ & Hcfg & Hscan & Hg & Hraw & Hfr & Hn).
  rewrite <- Hcfg in Hwf, Hex.
  destruct (scan_loop_TypeError rain save_rain
              (get_global_shift_fn cross_power_surface gaussian_filter)
              eq_refl (S (length rest)) l rest s1 g0)
    as (t2 & s2 & Hloop & Hin & Htr2).
  - exact Hg.
  - exact Hraw.
  - exact Hfr.
  - now apply Forall_inv in Hwf.
  - now apply Forall_inv_tail in Hwf.
  - unfold scan_of in Hscan; destruct (record s1); [discriminate|discriminate].
  - now left.
  - lia.
  - rewrite Hraw; exact Hex.
  - unfold get_tracks, get_tracks_calling, scan_phase, sbind.
    rewrite Hstart, Hloop.
    unfold outcome_of, events_of, instance_of; simpl.
    split; [reflexivity|split].
    + apply in_or_app; now right.
    + now rewrite Htr2.
Qed.

End Line271.

(** *** Runs in the small world *)

(** The timestamp test of line 246 looks at [interval.seconds], the
    time-of-day part of the interval: whole days do not count. *)
Lemma seconds_ignore_whole_days (d us : Z) :
  0 <= us < 86400000000 ->
  seconds (timedelta_of_us (d * 86400000000 + us)) = us / 1000000.
Proof.
  intro H; unfold timedelta_of_us; simpl.
  rewrite Z.add_comm, Z.mod_add by lia.
  now rewrite Z.mod_small.
Qed.

Ltac not_all_zero :=
  let H := fresh in
  intro H; cbv in H;
  repeat match goal with
         | H : Forall _ (_ :: _) |- _ => inversion H; clear H; subst
         end;
  cbn beta in *; lia.

Lemma demo_wf (c : Session) (g : grid) :
  concat (g_raw g) <> [] -> concat (g_frame g) <> [] ->
  Forall (Forall (fun x => 0 <= x)) (g_frame g) ->
  TRACK_INTERVAL (snd c) = 0%nat ->
  wf_scan true c g.
Proof.
  intros Hraw Hfr Hpos Hti; split; [exact Hraw|].
  exists (g_frame g); unfold scan_frame; rewrite Hti; auto.
Qed.

Lemma fresh_uninitialized : uninitialized fresh.
Proof. repeat split. Qed.

Lemma demo_wf_S1 : wf_scan true (first_session fresh [S1; S2]) S1.
Proof.
  apply demo_wf; try discriminate; [|reflexivity].
  repeat constructor; lia.
Qed.

Lemma demo_wf_S2 : wf_scan true (first_session fresh [S1; S2]) S2.
Proof.
  apply demo_wf; try discriminate; [|reflexivity].
  repeat constructor; lia.
Qed.

Lemma demo_S1_has_objects :
  has_objects true (first_session fresh [S1; S2]) S1.
Proof. exists cell; split; [reflexivity|not_all_zero]. Qed.

Lemma get_tracks_flow_estimation_raises_witness :
  (forall a b c,
     py_call (get_global_shift_fn surface smooth) [a; b; c] = raise TypeError) /\
  outcome_of (run [S1; S2] fresh) = Raise TypeError /\
  In (EvCall CGlobalShift) (events_of (run [S1; S2] fresh)) /\
  tracks (instance_of (run [S1; S2] fresh)) = [].
Proof.
  apply (get_tracks_flow_estimation_raises (E := world) surface smooth
           (fun s => s) (fun s => s) fresh [S1; S2] true true).
  - exact fresh_uninitialized.
  - constructor; [exact demo_wf_S1|].
    constructor; [exact demo_wf_S2|constructor].
  - left; exact demo_S1_has_objects.
Defined.

(** C2 as stated fails on [S_echo; S_blank].  The detection frame of
    [S_blank] holds an object, but its raw field is entirely zero and
    follows a scan with echoes above 30: line 226 discards it.  The one scan
    that is processed has an empty frame, so the call (with
    [save_rain=False]) returns, and the flow-estimation step is never
    reached. *)
Lemma discarded_scan_counterexample :
  let grids := [S_echo; S_blank] in
  has_objects true (first_session fresh grids) S_blank /\
  processed true (first_session fresh grids) grids = [S_echo] /\
  outcome_of (run_quiet grids fresh) = Ok tt /\
  ~ In (EvCall CGlobalShift) (events_of (run_quiet grids fresh)).
Proof.
  split; [exists cell; split; [reflexivity|not_all_zero]|].
  split; [reflexivity|split; [vm_compute; reflexivity|]].
  vm_compute; intro H.
  repeat (destruct H as [H|H]; [discriminate|]); exact H.
Qed.

(** The state [holding_tracks] is what a completed call on [S1; S2] leaves
    when line 271 goes through. *)
Example holding_tracks_reached :
  instance_of (run3 false [S1; S2] fresh) = holding_tracks.
Proof. vm_compute; reflexivity. Qed.

Lemma resume_keeps_superseded_rows_witness :
  let row := {| row_scan := 1; row_time := Some (10 * minute);
                row_uid := 0%nat; row_props := 0%nat |} in
  (exists dropped,
     DataFrame_drop (0 + 1) (tracks holding_tracks) = Ok dropped /\
     ~ In row dropped) /\
  tracks (instance_of (start true [S3] holding_tracks))
  = tracks holding_tracks /\
  In row (tracks (instance_of (start true [S3] holding_tracks))).
Proof.
  apply (resume_keeps_superseded_rows (E := world) true [S3] holding_tracks
           {| scan := 0; time := Some 0;
              interval := Some (timedelta_of_us (10 * minute));
              uid := [0%nat] |}).
  - reflexivity.
  - right; left; reflexivity.
  - reflexivity.
Defined.

(** C6 (the claim fails on the code).  [S_quiet1] has an empty detection
    frame; [S2] and [S3] hold an object.  In the call on the three scans
    the iteration of [S_quiet1] prints its notice and nothing else: no row,
    no flow estimation, no matching, and the registry is empty.  The
    iteration of [S2], the next frame that is not empty, stops at the
    flow-estimation call of line 271 with [TypeError]: the registry is not
    initialised, no uid is minted and the table stays empty.  With a callee
    that accepts the three arguments the same iteration initialises the
    registry, and the rows of the scans 1 and 2 carry the fresh uid 0; the
    empty scan 0 has no row. *)
Theorem empty_frame_then_no_fresh_uid :
  (let x := run_quiet [S_quiet1; S2; S3] fresh in
   events_of x = [EvPrint (MsgNoObjects 0); EvCall CGlobalShift] /\
   outcome_of x = Raise TypeError /\
   current_objects (instance_of x) = None /\
   tracks (instance_of x) = []) /\
  (let x := run3 false [S_quiet1; S2; S3] fresh in
   firstn 4 (events_of x)
   = [EvPrint (MsgNoObjects 0); EvCall CGlobalShift; EvCall CGetPairs;
      EvCall CInitObjects] /\
   outcome_of x = Ok tt /\
   map row_scan (tracks (instance_of x)) = [1; 2] /\
   map row_uid (tracks (instance_of x)) = [0%nat; 0%nat]).
Proof. vm_compute; repeat split. Qed.

(** C3 (the claim fails on the code).  On two scans without objects and
    with [save_rain=False], one call on [S_quiet1; S_quiet2] returns, and so
    does the call on [S_quiet1]; the resumed call on [S_quiet2] raises
    [KeyError] from [drop] on line 194 before it looks at any scan.  On the
    scans [S1; S2], which hold an object, every call ends with an exception
    and the table stays empty: [TypeError] at the flow-estimation step, then
    [KeyError] in the resumed call.  With a callee that accepts the three
    arguments of line 271 (and [save_rain=False]), one call on [S1; S2; S3]
    writes the scans 0, 1 and 2, while the call on [S1; S2] followed by the
    call on [S3] stops with [UnboundLocalError] at the first use of [frame1]
    and leaves the scans 0 and 1. *)
Theorem resumption_is_not_equivalent :
  (outcome_of (run_quiet [S_quiet1; S_quiet2] fresh) = Ok tt /\
   outcome_of (run_quiet [S_quiet1] fresh) = Ok tt /\
   (let resumed :=
      run_quiet [S_quiet2] (instance_of (run_quiet [S_quiet1] fresh)) in
    outcome_of resumed = Raise KeyError /\ events_of resumed = [])) /\
  (outcome_of (run [S1; S2] fresh) = Raise TypeError /\
   tracks (instance_of (run [S1; S2] fresh)) = []) /\
  (outcome_of (run [S1] fresh) = Raise TypeError /\
   outcome_of (run [S2] (instance_of (run [S1] fresh))) = Raise KeyError /\
   tracks (instance_of (run [S2] (instance_of (run [S1] fresh)))) = []) /\
  (outcome_of (run3 false [S1; S2; S3] fresh) = Ok tt /\
   map row_scan (tracks (instance_of (run3 false [S1; S2; S3] fresh)))
   = [0; 1; 2]) /\
  (outcome_of (run3 false [S1; S2] fresh) = Ok tt /\
   outcome_of (run3 false [S3] (instance_of (run3 false [S1; S2] fresh)))
   = Raise UnboundLocalError /\
   map row_scan
     (tracks (instance_of
                (run3 false [S3] (instance_of (run3 false [S1; S2] fresh)))))
   = [0; 1]).
Proof. vm_compute; repeat split. Qed.

(** C5 (the claim fails on the code).  [S_next_day] follows [S2] after
    exactly one day, 86400 seconds: the transition is not treated as a
    discontinuity.  The registry keeps the object, [newRain] stays unset
    and nothing is printed.  After 1701 seconds ([S_late]) the registry is
    cleared. *)
Theorem day_long_gap_goes_unnoticed :
  g_time S_next_day - g_time S2 = 86400 * 1000000 /\
  (let x := advance true S2 tracking_locals [S_next_day] tracking in
   events_of x = [] /\
   current_objects (instance_of x) = Some [0%nat] /\
   option_map newRain
     (match outcome_of x with Ok (_, l, _) => Some l | Raise _ => None end)
   = Some false) /\
  (let x := advance true S2 tracking_locals [S_late] tracking in
   events_of x = [EvPrint (MsgTimeDiscontinuity (Some (10 * minute)))] /\
   current_objects (instance_of x) = None /\
   option_map newRain
     (match outcome_of x with Ok (_, l, _) => Some l | Raise _ => None end)
   = Some true).
Proof. vm_compute; repeat split. Qed.

End TracksProps.

(** ** More on the quadrant swap *)

Module SwapProps.

Import QuadrantSwap.

Lemma nth_error_rot {A} (k i : nat) (l : list A) :
  (k <= length l)%nat -> (i < length l)%nat ->
  nth_error (rot k l) i = nth_error l ((i + k) mod length l).
Proof.
  intros Hk Hi; unfold rot.
  destruct (Nat.lt_ge_cases i (length l - k)) as [Hlt|Hge].
  - rewrite nth_error_app1 by (rewrite length_skipn; lia).
    rewrite nth_error_skipn, Nat.mod_small by lia.
    f_equal; lia.
  - rewrite nth_error_app2 by (rewrite length_skipn; lia).
    rewrite length_skipn, nth_error_firstn.
    destruct (Nat.ltb_spec (i - (length l - k)) k) as [_|H]; [|lia].
    f_equal.
    replace (i + k)%nat with ((i - (length l - k)) + 1 * length l)%nat by lia.
    rewrite Nat.Div0.mod_add, Nat.mod_small; lia.
Qed.

Lemma rot_map {A B} (f : A -> B) (k : nat) (l : list A) :
  rot k (map f l) = map f (rot k l).
Proof. unfold rot; now rewrite map_app, skipn_map, firstn_map. Qed.

Lemma rot_rot_back {A} (k : nat) (l : list A) :
  (k <= length l)%nat -> rot (length l - k) (rot k l) = l.
Proof.
  intro Hk; unfold rot.
  assert (Hs : length (skipn k l) = (length l - k)%nat) by apply length_skipn.
  rewrite <- Hs at 1 2.
  rewrite skipn_app, firstn_app, skipn_all, firstn_all, Nat.sub_diag.
  simpl; rewrite app_nil_r; apply firstn_skipn.
Qed.

Lemma rot_Permutation {A} (k : nat) (l : list A) : Permutation (rot k l) l.
Proof.
  unfold rot; rewrite <- (firstn_skipn k l) at 3.
  apply Permutation_app_comm.
Qed.

Lemma concat_map_Permutation {A} (f : list A -> list A) (m : matrix A) :
  (forall r, Permutation (f r) r) ->
  Permutation (concat (map f m)) (concat m).
Proof.
  intro Hf; induction m as [|r rs IH]; simpl; [constructor|].
  now apply Permutation_app.
Qed.

(** X1.  The sample that the swap puts at [(i, j)] is the one that was at
    [((i + rd) mod R, (j + cd) mod C)]: [fft_shift] rotates the rows up by
    [rd] and the columns left by [cd]. *)
Theorem fft_shift_entry {A} (R C rd cd i j : nat) (m : matrix A) :
  rect R C m -> (rd <= R)%nat -> (cd <= C)%nat -> (i < R)%nat -> (j < C)%nat ->
  at2 (fft_shift m rd cd) i j = at2 m ((i + rd) mod R) ((j + cd) mod C).
Proof.
  intros [HR HC] Hrd Hcd Hi Hj.
  rewrite fft_shift_rot; unfold at2.
  rewrite nth_error_map, nth_error_rot by lia.
  rewrite HR.
  destruct (nth_error m ((i + rd) mod R)) as [r|] eqn:E; [|reflexivity].
  simpl.
  assert (Hr : length r = C).
  { rewrite Forall_forall in HC; apply HC; eapply nth_error_In; exact E. }
  rewrite nth_error_rot by lia. now rewrite Hr.
Qed.

Lemma fft_shift_entry_witness :
  at2 (fft_shift surface33 2 2) 0 1
  = at2 surface33 ((0 + 2) mod 3) ((1 + 2) mod 3).
Proof.
  apply (fft_shift_entry 3 3 2 2 0 1 surface33); try lia.
  split; [reflexivity|repeat constructor].
Defined.

(** X2.  Swapping again with the complementary pivot [(R - rd, C - cd)]
    gives the array back. *)
Theorem fft_shift_inverse {A} (R C rd cd : nat) (m : matrix A) :
  rect R C m -> (rd <= R)%nat -> (cd <= C)%nat ->
  fft_shift (fft_shift m rd cd) (R - rd) (C - cd) = m.
Proof.
  intros [HR HC] Hrd Hcd.
  rewrite !fft_shift_rot, rot_map, map_map.
  rewrite <- HR at 1; rewrite rot_rot_back by lia.
  rewrite <- (map_id m) at 2.
  apply map_ext_in; intros r Hin.
  rewrite Forall_forall in HC; specialize (HC r Hin).
  rewrite <- HC at 1; apply rot_rot_back; lia.
Qed.

Lemma fft_shift_inverse_witness :
  fft_shift (fft_shift surface33 2 2) (3 - 2) (3 - 2) = surface33.
Proof.
  apply (fft_shift_inverse 3 3 2 2 surface33); try lia.
  split; [reflexivity|repeat constructor].
Defined.

(** X3.  Whatever the pivot, in range or not, the swapped array holds the
    samples of its argument, each as often as the argument does. *)
Theorem fft_shift_permutes {A} (m : matrix A) (rd cd : nat) :
  Permutation (concat (fft_shift m rd cd)) (concat m).
Proof.
  rewrite fft_shift_rot.
  transitivity (concat (rot rd m)).
  - apply concat_map_Permutation; intro r; apply rot_Permutation.
  - unfold rot; rewrite concat_app.
    rewrite <- (firstn_skipn rd m) at 3.
    rewrite concat_app; apply Permutation_app_comm.
Qed.

End SwapProps.

(** ** More on the flow window *)

Module WindowProps.

Import NpFacts QuadrantSwap SliceFacts PhaseCorrelationProps.

(** X4.  For an object inside an [R] x [C] field, the row bounds and the
    lower column bound that [get_ambient_flow] computes are clipped to the
    field: [0 <= row_lb <= row_ub <= R], [row_lb < R], [0 <= col_lb < C]. *)
Theorem flow_window_clipped_bounds (e : ObjExtent) (R C : nat)
  (params : Params) (grid_size : GridSize) :
  valid_extent e R C params grid_size ->
  let '(row_lb, row_ub, col_lb, col_ub) :=
    flow_window e (R, C) params grid_size in
  0 <= row_lb <= row_ub /\ row_lb < Z.of_nat R /\ row_ub <= Z.of_nat R /\
  0 <= col_lb < Z.of_nat C.
Proof.
  intro Hv; pose proof (flow_window_valid e R C params grid_size Hv) as H.
  revert H; unfold flow_window; cbv zeta; simpl fst; simpl snd.
  lia.
Qed.

Lemma flow_window_clipped_bounds_witness :
  let '(row_lb, row_ub, col_lb, col_ub) :=
    flow_window ext55 (10%nat, 10%nat) default_params cpol in
  0 <= row_lb <= row_ub /\ row_lb < Z.of_nat 10 /\ row_ub <= Z.of_nat 10 /\
  0 <= col_lb < Z.of_nat 10.
Proof.
  apply (flow_window_clipped_bounds ext55 10 10 default_params cpol).
  unfold valid_extent; simpl; repeat split; lra.
Defined.

Lemma py_slice_to_end {A} (a b : Z) (l : list A) :
  Z.of_nat (length l) <= b -> py_slice a b l = py_slice a (Z.of_nat (length l)) l.
Proof.
  intro Hb; unfold py_slice, slice_bound.
  destruct (b <? 0) eqn:E1; [lia|].
  destruct (Z.of_nat (length l) <? 0) eqn:E2; [lia|].
  rewrite Nat2Z.id, Nat.min_id.
  replace (Nat.min (Z.to_nat b) (length l)) with (length l) by lia.
  reflexivity.
Qed.

Lemma slice2_to_last_column (R C : nat) (a b c d : Z) (img : matrix Z) :
  rect R C img -> Z.of_nat C <= d ->
  slice2 a b c d img = slice2 a b c (Z.of_nat C) img.
Proof.
  intros [HR HC] Hd; unfold slice2.
  apply map_ext_in; intros r Hin.
  assert (Hr : length r = C).
  { pose proof (py_slice_Forall (fun r => length r = C) a b img HC) as HF.
    rewrite Forall_forall in HF; now apply HF. }
  rewrite <- Hr; apply py_slice_to_end; lia.
Qed.

Lemma slice2_rect {A} (R C : nat) (a b c d : Z) (m : matrix A) :
  rect R C m ->
  rect (slice_bound R b - slice_bound R a) (slice_bound C d - slice_bound C c)
       (slice2 a b c d m).
Proof.
  intros [HR HC]; unfold slice2; split.
  - now rewrite length_map, py_slice_length, HR.
  - apply Forall_map, py_slice_Forall.
    eapply Forall_impl; [|exact HC].
    intros r Hr; cbn beta; now rewrite py_slice_length, Hr.
Qed.

Lemma binarize_rect (R C : nat) (m : matrix Z) :
  rect R C m -> rect R C (binarize m).
Proof.
  intros [HR HC]; unfold binarize; split.
  - now rewrite length_map.
  - apply Forall_map; eapply Forall_impl; [|exact HC].
    intros r Hr; cbn beta; now rewrite length_map.
Qed.

Section Ambient.

Variable cross_power_surface : matrix Z -> matrix Z -> matrix Q.
Variable gaussian_filter : matrix Q -> Q -> matrix Q.
Context {D : Debugger}.
Variable window_bounds :
  ObjExtent -> Params -> GridSize -> result (Z * Z * Z * Z).


Hypothesis cross_power_surface_shape :
  forall R C a b, rect R C a -> rect R C b -> rect R C (cross_power_surface a b).
Hypothesis gaussian_filter_shape :
  forall R C m sigma, rect R C m -> rect R C (gaussian_filter m sigma).


End Ambient.



End WindowProps.

(** ** The peak of the covariance surface *)

Module PeakProps.

Import NpFacts QuadrantSwap SliceFacts PhaseCorrelationProps.

Lemma Qmax_ge_l (a b : Q) : (a <= Qmax a b)%Q.
Proof.
  unfold Qmax; destruct (Qle_bool a b) eqn:E.
  - now apply Qle_bool_iff.
  - apply Qle_refl.
Qed.

Lemma Qmax_ge_r (a b : Q) : (b <= Qmax a b)%Q.
Proof.
  unfold Qmax; destruct (Qle_bool a b) eqn:E.
  - apply Qle_refl.
  - destruct (Qlt_le_dec b a) as [L|L]; [now apply Qlt_le_weak|].
    apply Qle_bool_iff in L; congruence.
Qed.

Lemma fold_Qmax_ge_init (xs : list Q) (x : Q) : (x <= fold_left Qmax xs x)%Q.
Proof.
  revert x; induction xs as [|y ys IH]; intro x; simpl; [apply Qle_refl|].
  apply (Qle_trans _ (Qmax x y)); [apply Qmax_ge_l|apply IH].
Qed.

Lemma fold_Qmax_ge_elem (xs : list Q) (x y : Q) :
  In y xs -> (y <= fold_left Qmax xs x)%Q.
Proof.
  revert x; induction xs as [|z zs IH]; intros x Hin; simpl in *; [easy|].
  destruct Hin as [->|Hin].
  - apply (Qle_trans _ (Qmax x y)); [apply Qmax_ge_r|apply fold_Qmax_ge_init].
  - now apply IH.
Qed.

Lemma np_max_Q_ge (m : matrix Q) (top : Q) :
  np_max_Q m = Ok top -> forall v, In v (concat m) -> (v <= top)%Q.
Proof.
  unfold np_max_Q; destruct (concat m) as [|x xs]; [discriminate|].
  intros H v Hin; injection H as <-.
  destruct Hin as [<-|Hin];
    [apply fold_Qmax_ge_init|now apply fold_Qmax_ge_elem].
Qed.

Lemma at2_In {A} (m : matrix A) (i j : nat) (v : A) :
  at2 m i j = Some v -> In v (concat m).
Proof.
  unfold at2; destruct (nth_error m i) as [r|] eqn:E; [|discriminate].
  intro H; apply in_concat; exists r; split; eapply nth_error_In; eauto.
Qed.

Lemma find_index_sound {A} (p : A -> bool) (l : list A) (j : nat) :
  find_index p l = Some j ->
  (exists x, nth_error l j = Some x /\ p x = true) /\
  forall j' x', (j' < j)%nat -> nth_error l j' = Some x' -> p x' = false.
Proof.
  revert j; induction l as [|y ys IH]; intros j H; [discriminate|].
  simpl in H; destruct (p y) eqn:Ey.
  - injection H as <-; split; [exists y; auto|intros; lia].
  - destruct (find_index p ys) as [k|]; [|discriminate].
    injection H as <-.
    destruct (IH k eq_refl) as [Hx Hbefore]; split; [exact Hx|].
    intros [|j'] x' Hlt Hn; simpl in Hn; [congruence|].
    apply (Hbefore j'); [lia|exact Hn].
Qed.

Lemma find_index_none {A} (p : A -> bool) (l : list A) :
  find_index p l = None -> forall x, In x l -> p x = false.
Proof.
  induction l as [|y ys IH]; intros H x Hin; [easy|].
  simpl in H; destruct (p y) eqn:Ey; [discriminate|].
  destruct (find_index p ys); [discriminate|].
  destruct Hin as [<-|Hin]; auto.
Qed.

Lemma argwhere_from_sound {A} (p : A -> bool) (m : matrix A) :
  forall i0 i j,
  argwhere_from p i0 m = Some (i, j) ->
  (i0 <= i)%nat /\
  (exists x, at2 m (i - i0) j = Some x /\ p x = true) /\
  forall i' j' x', at2 m i' j' = Some x' ->
    (i' < i - i0 \/ (i' = i - i0 /\ j' < j))%nat -> p x' = false.
Proof.
  induction m as [|r rs IH]; intros i0 i j H; [discriminate|].
  simpl in H; destruct (find_index p r) as [k|] eqn:Ek.
  - injection H as <- <-.
    destruct (find_index_sound p r k Ek) as [(x & Hx & Hp) Hb].
    rewrite Nat.sub_diag; split; [lia|split].
    + exists x; unfold at2; simpl; auto.
    + intros i' j' x' Hat [Hlt|[-> Hlt]]; [lia|].
      unfold at2 in Hat; simpl in Hat; eauto.
  - destruct (IH (S i0) i j H) as (Hle & (x & Hx & Hp) & Hb).
    split; [lia|].
    replace (i - i0)%nat with (S (i - S i0)) by lia.
    split; [exists x; unfold at2 in *; simpl; auto|].
    intros [|i'] j' x' Hat Hor.
    + unfold at2 in Hat; simpl in Hat.
      apply (find_index_none p r Ek); eapply nth_error_In; eauto.
    + apply (Hb i' j'); [exact Hat|lia].
Qed.

Lemma at2_bounds {A} (R C : nat) (m : matrix A) (i j : nat) (v : A) :
  rect R C m -> at2 m i j = Some v -> (i < R /\ j < C)%nat.
Proof.
  intros [HR HC] H; unfold at2 in H.
  destruct (nth_error m i) as [r|] eqn:E; [|discriminate].
  assert (Hi : (i < length m)%nat) by (apply nth_error_Some; congruence).
  assert (Hj : (j < length r)%nat) by (apply nth_error_Some; congruence).
  rewrite Forall_forall in HC; rewrite (HC r) in Hj by (eapply nth_error_In; eauto).
  lia.
Qed.

Section Peak.

Variable cross_power_surface : matrix Z -> matrix Z -> matrix Q.
Variable gaussian_filter : matrix Q -> Q -> matrix Q.
Context {D : Debugger}.

Lemma fft_flowvectors_inv (im1 im2 : matrix Z) (gs : bool) (shift : Z * Z) :
  outcome (fft_flowvectors cross_power_surface gaussian_filter im1 im2 gs)
  = Ok (Some shift) ->
  exists top i j,
    np_max_Q (cov_smooth cross_power_surface gaussian_filter im1 im2) = Ok top /\
    argwhere_first (fun v => Qeq_bool v top)
      (cov_smooth cross_power_surface gaussian_filter im1 im2) = Ok (i, j) /\
    shift = (Z.of_nat i - (Z.of_nat (fst (shape im1))
                           - Z.of_nat (ceil_half (fst (shape im1)))),
             Z.of_nat j - (Z.of_nat (snd (shape im1))
                           - Z.of_nat (ceil_half (snd (shape im1))))).
Proof.
  unfold fft_flowvectors, cov_smooth.
  destruct (no_signal_gate im1 im2 gs) as [t [[|]|e]];
    cbn [bind outcome snd ret]; try discriminate.
  rewrite set_trace_eq; destruct at_prompt; [|discriminate].
  cbv zeta; unfold bind, lift, ret.
  destruct (np_max_Q _) as [top|e] eqn:Et; [|discriminate].
  destruct (argwhere_first _ _) as [[i j]|e] eqn:Ea; [|discriminate].
  cbn; intro H; injection H as <-.
  exists top, i, j; auto.
Qed.

(** X7.  A shift that [fft_flowvectors] returns points at a maximum of the
    smoothed surface, and at the first one in row-major order: every sample
    is at most the peak, and every sample before it is strictly below. *)
Theorem fft_flowvectors_first_peak (im1 im2 : matrix Z) (gs : bool)
  (dr dc : Z) :
  outcome (fft_flowvectors cross_power_surface gaussian_filter im1 im2 gs)
  = Ok (Some (dr, dc)) ->
  let R := fst (shape im1) in
  let C := snd (shape im1) in
  let cov := cov_smooth cross_power_surface gaussian_filter im1 im2 in
  exists i j peak,
    dr = Z.of_nat i - (Z.of_nat R - Z.of_nat (ceil_half R)) /\
    dc = Z.of_nat j - (Z.of_nat C - Z.of_nat (ceil_half C)) /\
    at2 cov i j = Some peak /\
    (forall i' j' v, at2 cov i' j' = Some v -> (v <= peak)%Q) /\
    (forall i' j' v, at2 cov i' j' = Some v ->
       (i' < i \/ (i' = i /\ j' < j))%nat -> (v < peak)%Q).
Proof.
  intros H R C cov.
  destruct (fft_flowvectors_inv im1 im2 gs (dr, dc) H)
    as (top & i & j & Htop & Harg & Hshift).
  injection Hshift as -> ->.
  unfold argwhere_first in Harg.
  destruct (argwhere_from _ 0%nat _) as [[i0 j0]|] eqn:Ea; [|discriminate].
  injection Harg as -> ->.
  destruct (argwhere_from_sound _ _ _ _ _ Ea) as (_ & (x & Hx & Hp) & Hb).
  rewrite Nat.sub_0_r in *.
  apply Qeq_bool_iff in Hp.
  exists i, j, x; repeat split; auto.
  - intros i' j' v Hat; rewrite Hp.
    apply (np_max_Q_ge _ _ Htop); eapply at2_In; eauto.
  - intros i' j' v Hat Hor; rewrite Hp.
    specialize (Hb i' j' v Hat Hor).
    assert (Hle : (v <= top)%Q)
      by (apply (np_max_Q_ge _ _ Htop); eapply at2_In; eauto).
    apply Qle_lteq in Hle as [Hlt|Heq]; [exact Hlt|].
    apply Qeq_bool_iff in Heq; congruence.
Qed.

Hypothesis cross_power_surface_shape :
  forall R C a b, rect R C a -> rect R C b -> rect R C (cross_power_surface a b).
Hypothesis gaussian_filter_shape :
  forall R C m sigma, rect R C m -> rect R C (gaussian_filter m sigma).

Lemma cov_smooth_rect (R C : nat) (im1 im2 : matrix Z) :
  rect R C im1 -> rect R C im2 ->
  rect R C (cov_smooth cross_power_surface gaussian_filter im1 im2).
Proof.
  intros H1 H2; unfold cov_smooth; cbv zeta.
  apply gaussian_filter_shape; unfold fft_crosscov.
  apply fft_shift_rect; now apply cross_power_surface_shape.
Qed.

(** X8.  On [R] x [C] fields a returned shift [(dr, dc)] satisfies
    [-floor(R/2) <= dr < ceil(R/2)] and [-floor(C/2) <= dc < ceil(C/2)]. *)
Theorem fft_flowvectors_shift_range (R C : nat) (im1 im2 : matrix Z)
  (gs : bool) (dr dc : Z) :
  (0 < R)%nat -> rect R C im1 -> rect R C im2 ->
  outcome (fft_flowvectors cross_power_surface gaussian_filter im1 im2 gs)
  = Ok (Some (dr, dc)) ->
  - Z.of_nat (R / 2) <= dr < Z.of_nat (ceil_half R) /\
  - Z.of_nat (C / 2) <= dc < Z.of_nat (ceil_half C).
Proof.
  intros HR H1 H2 H.
  destruct (fft_flowvectors_inv im1 im2 gs (dr, dc) H)
    as (top & i & j & Htop & Harg & Hshift).
  rewrite (shape_rect R C im1 H1 HR) in Hshift; simpl in Hshift.
  injection Hshift as -> ->.
  unfold argwhere_first in Harg.
  destruct (argwhere_from _ 0%nat _) as [[i0 j0]|] eqn:Ea; [|discriminate].
  injection Harg as -> ->.
  destruct (argwhere_from_sound _ _ _ _ _ Ea) as (_ & (x & Hx & _) & _).
  rewrite Nat.sub_0_r in Hx.
  destruct (at2_bounds R C _ _ _ _ (cov_smooth_rect R C im1 im2 H1 H2) Hx)
    as [Hi Hj].
  pose proof (ceil_half_floor R) as HfR.
  pose proof (ceil_half_floor C) as HfC.
  pose proof (ceil_half_bounds R).
  pose proof (ceil_half_bounds C).
  lia.
Qed.

End Peak.

Lemma fft_flowvectors_first_peak_witness :
  let R := fst (shape field33) in
  let C := snd (shape field33) in
  let cov := cov_smooth surface smooth field33 field33 in
  exists i j peak,
    0 = Z.of_nat i - (Z.of_nat R - Z.of_nat (ceil_half R)) /\
    1 = Z.of_nat j - (Z.of_nat C - Z.of_nat (ceil_half C)) /\
    at2 cov i j = Some peak /\
    (forall i' j' v, at2 cov i' j' = Some v -> (v <= peak)%Q) /\
    (forall i' j' v, at2 cov i' j' = Some v ->
       (i' < i \/ (i' = i /\ j' < j))%nat -> (v < peak)%Q).
Proof.
  apply (fft_flowvectors_first_peak surface smooth field33 field33 true 0 1).
  reflexivity.
Defined.

Lemma fft_flowvectors_shift_range_witness :
  - Z.of_nat (3 / 2) <= 0 < Z.of_nat (ceil_half 3) /\
  - Z.of_nat (3 / 2) <= 1 < Z.of_nat (ceil_half 3).
Proof.
  apply (fft_flowvectors_shift_range surface smooth surface_shape smooth_shape
           3 3 field33 field33 true 0 1).
  - lia.
  - exact rect33.
  - exact rect33.
  - reflexivity.
Defined.

End PeakProps.

(** ** The shift of a field against itself *)

Module SelfShiftProps.

Import NpFacts QuadrantSwap SliceFacts PhaseCorrelationProps PeakProps.

(** The kernels written out for 2 x 2 arrays keep the shape of any array. *)
Lemma rect_map {A B} (f : A -> B) (R C : nat) (m : matrix A) :
  rect R C m -> rect R C (map (map f) m).
Proof.
  intros [HR HC]; split; [now rewrite length_map|].
  apply Forall_map; eapply Forall_impl; [|exact HC].
  intros r Hr; cbn beta; now rewrite length_map.
Qed.

Lemma rect_pointwise (f : Q -> Q -> Q) (R C : nat) (a b : matrix Q) :
  rect R C a -> rect R C b -> rect R C (TwoByTwo.pointwise f a b).
Proof.
  intros [Ha Fa] [Hb Fb]; unfold TwoByTwo.pointwise; split.
  - rewrite length_map, length_combine; lia.
  - apply Forall_map, Forall_forall; intros [r1 r2] Hin; cbn [fst snd].
    rewrite Forall_forall in Fa, Fb.
    rewrite length_map, length_combine.
    rewrite (Fa r1), (Fb r2);
      [lia|eapply in_combine_r; eauto|eapply in_combine_l; eauto].
Qed.

Lemma rect_np_fft2 (R C : nat) (m : matrix Q) :
  rect R C m -> rect R C (TwoByTwo.np_fft2 m).
Proof.
  intros [HR HC]; unfold TwoByTwo.np_fft2.
  destruct m as [|[|a [|b [|? ?]]] [|[|c [|d [|? ?]]] [|? ?]]];
    try (split; assumption).
  split; [exact HR|].
  inversion HC as [|? ? H1 _]; subst; repeat constructor.
Qed.

Lemma rect_np_ifft2 (R C : nat) (m : matrix Q) :
  rect R C m -> rect R C (TwoByTwo.np_ifft2 m).
Proof.
  intros [HR HC]; unfold TwoByTwo.np_ifft2.
  destruct m as [|[|a [|b [|? ?]]] [|[|c [|d [|? ?]]] [|? ?]]];
    try (split; assumption).
  split; [exact HR|].
  inversion HC as [|? ? H1 _]; subst; repeat constructor.
Qed.

Lemma two_by_two_surface_shape (R C : nat) (a b : matrix Z) :
  rect R C a -> rect R C b -> rect R C (TwoByTwo.cross_power_surface a b).
Proof.
  intros Ha Hb; unfold TwoByTwo.cross_power_surface; cbv zeta.
  apply rect_np_ifft2, rect_pointwise.
  - apply rect_pointwise; apply rect_np_fft2, rect_map; assumption.
  - do 2 apply rect_map.
    apply rect_pointwise; apply rect_np_fft2, rect_map; assumption.
Qed.

Lemma two_by_two_filter_shape (R C : nat) (m : matrix Q) (sigma : Q) :
  rect R C m -> rect R C (TwoByTwo.gaussian_filter m sigma).
Proof.
  intros [HR HC]; unfold TwoByTwo.gaussian_filter.
  destruct m as [|[|a [|b [|? ?]]] [|[|c [|d [|? ?]]] [|? ?]]];
    try (split; assumption).
  split; [exact HR|].
  inversion HC as [|? ? H1 _]; subst; repeat constructor.
Qed.

Lemma rect_corner50 : rect 2 2 corner50.
Proof. split; [reflexivity|repeat constructor]. Qed.

Section SelfShift.

Variable cross_power_surface : matrix Z -> matrix Z -> matrix Q.
Variable gaussian_filter : matrix Q -> Q -> matrix Q.
Context {D : Debugger}.

Hypothesis cross_power_surface_shape :
  forall R C a b, rect R C a -> rect R C b -> rect R C (cross_power_surface a b).
Hypothesis gaussian_filter_shape :
  forall R C m sigma, rect R C m -> rect R C (gaussian_filter m sigma).


End SelfShift.



End SelfShiftProps.

(** ** More on the scan loop *)

Module CallProps.

Import NpFacts TracksProps.

Ltac crunch H :=
  repeat (cbn beta iota zeta in H;
          match type of H with
          | context [match ?x with _ => _ end] =>
              lazymatch x with
              | context [match _ with _ => _ end] => fail
              | _ => destruct x eqn:?
              end
          end).

Ltac unfold_st H :=
  unfold sbind, pure, lift, self, attr, read_local, semit, modify, sret,
    sraise, index, bind, ret, raise, emit in H.

Ltac settle :=
  repeat match goal with
         | H : snd (_, Raise _) = Raise _ |- _ => simpl in H; injection H as <-
         | H : snd (_, Ok _) = Ok _ |- _ => simpl in H; injection H as <-
         | H : snd (_, Raise _) = Ok _ |- _ => simpl in H; discriminate H
         | H : snd (_, Ok _) = Raise _ |- _ => simpl in H; discriminate H
         | H : None = Some _ |- _ => discriminate H
         end.

(** *** A first call with the default [save_rain=True] *)

Section DefaultCall.

Context {E : Externals}.
Variable rain : bool.
Variable save_rain : bool.
Variable callee : PyFunction.
Hypothesis callee_arity : fn_arity callee = 2%nat.

Lemma artificially_zero_raises raw1 raw t e :
  artificially_zero raw1 raw = (t, Raise e) -> e = ValueError \/ e = TypeError.
Proof.
  unfold artificially_zero, np_max_opt, np_max, bind, lift, ret, raise.
  intro H; crunch H; try discriminate; injection H as <- <-; auto.
Qed.

Lemma skip_erroneous_raises (s : Cell_tracks) raw1 (grids : list Grid) :
  forall g t e,
  skip_erroneous rain s raw1 g grids = (t, Raise e) ->
  e = ValueError \/ e = TypeError.
Proof.
  induction grids as [|g' rest IH]; intros g t e H.
  all: rewrite skip_erroneous_eq in H; unfold bind in H.
  all: destruct (artificially_zero _ _) as [ta [b|ea]] eqn:Ha.
  all: try (injection H as <- <-; eapply artificially_zero_raises; eauto).
  - destruct b; discriminate.
  - destruct b; [|discriminate].
    simpl in H.
    destruct (skip_erroneous rain s raw1 g' rest) as [t2 [x|e2]] eqn:Hs;
      [discriminate|].
    injection H as <- <-; eapply IH; eauto.
Qed.

Lemma pull_next_raises (s : Cell_tracks) raw1 (grids : list Grid) t e :
  pull_next rain s raw1 grids = (t, Raise e) ->
  e = ValueError \/ e = TypeError.
Proof.
  destruct grids as [|g rest]; simpl; [discriminate|].
  apply skip_erroneous_raises.
Qed.

(** While no object has been found, an iteration keeps [newRain] set and
    the list of accumulated rain empty. *)
Lemma advance_step (g1 : Grid) (l : Locals) (grids : list Grid)
  (s s' : Cell_tracks) (t : list event)
  (r : result (Scan1 * Locals * list Grid)) :
  record s <> None -> newRain l = true ->
  advance rain g1 l grids s = (t, s', r) ->
  match r with
  | Ok (sc, l', grids') =>
      record s' <> None /\ newRain l' = true /\
      acc_rain_list l' = acc_rain_list l /\
      grid_obj1 l' = Some g1
  | Raise e => In e [StopIteration; IndexError; ValueError; TypeError]
  end.
Proof.
  intros Hrec Hnew H; unfold advance in H; rewrite Hnew in H.
  cbn [negb] in H; unfold_st H; simpl in H.
  destruct (record s) as [rec|] eqn:Hr; [|now destruct Hrec].
  destruct (pull_next rain s (raw2 l) grids) as [tp [[nxt gs]|e]] eqn:Hp;
    simpl in H.
  - crunch H.
    all: simpl in H; injection H as <- <- <-; simpl.
    all: try (repeat split; try reflexivity; discriminate).
    all: settle; auto.
  - injection H as <- <- <-.
    apply pull_next_raises in Hp as [->| ->]; simpl; auto.
Qed.

Lemma process_step (g1 : Grid) (sc : Scan1) (l : Locals)
  (s s' : Cell_tracks) (t : list event) (r : result Locals) :
  record s <> None ->
  process rain save_rain callee g1 sc l s = (t, s', r) ->
  match r with
  | Ok l' => record s' <> None /\ l' = with_newRain true l
  | Raise e => In e [StopIteration; IndexError; ValueError; TypeError]
  end.
Proof.
  intros Hrec H; unfold process in H.
  unfold py_call in H; rewrite callee_arity in H; cbn [length Nat.eqb] in H.
  unfold_st H; unfold np_max in H.
  destruct (record s) as [rec|] eqn:Hr; [|now destruct Hrec].
  crunch H.
  all: simpl in H; injection H as <- <- <-; simpl.
  all: settle.
  all: try (split; [congruence|reflexivity]).
  all: simpl; auto.
Qed.

Lemma scan_loop_first_call (fuel : nat) :
  forall l grids s t s' r,
  (length grids < fuel)%nat ->
  record s <> None -> newRain l = true -> acc_rain_list l = [] ->
  (grid_obj2 l = None -> grid_obj1 l <> None) ->
  scan_loop rain save_rain callee fuel l grids s = (t, s', r) ->
  match r with
  | Ok l' => acc_rain_list l' = [] /\ grid_obj1 l' <> None
  | Raise e => In e [StopIteration; IndexError; ValueError; TypeError]
  end.
Proof.
  induction fuel as [|fuel IH]; intros l grids s t s' r Hlen Hrec Hnew Hacc Hg1 H;
    [lia|].
  simpl in H; destruct (grid_obj2 l) as [g1|] eqn:Hg.
  2: { injection H as <- <- <-; auto. }
  unfold sbind in H.
  destruct (advance rain g1 l grids s) as [[ta sa] ra] eqn:Ha.
  pose proof (advance_effect _ _ _ _ _ _ _ _ Ha) as (_ & _ & Hok).
  pose proof (advance_step _ _ _ _ _ _ _ Hrec Hnew Ha) as Hst.
  destruct ra as [[[sc la] ga]|e]; [|injection H as <- <- <-; exact Hst].
  destruct Hst as (Hrec' & Hnew' & Hacc' & Hg1').
  destruct (Hok sc la ga eq_refl) as (_ & _ & _ & _ & _ & (tr & Hpull) & _).
  apply pull_next_processed in Hpull.
  destruct (process rain save_rain callee g1 sc la sa) as [[tp sp] rp] eqn:Hp.
  pose proof (process_step _ _ _ _ _ _ _ Hrec' Hp) as Hps.
  destruct rp as [lp|e]; [|injection H as <- <- <-; exact Hps].
  destruct Hps as [Hrec2 ->].
  destruct (scan_loop rain save_rain callee fuel (with_newRain true la) ga sp)
    as [[tl sl] rl] eqn:Hloop.
  injection H as <- <- <-.
  destruct (grid_obj2 la) as [g2|] eqn:Hgl.
  - destruct Hpull as (_ & Hshort & _).
    assert (Hlen' : (length ga < fuel)%nat) by lia.
    apply (IH _ ga _ _ _ _ Hlen' Hrec2) in Hloop; auto.
    all: simpl; congruence.
  - destruct fuel; simpl in Hloop; rewrite Hgl in Hloop;
      injection Hloop as <- <- <-.
    all: simpl; split; congruence.
Qed.

End DefaultCall.

Section RealCall.

Context {E : Externals} {D : Debugger}.
Variable cross_power_surface : matrix Z -> matrix Z -> matrix Q.
Variable gaussian_filter : matrix Q -> Q -> matrix Q.
Variable post_tracks : Cell_tracks -> Cell_tracks.
Variable get_system_tracks : Cell_tracks -> Cell_tracks.

(** X9.  On a new instance, [get_tracks] with [save_rain=True] (the
    default) never returns normally, whatever the grids: it ends with
    [StopIteration] (no grid), [IndexError] or [ValueError] (a grid without
    the tracked frame or without samples; no accumulated rain to stack when
    no scan has objects), or the [TypeError] of line 271. *)
Theorem first_call_saving_rain_raises (s : Cell_tracks) (grids : list Grid)
  (rain : bool) :
  record s = None -> current_objects s = None ->
  exists e,
    outcome_of (get_tracks cross_power_surface gaussian_filter post_tracks
                  get_system_tracks grids rain true s) = Raise e /\
    In e [StopIteration; IndexError; ValueError; TypeError].
Proof.
  intros Hrec Hobj.
  unfold get_tracks, get_tracks_calling, scan_phase.
  unfold sbind at 1 2.
  destruct (start rain grids s) as [[t1 s1] r1] eqn:Hs.
  assert (Hstart :
    match r1 with
    | Ok (l, gs) => record s1 <> None /\ newRain l = true /\
                    acc_rain_list l = [] /\ grid_obj2 l <> None /\
                    (length gs <= length grids)%nat
    | Raise e => In e [StopIteration; IndexError; ValueError; TypeError]
    end).
  { unfold start in Hs; unfold_st Hs. rewrite Hrec in Hs.
    destruct grids as [|g0 rest]; simpl in Hs.
    - injection Hs as <- <- <-; simpl; auto.
    - rewrite Hobj in Hs. crunch Hs.
      all: simpl in Hs; injection Hs as <- <- <-; simpl.
      all: try (repeat split; try discriminate; try reflexivity; lia).
      all: settle; simpl; auto. }
  destruct r1 as [[l gs]|e]; [|exists e; split; [reflexivity|exact Hstart]].
  destruct Hstart as (Hr1 & Hn1 & Ha1 & Hg1 & Hlen).
  destruct (scan_loop rain true _ (S (length gs)) l gs s1) as [[t2 s2] r2] eqn:Hl.
  apply (scan_loop_first_call rain true
           (get_global_shift_fn cross_power_surface gaussian_filter)
           eq_refl) in Hl; auto; try lia.
  destruct r2 as [l2|e]; [|exists e; split; [reflexivity|exact Hl]].
  destruct Hl as [Hacc Hg].
  exists ValueError; split; [|simpl; auto].
  unfold outcome_of, finish, sbind; simpl.
  rewrite Hacc; reflexivity.
Qed.

(** *** Later calls *)

Lemma DataFrame_drop_missing (label : Z) (df : DataFrame) :
  (forall row, In row df -> row_scan row <> label) ->
  DataFrame_drop label df = Raise KeyError.
Proof.
  intro H; unfold DataFrame_drop.
  destruct (existsb _ df) eqn:Ex; [|reflexivity].
  apply existsb_exists in Ex as (row & Hin & Heq).
  apply Z.eqb_eq in Heq; now destruct (H row Hin).
Qed.

Lemma DataFrame_drop_present (label : Z) (df : DataFrame) (row : Row Uid Props) :
  In row df -> row_scan row = label ->
  exists df', DataFrame_drop label df = Ok df'.
Proof.
  intros Hin Heq; unfold DataFrame_drop.
  replace (existsb _ df) with true; [eauto|].
  symmetry; apply existsb_exists; exists row; split; [exact Hin|].
  now apply Z.eqb_eq.
Qed.

(** X10.  A later call on an instance whose table has no row of scan
    [record.scan + 1] raises [KeyError] from [drop] on line 194: nothing is
    printed, no grid is pulled and the instance is left as it was. *)
Theorem resumed_call_without_superseded_row (s : Cell_tracks)
  (r : Record_ Uid) (grids : list Grid) (rain save_rain : bool) :
  record s = Some r ->
  (forall row, In row (tracks s) -> row_scan row <> scan r + 1) ->
  get_tracks cross_power_surface gaussian_filter post_tracks
    get_system_tracks grids rain save_rain s
  = ([], s, Raise KeyError).
Proof.
  intros Hr Hno.
  unfold get_tracks, get_tracks_calling, scan_phase, start, sbind, self, pure,
    lift.
  rewrite Hr; simpl.
  now rewrite (DataFrame_drop_missing _ _ Hno).
Qed.

(** X11.  A later call on an instance that holds objects
    ([current_objects] is not [None]) raises [UnboundLocalError] in its
    first iteration, where line 209 reads [frame1] before any assignment to
    it: no grid is pulled and the instance is left as it was. *)
Theorem resumed_call_with_live_objects (s : Cell_tracks)
  (r : Record_ Uid) (o : Objects) (g : Grid) (row : Row Uid Props)
  (f : matrix Z) (grids : list Grid) (rain save_rain : bool) :
  record s = Some r -> current_objects s = Some o -> last_grid s = Some g ->
  In row (tracks s) -> row_scan row = scan r + 1 ->
  scan_frame rain (cfg s) g = Some f ->
  get_tracks cross_power_surface gaussian_filter post_tracks
    get_system_tracks grids rain save_rain s
  = ([], s, Raise UnboundLocalError).
Proof.
  intros Hr Ho Hg Hin Hrow Hf.
  destruct (DataFrame_drop_present _ _ _ Hin Hrow) as [df' Hdrop].
  unfold scan_frame, session_extract, frames_of, cfg in Hf; simpl in Hf.
  unfold get_tracks, get_tracks_calling, scan_phase, start, sbind, self, pure,
    lift, attr, sret, index, ret.
  rewrite Hr; simpl. rewrite Hdrop; simpl. rewrite Ho, Hg; simpl.
  unfold extract.
  destruct (extract_grid_data g (field s) (grid_size s) (params s) rain)
    as [[[[raw rr] fr] co] cl].
  rewrite Hf; simpl.
  reflexivity.
Qed.

End RealCall.

(** *** Grids that are artificially zero *)

Section Skip.

Context {E : Externals}.
Variable rain : bool.

Lemma artificially_zero_strong (r1 raw : matrix Z) (m1 m : Z) :
  np_max r1 = Ok m1 -> 30 < m1 -> np_max raw = Ok m ->
  artificially_zero (Some r1) raw = ([], Ok (m =? 0)).
Proof.
  intros H1 Hs H; unfold artificially_zero, np_max_opt, bind, lift, ret.
  rewrite H1; simpl.
  destruct (30 <? m1) eqn:E30; [|lia].
  now rewrite H.
Qed.

Lemma skip_erroneous_step (s : Cell_tracks) raw1 g grids :
  skip_erroneous rain s raw1 g grids
  = bind (artificially_zero raw1 (raw_of (extract rain s g)))
      (fun skip =>
         if skip then
           match grids with
           | [] => ret (None, [])
           | g' :: rest =>
               bind (emit (EvPrint MsgSkipping))
                    (fun _ => skip_erroneous rain s raw1 g' rest)
           end
         else ret (Some g, grids)).
Proof.
  unfold raw_of; destruct grids; simpl;
    now destruct (extract rain s g) as [[[[raw rr] fr] co] cl].
Qed.

Lemma skip_run (s : Cell_tracks) (r1 : matrix Z) (m1 m : Z)
  (g : Grid) (rest : list Grid) (zs : list Grid) :
  np_max r1 = Ok m1 -> 30 < m1 ->
  Forall (fun z => np_max (raw_of (extract rain s z)) = Ok 0) zs ->
  np_max (raw_of (extract rain s g)) = Ok m -> m <> 0 ->
  forall z0,
  np_max (raw_of (extract rain s z0)) = Ok 0 ->
  skip_erroneous rain s (Some r1) z0 (zs ++ g :: rest)
  = (repeat (EvPrint MsgSkipping) (S (length zs)), Ok (Some g, rest)).
Proof.
  intros H1 Hs Hz Hg Hm.
  induction zs as [|z zs IH]; intros z0 Hz0.
  - rewrite skip_erroneous_step, (artificially_zero_strong _ _ _ _ H1 Hs Hz0).
    simpl app.
    cbn [bind Z.eqb emit].
    rewrite skip_erroneous_step, (artificially_zero_strong _ _ _ _ H1 Hs Hg).
    destruct (m =? 0) eqn:E0; [lia|]. reflexivity.
  - rewrite skip_erroneous_step, (artificially_zero_strong _ _ _ _ H1 Hs Hz0).
    simpl app. cbn [bind Z.eqb emit].
    rewrite (IH (Forall_inv_tail Hz) z (Forall_inv Hz)). reflexivity.
Qed.

(** X12.  After a scan whose raw maximum exceeds 30, a run of grids whose
    raw maximum is 0 is skipped up to the first grid with a nonzero
    maximum, which becomes the next scan; 'Skipping erroneous grid.' is
    printed once per skipped grid. *)
Theorem skipped_run_then_next (s : Cell_tracks) (r1 : matrix Z) (m1 m : Z)
  (zs : list Grid) (g : Grid) (rest : list Grid) :
  np_max r1 = Ok m1 -> 30 < m1 ->
  Forall (fun z => np_max (raw_of (extract rain s z)) = Ok 0) zs ->
  np_max (raw_of (extract rain s g)) = Ok m -> m <> 0 ->
  pull_next rain s (Some r1) (zs ++ g :: rest)
  = (repeat (EvPrint MsgSkipping) (length zs), Ok (Some g, rest)).
Proof.
  intros H1 Hs Hz Hg Hm.
  destruct zs as [|z0 zs]; simpl.
  - rewrite skip_erroneous_step, (artificially_zero_strong _ _ _ _ H1 Hs Hg).
    destruct (m =? 0) eqn:E0; [lia|]. reflexivity.
  - apply (skip_run s r1 m1 m g rest zs H1 Hs (Forall_inv_tail Hz) Hg Hm).
    exact (Forall_inv Hz).
Qed.

Lemma skip_run_end (s : Cell_tracks) (r1 : matrix Z) (m1 : Z)
  (zs : list Grid) :
  np_max r1 = Ok m1 -> 30 < m1 ->
  Forall (fun z => np_max (raw_of (extract rain s z)) = Ok 0) zs ->
  forall z0,
  np_max (raw_of (extract rain s z0)) = Ok 0 ->
  skip_erroneous rain s (Some r1) z0 zs
  = (repeat (EvPrint MsgSkipping) (length zs), Ok (None, [])).
Proof.
  intros H1 Hs Hz.
  induction zs as [|z zs IH]; intros z0 Hz0.
  - rewrite skip_erroneous_step, (artificially_zero_strong _ _ _ _ H1 Hs Hz0).
    reflexivity.
  - rewrite skip_erroneous_step, (artificially_zero_strong _ _ _ _ H1 Hs Hz0).
    cbn [bind Z.eqb emit].
    rewrite (IH (Forall_inv_tail Hz) z (Forall_inv Hz)). reflexivity.
Qed.

(** X13.  When the grids run out during such a run, the pull ends the
    sequence, so the scan before the run becomes the final scan, and the
    message is printed once less than grids were skipped: the last skipped
    grid goes unreported. *)
Theorem skipped_run_at_the_end (s : Cell_tracks) (r1 : matrix Z) (m1 : Z)
  (zs : list Grid) :
  np_max r1 = Ok m1 -> 30 < m1 -> zs <> [] ->
  Forall (fun z => np_max (raw_of (extract rain s z)) = Ok 0) zs ->
  pull_next rain s (Some r1) zs
  = (repeat (EvPrint MsgSkipping) (length zs - 1), Ok (None, [])).
Proof.
  intros H1 Hs Hne Hz.
  destruct zs as [|z0 zs]; [now destruct Hne|]; simpl.
  rewrite Nat.sub_0_r.
  apply (skip_run_end s r1 m1 zs H1 Hs (Forall_inv_tail Hz)).
  exact (Forall_inv Hz).
Qed.

(** *** The time gap *)

(** X14.  When the loop moves on to a next scan, the gap test compares the
    time-of-day part of the interval with 1700 s: with [us] the
    microseconds from the current scan to the next, the registry is cleared,
    [newRain] set and the discontinuity printed exactly when
    [(us mod 86400000000) / 1000000 > 1700]; otherwise all three are left
    alone. *)
Theorem time_gap_test_reads_time_of_day (g1 g2 : Grid) (l : Locals)
  (grids rest : list Grid) (s : Cell_tracks) (rec : Record_ Uid)
  (tr : list event) (f : matrix Z) :
  record s = Some rec ->
  newRain l = true \/ frame1 l <> None ->
  pull_next rain s (raw2 l) grids = (tr, Ok (Some g2, rest)) ->
  scan_frame rain (cfg s) g2 = Some f ->
  let us := parse_grid_datetime g2 - parse_grid_datetime g1 in
  let gap := 1700 <? (us mod 86400000000) / 1000000 in
  let x := advance rain g1 l grids s in
  events_of x
  = tr ++ (if gap
           then [EvPrint (MsgTimeDiscontinuity (Some (parse_grid_datetime g1)))]
           else []) /\
  current_objects (instance_of x)
  = (if gap then None else current_objects s) /\
  exists sc l',
    outcome_of x = Ok (sc, l', rest) /\
    newRain l' = (if gap then true else newRain l).
Proof.
  intros Hrec Hnew Hpull Hf us gap x.
  unfold scan_frame, frames_of in Hf.
  change (session_extract rain (cfg s) g2) with (extract rain s g2) in Hf.
  change (snd (cfg s)) with (params s) in Hf.
  assert (Hfirst : newRain l = false -> frame1 l = None -> False).
  { intros Hn Hf1; destruct Hnew as [Hn'|Hf']; congruence. }
  subst x; unfold advance.
  unfold sbind, pure, lift, self, attr, read_local, semit, modify, sret,
    sraise, index, bind, ret, raise, emit.
  destruct (newRain l) eqn:Hn; destruct (frame1 l) as [f1|] eqn:Hf1;
    try (now destruct Hfirst); cbn [negb raw1]; cbn beta iota zeta.
  all: rewrite Hpull; cbn [snd fst]; cbn beta iota zeta.
  all: destruct (extract rain s g2) as [[[[raw rr] fr] co] cl].
  all: rewrite Hf, Hrec; cbn beta iota zeta.
  all: cbn [update_scan_and_time interval seconds timedelta_of_us time].
  all: fold us; fold gap.
  all: destruct gap; cbn.
  all: rewrite ?app_nil_r.
  all: repeat split; eexists; eexists; split; reflexivity.
Qed.

End Skip.

(** *** The checkpoint *)

Section Checkpoint.

Context {E : Externals}.
Variable rain : bool.
Variable save_rain : bool.
Variable callee : PyFunction.

Lemma advance_checkpoint (g1 : Grid) (l : Locals) (grids : list Grid)
  (s s' : Cell_tracks) (t : list event) (sc : Scan1) (l' : Locals)
  (grids' : list Grid) :
  advance rain g1 l grids s = (t, s', Ok (sc, l', grids')) ->
  grid_obj1 l' = Some g1 /\
  (grid_obj2 l' = None ->
   saved_record s' = record s /\ saved_counter s' = counter s /\
   saved_objects s' = current_objects s /\ last_grid s' = Some g1).
Proof.
  intro H; unfold advance in H; unfold_st H; simpl in H.
  crunch H.
  all: simpl in H; try discriminate; injection H as <- <- <- <-.
  all: simpl; split; [reflexivity|]; intro Hn; try discriminate.
  all: repeat split; try reflexivity; congruence.
Qed.

Lemma process_keeps_checkpoint (g1 : Grid) (sc : Scan1) (l : Locals)
  (s s' : Cell_tracks) (t : list event) (r : result Locals) :
  process rain save_rain callee g1 sc l s = (t, s', r) ->
  saved_record s' = saved_record s /\ saved_counter s' = saved_counter s /\
  saved_objects s' = saved_objects s /\ last_grid s' = last_grid s /\
  forall l', r = Ok l' -> grid_obj1 l' = grid_obj1 l.
Proof.
  intro H; unfold process in H; unfold_st H.
  crunch H.
  all: simpl in H; injection H as <- <- <-; simpl.
  all: repeat split; try reflexivity.
  all: intros l' Hl; try discriminate; now injection Hl as <-.
Qed.

(** When the loop ends after at least one iteration, the record counts
    every processed scan, the checkpoint is one scan behind it, and
    [last_grid] is the last processed scan. *)
Lemma scan_loop_end (base : Z) (fuel : nat) :
  forall l grids s t s' l' k P g,
  scan_loop rain save_rain callee fuel l grids s = (t, s', Ok l') ->
  scan_of s = Some (base + Z.of_nat k - 1) ->
  grid_obj2 l = Some g ->
  skipn k P = g :: processed_from rain (cfg s) (raw2 l) grids ->
  grid_obj2 l' = None /\
  exists g_last,
    nth_error P (length P - 1) = Some g_last /\
    grid_obj1 l' = Some g_last /\
    last_grid s' = Some g_last /\
    scan_of s' = Some (base + Z.of_nat (length P) - 1) /\
    option_map scan (saved_record s') = Some (base + Z.of_nat (length P) - 2).
Proof.
  induction fuel as [|fuel IH]; intros l grids s t s' l' k P g H Hscan Hg Hcur.
  all: simpl in H; rewrite Hg in H; try discriminate.
  unfold sbind in H.
  destruct (advance rain g l grids s) as [[ta sa] ra] eqn:Ha.
  pose proof (advance_effect _ _ _ _ _ _ _ _ Ha) as (Hcfg & _ & Hok).
  destruct ra as [[[sc la] ga]|e]; [|discriminate].
  pose proof (advance_checkpoint _ _ _ _ _ _ _ _ _ Ha) as [Hg1 Hck].
  destruct (Hok sc la ga eq_refl)
    as (_ & Hr1 & _ & _ & (k0 & Hk0 & Hk1) & (tr & Hpull) & Hnext).
  rewrite Hscan in Hk0; injection Hk0 as <-.
  apply skipn_cons_nth in Hcur as [Hnth Hskip].
  destruct (process rain save_rain callee g sc la sa) as [[tp sp] rp] eqn:Hp.
  pose proof (process_effect _ _ _ _ _ _ _ _ _ _ Hp) as (Hcfg2 & _ & Hl).
  pose proof (process_keeps_checkpoint _ _ _ _ _ _ _ Hp)
    as (Hsr & _ & _ & Hlg & Hgo1).
  destruct rp as [lp|e]; [|discriminate].
  destruct (scan_loop rain save_rain callee fuel lp ga sp) as [[tl sl] rl] eqn:Hloop.
  injection H as <- <- ->.
  destruct (Hl lp eq_refl) as (Hg2 & Hraw2 & _ & _ & Hsc).
  assert (Hc : cfg sp = cfg s) by congruence.
  apply pull_next_processed in Hpull.
  destruct (grid_obj2 la) as [g2|] eqn:Hgl.
  - destruct Hpull as (Hp1 & _ & _).
    destruct Hnext as [Hraw _].
    apply (IH lp ga sp tl sl l' (S k) P g2 Hloop).
    + rewrite Hsc, Hk1; f_equal; lia.
    + congruence.
    + rewrite Hc, Hraw2, Hraw, Hskip. exact Hp1.
  - destruct Hpull as [Hnil _].
    rewrite Hnil in Hskip.
    assert (HlenP : length P = S k).
    { apply (f_equal (@length Grid)) in Hskip; rewrite length_skipn in Hskip.
      simpl in Hskip.
      assert ((k < length P)%nat) by (apply nth_error_Some; congruence).
      lia. }
    destruct fuel; simpl in Hloop; rewrite Hg2 in Hloop;
      injection Hloop as <- <- <-.
    all: split; [exact Hg2|]; exists g.
    all: rewrite HlenP; replace (S k - 1)%nat with k by lia.
    all: destruct (Hck eq_refl) as (Hs1 & _ & _ & Hs4).
    all: split; [exact Hnth|split; [rewrite (Hgo1 _ eq_refl); exact Hg1|]].
    all: split; [congruence|split].
    all: try (rewrite Hsc, Hk1; f_equal; lia).
    all: rewrite Hsr, Hs1; fold (scan_of s); rewrite Hscan; f_equal; lia.
Qed.

(** X15.  When the main loop of a call ends, with [n] scans processed
    (skipped grids not counted) from scan index [base]: [last_grid] is the
    last processed scan, [record.scan] is [base + n - 1], and the saved
    record, which [__load] restores, has scan [base + n - 2]. *)
Theorem main_loop_checkpoint (grids : list Grid) (s : Cell_tracks) :
  (exists l', outcome_of (scan_phase rain save_rain callee grids s) = Ok l') ->
  let s' := instance_of (scan_phase rain save_rain callee grids s) in
  let scans := call_scans rain s grids in
  let n := Z.of_nat (length scans) in
  exists g_last,
    nth_error scans (length scans - 1) = Some g_last /\
    last_grid s' = Some g_last /\
    scan_of s' = Some (call_base s + n - 1) /\
    option_map scan (saved_record s') = Some (call_base s + n - 2).
Proof.
  intros [l' H] s' scans n; subst s'.
  destruct (scan_phase rain save_rain callee grids s) as [[t s'] r] eqn:Hph.
  unfold outcome_of in H; simpl in H; subst r.
  unfold instance_of; cbn [fst snd].
  unfold scan_phase, sbind in Hph.
  destruct (start rain grids s) as [[t1 s1] r1] eqn:Hs.
  pose proof (start_effect _ _ _ _ _ _ Hs) as [_ Hok].
  destruct r1 as [[l gs]|e]; [|discriminate].
  destruct (Hok l gs eq_refl) as (Hcfg & Hscan & Hcur).
  destruct (scan_loop _ _ _ _ l gs s1) as [[t2 s2] r2] eqn:Hloop.
  injection Hph as <- <- ->.
  assert (Hg : exists g, grid_obj2 l = Some g).
  { unfold start in Hs; unfold_st Hs; crunch Hs.
    all: simpl in Hs; try discriminate; injection Hs as <- <- <- <-; simpl.
    all: eauto. }
  destruct Hg as [g Hg].
  destruct (Hcur g Hg) as [Hp _].
  destruct (scan_loop_end (call_base s) _ l gs s1 t2 s2 l' 0%nat scans g Hloop)
    as (Hend & g_last & H1 & _ & H3 & H4 & H5).
  - rewrite Hscan; f_equal; lia.
  - exact Hg.
  - simpl; unfold scans; now rewrite <- Hp.
  - exists g_last; auto.
Qed.

End Checkpoint.

(** *** Runs *)

Lemma first_call_saving_rain_raises_witness :
  exists e,
    outcome_of (get_tracks surface smooth (fun s => s) (fun s => s)
                  [S_quiet1; S_quiet2] true true fresh) = Raise e /\
    In e [StopIteration; IndexError; ValueError; TypeError].
Proof.
  apply (first_call_saving_rain_raises (E := world) surface smooth
           (fun s => s) (fun s => s) fresh [S_quiet1; S_quiet2] true);
    reflexivity.
Defined.

Lemma resumed_call_without_superseded_row_witness :
  get_tracks surface smooth (fun s => s) (fun s => s) [S_quiet2] true false
    after_quiet
  = ([], after_quiet, Raise KeyError).
Proof.
  apply (resumed_call_without_superseded_row (E := world) surface smooth
           (fun s => s) (fun s => s) after_quiet
           {| scan := -1; time := None; interval := None; uid := [] |}).
  - reflexivity.
  - intros row H; cbv in H; destruct H.
Defined.

Lemma resumed_call_with_live_objects_witness :
  get_tracks surface smooth (fun s => s) (fun s => s) [S3] true false
    holding_tracks
  = ([], holding_tracks, Raise UnboundLocalError).
Proof.
  apply (resumed_call_with_live_objects (E := world) surface smooth
           (fun s => s) (fun s => s) holding_tracks
           {| scan := 0; time := Some 0;
              interval := Some (timedelta_of_us (10 * minute));
              uid := [0%nat] |}
           [0%nat] S2
           {| row_scan := 1; row_time := Some (10 * minute);
              row_uid := 0%nat; row_props := 0%nat |}
           cell).
  - reflexivity.
  - reflexivity.
  - reflexivity.
  - right; left; reflexivity.
  - reflexivity.
  - reflexivity.
Defined.

Lemma skipped_run_then_next_witness :
  pull_next true tracking (Some blob) ([S_zero1; S_zero2] ++ S3 :: [])
  = (repeat (EvPrint MsgSkipping) (length [S_zero1; S_zero2]),
     Ok (Some S3, [])).
Proof.
  apply (skipped_run_then_next (E := world) true tracking blob 50 50).
  - reflexivity.
  - lia.
  - constructor; [reflexivity|constructor; [reflexivity|constructor]].
  - reflexivity.
  - lia.
Defined.

Lemma skipped_run_at_the_end_witness :
  pull_next true tracking (Some blob) [S_zero1; S_zero2]
  = (repeat (EvPrint MsgSkipping) (length [S_zero1; S_zero2] - 1),
     Ok (None, [])).
Proof.
  apply (skipped_run_at_the_end (E := world) true tracking blob 50).
  - reflexivity.
  - lia.
  - discriminate.
  - constructor; [reflexivity|constructor; [reflexivity|constructor]].
Defined.

Lemma time_gap_test_reads_time_of_day_witness :
  let us := g_time S_next_day - g_time S2 in
  let gap := 1700 <? (us mod 86400000000) / 1000000 in
  let x := advance true S2 tracking_locals [S_next_day] tracking in
  events_of x
  = [] ++ (if gap
           then [EvPrint (MsgTimeDiscontinuity (Some (g_time S2)))]
           else []) /\
  current_objects (instance_of x)
  = (if gap then None else current_objects tracking) /\
  exists sc l',
    outcome_of x = Ok (sc, l', []) /\
    newRain l' = (if gap then true else newRain tracking_locals).
Proof.
  apply (time_gap_test_reads_time_of_day (E := world) true S2 S_next_day
           tracking_locals [S_next_day] [] tracking
           {| scan := 0; time := Some 0;
              interval := Some (timedelta_of_us (10 * minute));
              uid := [0%nat] |}
           [] cell).
  - reflexivity.
  - right; discriminate.
  - reflexivity.
  - reflexivity.
Defined.

Lemma main_loop_checkpoint_witness :
  let x := scan_phase true false (get_global_shift_fn surface smooth)
             [S_quiet1; S_quiet2] fresh in
  let scans := call_scans true fresh [S_quiet1; S_quiet2] in
  let n := Z.of_nat (length scans) in
  exists g_last,
    nth_error scans (length scans - 1) = Some g_last /\
    last_grid (instance_of x) = Some g_last /\
    scan_of (instance_of x) = Some (call_base fresh + n - 1) /\
    option_map scan (saved_record (instance_of x))
    = Some (call_base fresh + n - 2).
Proof.
  apply (main_loop_checkpoint (E := world) true false
           (get_global_shift_fn surface smooth) [S_quiet1; S_quiet2] fresh).
  eexists; reflexivity.
Defined.

End CallProps.

(** ** The tracer of [tint/visualization.py] *)

Module TracerProps.

Import Visualization.

Lemma pop_snoc {A} (l : list A) (x : A) : pop (l ++ [x]) = Ok (x, l).
Proof. unfold pop; rewrite rev_app_distr; simpl; now rewrite rev_involutive. Qed.

Lemma pop_inv {A} (l : list A) :
  (l = [] /\ pop l = Raise IndexError) \/
  exists x l', l = l' ++ [x] /\ pop l = Ok (x, l').
Proof.
  destruct (rev l) as [|x r] eqn:E.
  - left; apply (f_equal (@rev A)) in E; rewrite rev_involutive in E.
    subst; auto.
  - right; exists x, (rev r).
    apply (f_equal (@rev A)) in E; rewrite rev_involutive in E; simpl in E.
    subst; split; [reflexivity|apply pop_snoc].
Qed.

Section Facts.

Context {Uid : Type} {Uid_label : Label Uid}.
Variable groupby_uid : TrackIndex Uid -> list Uid.

Lemma mem_true (u : Uid) (l : list Uid) : mem u l = true <-> In u l.
Proof. unfold mem; destruct (in_dec label_eq_dec u l); split; auto; discriminate. Qed.

Lemma mem_false (u : Uid) (l : list Uid) : mem u l = false <-> ~ In u l.
Proof.
  unfold mem; destruct (in_dec label_eq_dec u l); split; auto;
    [discriminate|intro H; now destruct H].
Qed.

Lemma Series_get_In (u : Uid) (c : Series Uid) :
  In u (keys c) <-> exists v, Series_get u c = Ok v.
Proof.
  unfold Series_get, keys; induction c as [|[k v] c IH]; simpl.
  - split; [easy|intros [v H]; discriminate].
  - destruct (label_eq_dec u k) as [->|Hne].
    + split; eauto.
    + rewrite <- IH; split; [intros [H|H]|]; auto; congruence.
Qed.

Lemma Series_get_app_new (u uid : Uid) (v : color) (c : Series Uid) :
  ~ In uid (keys c) ->
  Series_get u (c ++ [(uid, v)])
  = if label_eq_dec u uid then Ok v else Series_get u c.
Proof.
  unfold Series_get, keys; induction c as [|[k w] c IH]; simpl; intro Hn.
  - destruct (label_eq_dec u uid); reflexivity.
  - destruct (label_eq_dec u k) as [->|Hne].
    + destruct (label_eq_dec k uid) as [->|_]; [|reflexivity].
      exfalso; apply Hn; now left.
    + apply IH; intro H; apply Hn; now right.
Qed.

Lemma Series_get_set_new (u uid : Uid) (v : color) (c : Series Uid) :
  ~ In uid (keys c) ->
  Series_get u (Series_set uid v c)
  = if label_eq_dec u uid then Ok v else Series_get u c.
Proof.
  intro Hn; unfold Series_set.
  apply mem_false in Hn as Hm; rewrite Hm.
  now apply Series_get_app_new.
Qed.

Lemma keys_set_new (uid : Uid) (v : color) (c : Series Uid) :
  ~ In uid (keys c) -> keys (Series_set uid v c) = keys c ++ [uid].
Proof.
  intro Hn; unfold Series_set.
  apply mem_false in Hn; rewrite Hn.
  unfold keys; now rewrite map_app.
Qed.

(** *** One call of [_check_uid] *)

Lemma refilled_pop (stack : list color) :
  exists c rest, pop (stack ++ times colors 5) = Ok (c, rest).
Proof.
  change (times colors 5) with (removelast (times colors 5) ++ [m_]).
  rewrite app_assoc; eexists; eexists; apply pop_snoc.
Qed.

Lemma check_uid_known (uid : Uid) (t : Tracer) :
  In uid (keys (cell_color t)) -> _check_uid uid t = (t, Ok tt).
Proof.
  intro H; unfold _check_uid; apply mem_true in H; now rewrite H.
Qed.

Lemma check_uid_new (uid : Uid) (t : Tracer) :
  ~ In uid (keys (cell_color t)) ->
  exists c stack,
    _check_uid uid t
    = (set_colors stack (Series_set uid c (cell_color t)) t, Ok tt) /\
    (pop (color_stack t) = Ok (c, stack) \/
     color_stack t = [] /\ pop (times colors 5) = Ok (c, stack)).
Proof.
  intro H; unfold _check_uid; apply mem_false in H; rewrite H; cbn [negb].
  destruct (pop_inv (color_stack t)) as [[E Hp]|(x & l' & E & Hp)];
    rewrite Hp.
  - cbv zeta; rewrite E; cbn [app].
    destruct (refilled_pop []) as (c & rest & Hr); cbn [app] in Hr.
    rewrite Hr; exists c, rest; auto.
  - exists x, l'; auto.
Qed.

(** One call of [_check_uid], whatever the state of the stack. *)
Lemma check_uid_total (uid : Uid) (t : Tracer) :
  exists t',
    _check_uid uid t = (t', Ok tt) /\
    (exists c, Series_get uid (cell_color t') = Ok c) /\
    (forall u c, Series_get u (cell_color t) = Ok c ->
                 Series_get u (cell_color t') = Ok c).
Proof.
  destruct (in_dec label_eq_dec uid (keys (cell_color t))) as [Hin|Hnin].
  - exists t; split; [now apply check_uid_known|].
    split; [now apply Series_get_In|auto].
  - destruct (check_uid_new uid t Hnin) as (c & stack & Hc & _).
    eexists; split; [exact Hc|]; cbn [cell_color set_colors].
    split.
    + exists c; rewrite Series_get_set_new by assumption.
      destruct (label_eq_dec uid uid); [reflexivity|congruence].
    + intros u v Hu; rewrite Series_get_set_new by assumption.
      destruct (label_eq_dec u uid) as [->|_]; [|exact Hu].
      exfalso; apply Hnin, Series_get_In; eauto.
Qed.

(** X16.  [_check_uid] never raises: with the stack empty it refills it and
    pops again.  Afterwards the uid has a colour, no other colour has
    changed, and for a uid that had one already nothing changes at all. *)
Theorem check_uid_never_raises (uid : Uid) (t : Tracer) :
  exists t',
    _check_uid uid t = (t', Ok tt) /\
    (exists c, Series_get uid (cell_color t') = Ok c) /\
    (forall u c, Series_get u (cell_color t) = Ok c ->
                 Series_get u (cell_color t') = Ok c) /\
    (In uid (keys (cell_color t)) -> t' = t).
Proof.
  destruct (check_uid_total uid t) as (t' & Hc & Hhas & Hkeep).
  exists t'; split; [exact Hc|split; [exact Hhas|split; [exact Hkeep|]]].
  intro Hin; rewrite (check_uid_known uid t Hin) in Hc.
  now injection Hc as <-.
Qed.

(** *** The colour cycle *)

Lemma in_cycle_pop (j : nat) (stack : list color) :
  in_cycle j stack ->
  exists c stack',
    (pop stack = Ok (c, stack') \/
     stack = [] /\ pop (times colors 5) = Ok (c, stack')) /\
    nth_error colors_literal j = Some c /\
    in_cycle (S j mod 8) stack'.
Proof.
  intros (Hj & rounds & Hrev & Hpos).
  destruct (pop_inv stack) as [[E Hp]|(x & l' & E & Hp)].
  - subst stack; simpl in Hrev.
    assert (j = 0%nat /\ rounds = 0%nat) as [-> ->].
    { destruct rounds as [|n].
      - split; [|reflexivity].
        destruct j; [reflexivity|]. specialize (Hpos ltac:(lia)); lia.
      - exfalso; apply (f_equal (@length color)) in Hrev.
        cbn [times] in Hrev.
        rewrite length_skipn, length_app in Hrev.
        change (length colors_literal) with 8%nat in Hrev.
        cbn [rev length] in Hrev; lia. }
    eexists; eexists; split; [right; split; [reflexivity|]|].
    + vm_compute; reflexivity.
    + split; [reflexivity|].
      split; [simpl; lia|]; exists 5%nat; split; [|lia].
      reflexivity.
  - subst stack; rewrite rev_app_distr in Hrev; simpl in Hrev.
    exists x, l'; split; [now left|].
    destruct rounds as [|n].
    { simpl in Hrev; rewrite skipn_nil in Hrev; discriminate. }
    cbn [times] in Hrev.
    do 8 (destruct j as [|j];
          [cbn in Hrev; injection Hrev as Hx Hr; subst x;
           split; [reflexivity|];
           split; [simpl; lia|];
           first [ exists (S n); split; [exact Hr|lia]
                 | exists n; split; [exact Hr|simpl; lia] ]
          |]).
    lia.
Qed.

(** *** Plotting *)

Lemma plot_group_ok (uid : Uid) (t : Tracer) :
  persist t = true \/ current t <> None ->
  exists t' line,
    plot_group uid t = (t', Ok line) /\
    _check_uid uid t = (t', Ok tt) /\
    (if persist t then true
     else match current t with Some cur => mem uid cur | None => false end)
    = negb (match line with [] => true | _ => false end) /\
    forall u c, In (u, c) line ->
      u = uid /\ Series_get uid (cell_color t') = Ok c.
Proof.
  intro Hshow.
  destruct (check_uid_total uid t) as (t' & Hc & (c & Hget) & _).
  assert (Hframe : persist t' = persist t /\ current t' = current t).
  { revert Hc; unfold _check_uid.
    destruct (negb _); [|now intros [= <-]].
    destruct (pop (color_stack t)) as [[c0 st]|e]; [now intros [= <-]|].
    destruct e; try discriminate.
    cbv zeta; destruct (pop _) as [[c1 st]|e]; [now intros [= <-]|discriminate]. }
  destruct Hframe as [Hp Hcur].
  unfold plot_group; rewrite Hc, Hp, Hcur.
  destruct (persist t) eqn:Ep.
  - rewrite Hget; eexists; eexists; split; [reflexivity|].
    split; [reflexivity|split; [reflexivity|]].
    intros u v [[= <- <-]|[]]; auto.
  - destruct (current t) as [cur|] eqn:Ec;
      [|destruct Hshow as [H|H]; [discriminate|now destruct H]].
    destruct (mem uid cur) eqn:Em.
    + rewrite Hget; eexists; eexists; split; [reflexivity|].
      split; [reflexivity|split; [reflexivity|]].
      intros u v [[= <- <-]|[]]; auto.
    + eexists; eexists; split; [reflexivity|].
      split; [reflexivity|split; [reflexivity|]].
      intros u v [].
Qed.

Lemma check_uid_frame (uid : Uid) (t t' : Tracer) (r : result unit) :
  _check_uid uid t = (t', r) ->
  persist t' = persist t /\ current t' = current t /\
  history t' = history t /\ tobj_tracks t' = tobj_tracks t.
Proof.
  unfold _check_uid.
  destruct (negb _); [|now intros [= <- <-]].
  destruct (pop (color_stack t)) as [[c0 st]|e]; [now intros [= <- <-]|].
  destruct e; try (now intros [= <- <-]).
  cbv zeta; destruct (pop _) as [[c1 st]|e]; now intros [= <- <-].
Qed.

Lemma plot_groups_ok (groups : list Uid) :
  forall t,
  persist t = true \/ current t <> None ->
  exists t' lines,
    plot_groups groups t = (t', Ok lines) /\
    persist t' = persist t /\ current t' = current t /\
    (forall u c, Series_get u (cell_color t) = Ok c ->
                 Series_get u (cell_color t') = Ok c) /\
    (forall u, In u groups -> exists c, Series_get u (cell_color t') = Ok c) /\
    (forall u c, In (u, c) lines ->
       In u groups /\ Series_get u (cell_color t') = Ok c /\
       (persist t = true \/ exists cur, current t = Some cur /\ In u cur)).
Proof.
  induction groups as [|uid rest IH]; intros t Hshow.
  - exists t, []; simpl; split; [reflexivity|].
    split; [reflexivity|split; [reflexivity|split; [auto|split]]].
    + intros u [].
    + intros u c [].
  - destruct (plot_group_ok uid t Hshow) as (t1 & line & Hg & Hc & Hshown & Hline).
    destruct (check_uid_frame uid t t1 _ Hc) as (Hp1 & Hc1 & _ & _).
    destruct (check_uid_total uid t) as (t1' & Hc' & Hhas & Hkeep).
    rewrite Hc in Hc'; injection Hc' as <-.
    destruct (IH t1) as (t2 & lines & Hr & Hp2 & Hc2 & Hkeep2 & Hall & Hlines).
    { now rewrite Hp1, Hc1. }
    exists t2, (line ++ lines); cbn [plot_groups]; rewrite Hg, Hr.
    split; [reflexivity|].
    split; [congruence|split; [congruence|split; [auto|split]]].
    + intros u [<-|Hin]; [|auto].
      destruct Hhas as [c Hget]; exists c; auto.
    + intros u c Hin; apply in_app_or in Hin as [Hin|Hin].
      * destruct (Hline u c Hin) as [-> Hget].
        split; [now left|split; [auto|]].
        destruct (persist t); [now left|right].
        destruct (current t) as [cur|]; [|destruct line; [easy|discriminate]].
        exists cur; split; [reflexivity|].
        apply mem_true; destruct line; [easy|].
        now destruct (mem uid cur).
      * destruct (Hlines u c Hin) as (Hi & Hget & Hs).
        split; [now right|split; [exact Hget|]].
        now rewrite <- Hp1, <- Hc1.
Qed.

Lemma plot_groups_cycle (groups : list Uid) :
  forall t j,
  NoDup groups ->
  (forall u, In u groups -> ~ In u (keys (cell_color t))) ->
  in_cycle j (color_stack t) ->
  persist t = true \/ current t <> None ->
  exists t' lines,
    plot_groups groups t = (t', Ok lines) /\
    (forall u c, Series_get u (cell_color t) = Ok c ->
                 Series_get u (cell_color t') = Ok c) /\
    forall k uid, nth_error groups k = Some uid ->
      exists c, nth_error colors_literal ((j + k) mod 8) = Some c /\
                Series_get uid (cell_color t') = Ok c.
Proof.
  induction groups as [|uid rest IH]; intros t j Hnd Hnew Hcyc Hshow.
  - exists t, []; split; [reflexivity|split; [auto|]].
    intros [|k] uid H; discriminate.
  - assert (Hu : ~ In uid (keys (cell_color t))) by (apply Hnew; now left).
    destruct (check_uid_new uid t Hu) as (c & stack & Hc & Hpop).
    destruct (in_cycle_pop j _ Hcyc) as (c' & stack' & Hpop' & Hnth & Hcyc').
    assert (c' = c /\ stack' = stack) as [-> ->].
    { destruct Hpop as [H1|[E1 H1]], Hpop' as [H2|[E2 H2]]; try (split; congruence).
      - rewrite E2 in H1; discriminate.
      - rewrite E1 in H2; discriminate. }
    destruct (plot_group_ok uid t Hshow) as (t1 & line & Hg & Hc1 & _ & _).
    rewrite Hc in Hc1; injection Hc1 as <-.
    set (t1 := set_colors stack (Series_set uid c (cell_color t)) t) in *.
    inversion Hnd as [|? ? Hnotin Hnd']; subst.
    destruct (IH t1 (S j mod 8)%nat Hnd') as (t2 & lines & Hr & Hkeep & Hcol).
    { intros u Hin; cbn [t1 cell_color set_colors].
      rewrite keys_set_new by assumption.
      intro H; apply in_app_or in H as [H|[<-|[]]].
      - now apply (Hnew u); [right|].
      - contradiction. }
    { exact Hcyc'. }
    { exact Hshow. }
    assert (Hget1 : forall u v, Series_get u (cell_color t) = Ok v ->
                                Series_get u (cell_color t1) = Ok v).
    { intros u v H; cbn [t1 cell_color set_colors].
      rewrite Series_get_set_new by assumption.
      destruct (label_eq_dec u uid) as [->|_]; [|exact H].
      exfalso; apply Hu, Series_get_In; eauto. }
    assert (Hhead : Series_get uid (cell_color t1) = Ok c).
    { cbn [t1 cell_color set_colors].
      rewrite Series_get_set_new by assumption.
      destruct (label_eq_dec uid uid); [reflexivity|congruence]. }
    assert (Hj : (j < 8)%nat) by apply Hcyc.
    exists t2, (line ++ lines); cbn [plot_groups]; rewrite Hg, Hr.
    split; [reflexivity|split; [auto|]].
    intros [|k] u Hk; simpl in Hk.
    + injection Hk as <-; exists c; rewrite Nat.add_0_r, Nat.mod_small by lia.
      auto.
    + destruct (Hcol k u Hk) as (v & Hv & Hgt); exists v; split; [|exact Hgt].
      rewrite <- Hv; f_equal.
      rewrite Nat.Div0.add_mod_idemp_l; f_equal; lia.
Qed.

(** *** [update] *)

Lemma update_ok (nframe : Z) (t : Tracer) (cur : list Uid) :
  loc nframe (tobj_tracks t) = Ok cur ->
  update nframe t
  = (if negb (persist t) then
       let dead_cells :=
         filter (fun key => negb (mem key cur)) (keys (cell_color t)) in
       set_colors
         (color_stack t ++ Series_take dead_cells (cell_color t))
         (Series_drop dead_cells (cell_color t))
         (set_current (Some cur)
            (set_history (Some (loc_upto nframe (tobj_tracks t))) t))
     else set_current (Some cur)
            (set_history (Some (loc_upto nframe (tobj_tracks t))) t),
     Ok tt).
Proof.
  intro H; unfold update; cbv zeta.
  cbn [tobj_tracks set_history set_current persist cell_color color_stack].
  rewrite H; destruct (persist t); reflexivity.
Qed.

Lemma filter_key_unique (k : Uid) (c : Series Uid) :
  NoDup (keys c) -> In k (keys c) ->
  exists v, filter (fun kv => if label_eq_dec k (fst kv) then true else false) c
            = [(k, v)].
Proof.
  unfold keys; induction c as [|[k0 v0] c IH]; intros Hnd Hin; [easy|].
  simpl in *; inversion Hnd as [|? ? Hn Hnd']; subst.
  destruct (label_eq_dec k k0) as [->|Hne].
  - exists v0; f_equal.
    clear IH Hin Hnd Hnd'.
    induction c as [|[k1 v1] c IHc]; [reflexivity|]; simpl in *.
    destruct (label_eq_dec k0 k1) as [->|_]; [exfalso; apply Hn; now left|].
    apply IHc; intro H; apply Hn; now right.
  - destruct Hin as [H|H]; [congruence|]; auto.
Qed.

Lemma Series_take_filter (cur : list Uid) (c : Series Uid) :
  NoDup (keys c) ->
  Series_take (filter (fun key => negb (mem key cur)) (keys c)) c
  = map snd (filter (fun kv => negb (mem (fst kv) cur)) c).
Proof.
  intro Hnd; unfold Series_take.
  assert (Hall : forall l, incl l c ->
    flat_map (fun k => map snd
                (filter (fun kv => if label_eq_dec k (fst kv) then true else false) c))
             (filter (fun key => negb (mem key cur)) (keys l))
    = map snd (filter (fun kv => negb (mem (fst kv) cur)) l)).
  { induction l as [|[k v] l IH]; intro Hincl; [reflexivity|].
    assert (Hin : In (k, v) c) by (apply Hincl; now left).
    assert (Hl : incl l c) by (intros x Hx; apply Hincl; now right).
    cbn [keys map filter fst]; fold (keys l).
    destruct (negb (mem k cur)); [|now apply IH].
    cbn [flat_map map]; rewrite IH by assumption.
    destruct (filter_key_unique k c Hnd) as [v' Hv'].
    { unfold keys; apply in_map_iff; exists (k, v); auto. }
    rewrite Hv'; cbn.
    assert (Hin' : In (k, v) [(k, v')]).
    { rewrite <- Hv'; apply filter_In; split; [exact Hin|]; simpl.
      destruct (label_eq_dec k k); [reflexivity|congruence]. }
    destruct Hin' as [[= ->]|[]]; reflexivity. }
  apply Hall, incl_refl.
Qed.

Lemma Series_drop_filter (cur : list Uid) (c : Series Uid) :
  Series_drop (filter (fun key => negb (mem key cur)) (keys c)) c
  = filter (fun kv => mem (fst kv) cur) c.
Proof.
  unfold Series_drop; apply filter_ext_in; intros [k v] Hin; cbn [fst].
  destruct (mem k cur) eqn:Em.
  - replace (mem k _) with false; [reflexivity|].
    symmetry; apply mem_false; intro H.
    apply filter_In in H as [_ H]; rewrite Em in H; discriminate.
  - replace (mem k _) with true; [reflexivity|].
    symmetry; apply mem_true, filter_In; split; [|now rewrite Em].
    unfold keys; apply in_map_iff; exists (k, v); auto.
Qed.

Lemma NoDup_keys_filter (q : Uid * color -> bool) (c : Series Uid) :
  NoDup (keys c) -> NoDup (keys (filter q c)).
Proof.
  unfold keys; induction c as [|kv c IH]; intro H; [constructor|].
  simpl in *; inversion H as [|? ? Hn Hnd]; subst.
  destruct (q kv); [|auto].
  simpl; constructor; [|auto].
  intro Hin; apply Hn; apply in_map_iff in Hin as (x & Hx & Hin).
  apply filter_In in Hin as [Hin _]; apply in_map_iff; eauto.
Qed.

(** [update] without [persist], on a series with distinct keys. *)
Lemma update_dead_cells (nframe : Z) (t : Tracer) (cur : list Uid) :
  persist t = false -> NoDup (keys (cell_color t)) ->
  loc nframe (tobj_tracks t) = Ok cur ->
  exists t',
    update nframe t = (t', Ok tt) /\
    cell_color t' = filter (fun kv => mem (fst kv) cur) (cell_color t) /\
    color_stack t'
    = color_stack t
      ++ map snd (filter (fun kv => negb (mem (fst kv) cur)) (cell_color t)).
Proof.
  intros Hp Hnd Hloc; rewrite (update_ok nframe t cur Hloc), Hp; cbn [negb].
  cbv zeta; eexists; split; [reflexivity|].
  cbn [cell_color color_stack set_colors].
  rewrite Series_take_filter, Series_drop_filter by assumption.
  split; reflexivity.
Qed.

(** X18.  Without [persist], [update] keeps the colours of the cells of
    the new current scan, in their order, and moves the colours of all other
    cells onto the stack, in their order: no colour is lost or duplicated,
    and the keys stay distinct. *)
Theorem update_frees_dead_cells (nframe : Z) (t : Tracer) (cur : list Uid) :
  persist t = false -> NoDup (keys (cell_color t)) ->
  loc nframe (tobj_tracks t) = Ok cur ->
  exists t',
    update nframe t = (t', Ok tt) /\
    cell_color t' = filter (fun kv => mem (fst kv) cur) (cell_color t) /\
    color_stack t'
    = color_stack t
      ++ map snd (filter (fun kv => negb (mem (fst kv) cur)) (cell_color t)) /\
    (length (color_stack t') + length (cell_color t')
     = length (color_stack t) + length (cell_color t))%nat /\
    NoDup (keys (cell_color t')).
Proof.
  intros Hp Hnd Hloc.
  destruct (update_dead_cells nframe t cur Hp Hnd Hloc)
    as (t' & Hu & Hcells & Hstack).
  exists t'; split; [exact Hu|split; [exact Hcells|split; [exact Hstack|]]].
  rewrite Hcells, Hstack; split.
  - rewrite length_app, length_map.
    assert (H : forall c : Series Uid,
              (length (filter (fun kv => negb (mem (fst kv) cur)) c)
               + length (filter (fun kv => mem (fst kv) cur) c) = length c)%nat).
    { induction c as [|kv c IH]; [reflexivity|]; simpl.
      destruct (mem (fst kv) cur); simpl; lia. }
    specialize (H (cell_color t)); lia.
  - now apply NoDup_keys_filter.
Qed.

(** X19.  Without [persist], the first uid without a colour that is
    checked after an [update] gets the colour of the dead cell that was last
    in the series; the colours of the other dead cells stay on the stack. *)
Theorem freed_color_is_reused (nframe : Z) (t : Tracer) (cur : list Uid)
  (uid dead : Uid) (c : color) (earlier : Series Uid) :
  persist t = false -> NoDup (keys (cell_color t)) ->
  loc nframe (tobj_tracks t) = Ok cur ->
  filter (fun kv => negb (mem (fst kv) cur)) (cell_color t)
  = earlier ++ [(dead, c)] ->
  ~ (In uid (keys (cell_color t)) /\ In uid cur) ->
  let t1 := fst (update nframe t) in
  let t2 := fst (_check_uid uid t1) in
  snd (_check_uid uid t1) = Ok tt /\
  Series_get uid (cell_color t2) = Ok c /\
  color_stack t2 = color_stack t ++ map snd earlier.
Proof.
  intros Hp Hnd Hloc Hdead Hnew t1 t2.
  destruct (update_dead_cells nframe t cur Hp Hnd Hloc)
    as (t' & Hu & Hcells & Hstack).
  subst t2 t1; rewrite Hu; cbn [fst].
  assert (Hnew' : ~ In uid (keys (cell_color t'))).
  { rewrite Hcells; intro H; apply Hnew.
    unfold keys in *; apply in_map_iff in H as ([k v] & Hk & Hin).
    simpl in Hk; subst k.
    apply filter_In in Hin as [Hin Hm]; split.
    - apply in_map_iff; exists (uid, v); auto.
    - now apply mem_true. }
  rewrite Hdead, map_app, app_assoc in Hstack; cbn [map snd] in Hstack.
  destruct (check_uid_new uid t' Hnew') as (c' & stack & Hc & Hpop).
  rewrite Hstack, pop_snoc in Hpop.
  destruct Hpop as [[= <- <-]|[E _]];
    [|now destruct (color_stack t ++ map snd earlier)].
  rewrite Hc; cbn [fst snd cell_color color_stack set_colors].
  split; [reflexivity|split; [|reflexivity]].
  rewrite Series_get_set_new by assumption.
  destruct (label_eq_dec uid uid); [reflexivity|congruence].
Qed.

Lemma find_filter {A} (p q : A -> bool) (l : list A) :
  (forall x, In x l -> p x = true -> q x = true) ->
  find p (filter q l) = find p l.
Proof.
  induction l as [|x l IH]; intro H; [reflexivity|]; simpl.
  destruct (q x) eqn:Eq; simpl.
  - destruct (p x); [reflexivity|].
    apply IH; intros y Hy; apply H; now right.
  - destruct (p x) eqn:Ep.
    + rewrite (H x (or_introl eq_refl) Ep) in Eq; discriminate.
    + apply IH; intros y Hy; apply H; now right.
Qed.

(** X20.  After an [update] to a scan that has rows, [plot] raises nothing.
    A cell that had a colour before the update and is still present (or any
    such cell, with [persist]) keeps it; after the plot every cell of the
    history has a colour; and each line is drawn in the colour of its cell,
    for cells of the current scan only unless [persist] is set. *)
Theorem plot_after_update (nframe : Z) (t : Tracer) (cur : list Uid) :
  loc nframe (tobj_tracks t) = Ok cur ->
  let t1 := fst (update nframe t) in
  exists t2 lines,
    plot groupby_uid t1 = (t2, Ok lines) /\
    (forall uid c, Series_get uid (cell_color t) = Ok c ->
       persist t = true \/ In uid cur ->
       Series_get uid (cell_color t2) = Ok c) /\
    (forall uid, In uid (groupby_uid (loc_upto nframe (tobj_tracks t))) ->
       exists c, Series_get uid (cell_color t2) = Ok c) /\
    (forall uid c, In (uid, c) lines ->
       Series_get uid (cell_color t2) = Ok c /\
       (persist t = true \/ In uid cur)).
Proof.
  intros Hloc t1; subst t1; rewrite (update_ok nframe t cur Hloc); cbn [fst].
  set (h := loc_upto nframe (tobj_tracks t)).
  set (t1 := if negb (persist t) then _ else _).
  assert (Hh : history t1 = Some h) by (subst t1; destruct (persist t); reflexivity).
  assert (Hc : current t1 = Some cur) by (subst t1; destruct (persist t); reflexivity).
  assert (Hp : persist t1 = persist t)
    by (subst t1; destruct (persist t) eqn:Ep; cbn; congruence).
  assert (Hlive : forall uid c, Series_get uid (cell_color t) = Ok c ->
            persist t = true \/ In uid cur ->
            Series_get uid (cell_color t1) = Ok c).
  { intros uid c Hget Hor; subst t1; destruct (persist t) eqn:Ep; [exact Hget|].
    destruct Hor as [H|Hin]; [discriminate|].
    cbn [negb cell_color set_colors set_current set_history].
    rewrite Series_drop_filter; unfold Series_get in *.
    rewrite find_filter; [exact Hget|].
    intros [k v] _; cbn [fst].
    destruct (label_eq_dec uid k) as [<-|]; [|discriminate].
    intros _; now apply mem_true. }
  destruct (plot_groups_ok (groupby_uid h) t1) as
    (t2 & lines & Hr & _ & _ & Hkeep & Hall & Hlines).
  { right; rewrite Hc; discriminate. }
  exists t2, lines; unfold plot; rewrite Hh.
  split; [exact Hr|split; [|split]].
  - intros uid c Hget Hor; auto.
  - exact Hall.
  - intros uid c Hin; destruct (Hlines uid c Hin) as (_ & Hget & Hs).
    split; [exact Hget|].
    rewrite Hp in Hs; destruct Hs as [H|(cur' & Hcur' & Hin')]; [now left|].
    right; congruence.
Qed.

(** X17.  On the first frame that a new tracer plots, the groups get the
    colours m, r, lime, darkorange, k, b, darkgreen, yellow in this order,
    the [k]-th group the colour number [k mod 8], also beyond the 80 colours
    of the initial stack. *)
Theorem first_frame_colors_cycle (tracks : TrackIndex Uid) (persist_ : bool)
  (nframe : Z) (cur : list Uid) :
  loc nframe tracks = Ok cur ->
  NoDup (groupby_uid (loc_upto nframe tracks)) ->
  let t1 := fst (update nframe (Tracer_init tracks persist_)) in
  exists t2 lines,
    plot groupby_uid t1 = (t2, Ok lines) /\
    forall k uid,
      nth_error (groupby_uid (loc_upto nframe tracks)) k = Some uid ->
      exists c, nth_error colors_literal (k mod 8) = Some c /\
                Series_get uid (cell_color t2) = Ok c.
Proof.
  intros Hloc Hnd t1; subst t1.
  rewrite (update_ok nframe (Tracer_init tracks persist_) cur Hloc); cbn [fst tobj_tracks Tracer_init].
  set (h := loc_upto nframe tracks) in *.
  set (t1 := if negb _ then _ else _).
  assert (Hh : history t1 = Some h) by (subst t1; destruct persist_; reflexivity).
  assert (Hc : current t1 = Some cur) by (subst t1; destruct persist_; reflexivity).
  assert (Hcells : cell_color t1 = []) by (subst t1; destruct persist_; reflexivity).
  assert (Hstack : color_stack t1 = times colors 10).
  { subst t1; destruct persist_; cbn; reflexivity. }
  destruct (plot_groups_cycle (groupby_uid h) t1 0%nat Hnd) as
    (t2 & lines & Hr & _ & Hcol).
  - intros u _; rewrite Hcells; simpl; auto.
  - rewrite Hstack; split; [lia|]; exists 10%nat; split; [reflexivity|lia].
  - right; rewrite Hc; discriminate.
  - exists t2, lines; unfold plot; rewrite Hh; split; [exact Hr|].
    intros k uid Hk; exact (Hcol k uid Hk).
Qed.

End Facts.

(** *** The tracer on the table [cells] *)

Lemma cells_scan1 : loc 1 (tobj_tracks plotted0) = Ok [2%nat; 3%nat].
Proof. reflexivity. Qed.

Lemma plotted0_keys : NoDup (keys (cell_color plotted0)).
Proof.
  change (NoDup [1%nat; 2%nat]).
  constructor; [intros [H|[]]; discriminate|].
  constructor; [intros []|constructor].
Qed.

Lemma first_frame_colors_cycle_witness :
  let t1 := fst (update 0 (Tracer_init cells false)) in
  exists t2 lines,
    plot group_keys t1 = (t2, Ok lines) /\
    forall k uid,
      nth_error (group_keys (loc_upto 0 cells)) k = Some uid ->
      exists c, nth_error colors_literal (k mod 8) = Some c /\
                Series_get uid (cell_color t2) = Ok c.
Proof.
  apply (first_frame_colors_cycle group_keys cells false 0 [1%nat; 2%nat]).
  - reflexivity.
  - change (NoDup [1%nat; 2%nat]).
    constructor; [intros [H|[]]; discriminate|].
    constructor; [intros []|constructor].
Defined.

Lemma update_frees_dead_cells_witness :
  exists t',
    update 1 plotted0 = (t', Ok tt) /\
    cell_color t'
    = filter (fun kv => mem (fst kv) [2%nat; 3%nat]) (cell_color plotted0) /\
    color_stack t'
    = color_stack plotted0
      ++ map snd (filter (fun kv => negb (mem (fst kv) [2%nat; 3%nat]))
                    (cell_color plotted0)) /\
    (length (color_stack t') + length (cell_color t')
     = length (color_stack plotted0) + length (cell_color plotted0))%nat /\
    NoDup (keys (cell_color t')).
Proof.
  apply (update_frees_dead_cells 1 plotted0 [2%nat; 3%nat]).
  - reflexivity.
  - exact plotted0_keys.
  - exact cells_scan1.
Defined.

Lemma freed_color_is_reused_witness :
  let t1 := fst (update 1 plotted0) in
  let t2 := fst (_check_uid 3%nat t1) in
  snd (_check_uid 3%nat t1) = Ok tt /\
  Series_get 3%nat (cell_color t2) = Ok m_ /\
  color_stack t2 = color_stack plotted0 ++ map snd ([] : Series nat).
Proof.
  apply (freed_color_is_reused 1 plotted0 [2%nat; 3%nat] 3%nat 1%nat m_ []).
  - reflexivity.
  - exact plotted0_keys.
  - exact cells_scan1.
  - reflexivity.
  - intros [H _]; change (In 3%nat [1%nat; 2%nat]) in H.
    destruct H as [H|[H|[]]]; discriminate.
Defined.

Lemma plot_after_update_witness :
  let t1 := fst (update 1 plotted0) in
  exists t2 lines,
    plot group_keys t1 = (t2, Ok lines) /\
    (forall uid c, Series_get uid (cell_color plotted0) = Ok c ->
       persist plotted0 = true \/ In uid [2%nat; 3%nat] ->
       Series_get uid (cell_color t2) = Ok c) /\
    (forall uid, In uid (group_keys (loc_upto 1 (tobj_tracks plotted0))) ->
       exists c, Series_get uid (cell_color t2) = Ok c) /\
    (forall uid c, In (uid, c) lines ->
       Series_get uid (cell_color t2) = Ok c /\
       (persist plotted0 = true \/ In uid [2%nat; 3%nat])).
Proof.
  apply (plot_after_update group_keys 1 plotted0 [2%nat; 3%nat]).
  exact cells_scan1.
Defined.

End TracerProps.
